(** * Upgrade tool: configuration merge, hardening, diff report and orchestration

  A shallow embedding of [configMerger.mjs] and of the upgrade route of
  [server.mjs], with the properties of the specification stated over it.

  JavaScript strings are sequences of UTF-16 code units; they are modelled
  as lists of code units ([N]).  Arrays are lists, plain records are Rocq
  records, and array updates by index use stdpp's list insert. *)

From Stdlib Require Import String Ascii.
From stdpp Require Import base decidable option numbers list gmap.

Local Open Scope Z_scope.
Local Open Scope nat_scope.
Local Open Scope list_scope.

(* ========================================================================= *)
(** * JavaScript string primitives *)
(* ========================================================================= *)

Module Js.

(** A string value: its UTF-16 code units. *)
Abbreviation str := (list N).

(** A source literal (ASCII only). *)
Definition lit (s : string) : str :=
  List.map N_of_ascii (list_ascii_of_string s).

Definition nl : N := 10%N.
Definition sp : N := 32%N.
Definition dq : N := 34%N.
Definition hash : N := 35%N.

(** ECMAScript [WhiteSpace] and [LineTerminator] code units: what
    [String.prototype.trim] strips and what [\s] matches. *)
Definition is_ws (c : N) : bool :=
  (bool_decide (c ∈ [9; 10; 11; 12; 13; 32; 160; 5760; 8232; 8233; 8239; 8287;
                    12288; 65279]%N)
   || ((8192 <=? c) && (c <=? 8202))%N).

Fixpoint trimStart (s : str) : str :=
  match s with
  | c :: s' => if is_ws c then trimStart s' else s
  | [] => []
  end.

Definition trimEnd (s : str) : str := rev (trimStart (rev s)).

(** [s.trim()] *)
Definition trim (s : str) : str := trimEnd (trimStart s).

(** [s.startsWith(p)] *)
Fixpoint startsWith (p s : str) : bool :=
  match p, s with
  | [], _ => true
  | a :: p', b :: s' => (a =? b)%N && startsWith p' s'
  | _ :: _, [] => false
  end.

(** [s.endsWith(p)] *)
Definition endsWith (p s : str) : bool := startsWith (rev p) (rev s).

(** [s.includes(needle)] *)
Fixpoint includes (needle s : str) : bool :=
  startsWith needle s ||
  match s with
  | [] => false
  | _ :: s' => includes needle s'
  end.

(** [s.split(sep)] for a one-unit separator: never the empty array. *)
Fixpoint split (sep : N) (s : str) : list str :=
  match s with
  | [] => [[]]
  | c :: s' =>
      if (c =? sep)%N then [] :: split sep s'
      else match split sep s' with
           | l :: ls => (c :: l) :: ls
           | [] => [[c]]
           end
  end.

(** [parts.join(sep)] *)
Fixpoint join (sep : str) (parts : list str) : str :=
  match parts with
  | [] => []
  | [p] => p
  | p :: ps => p ++ sep ++ join sep ps
  end.

(** [s.split(/\s+/)]: every maximal run of white space is one separator; a
    run at the start or at the end leaves an empty first or last part. *)
Fixpoint split_ws_from (in_sep : bool) (cur : str) (s : str) : list str :=
  match s with
  | [] => if in_sep then [[]] else [rev cur]
  | c :: s' =>
      if is_ws c then
        if in_sep then split_ws_from true [] s'
        else rev cur :: split_ws_from true [] s'
      else split_ws_from false (c :: cur) s'
  end.

Definition split_ws (s : str) : list str := split_ws_from false [] s.

(** [a === b] on strings. *)
Definition eqb (a b : str) : bool := bool_decide (a = b).

(** [list.includes(x)] on an array of strings. *)
Definition arr_includes (l : list str) (x : str) : bool := bool_decide (x ∈ l).

Arguments eqb : simpl never.
Arguments arr_includes : simpl never.

(** Decimal rendering of a number, as a template literal does. *)
Fixpoint digits (fuel : nat) (n : N) (acc : str) : str :=
  match fuel with
  | O => acc
  | S fuel =>
      let acc := (48 + n mod 10)%N :: acc in
      if (n <? 10)%N then acc else digits fuel (n / 10)%N acc
  end.

Definition of_N (n : N) : str := digits (S (N.to_nat (N.log2 n))) n [].
Definition of_nat (n : nat) : str := of_N (N.of_nat n).
Definition of_Z (z : Z) : str :=
  match z with
  | Zneg p => 45%N :: of_N (Npos p)
  | _ => of_N (Z.to_N z)
  end.

End Js.

Import Js.

(* ========================================================================= *)
(** * Apache httpd: parser, classifier, merge engine and serializer *)
(* ========================================================================= *)

Module Apache.

Definition APACHE_USER_DIRECTIVES : list str :=
  List.map lit
    ["ServerName"; "ServerAdmin"; "ServerRoot"; "DocumentRoot"; "Listen";
     "ErrorLog"; "CustomLog"; "LogLevel"; "LogFormat";
     "SSLCertificateFile"; "SSLCertificateKeyFile"; "SSLCertificateChainFile";
     "SSLCACertificateFile"; "ProxyPass"; "ProxyPassReverse";
     "Redirect"; "RedirectMatch"; "Alias"; "ScriptAlias";
     "Directory"; "VirtualHost"; "IfModule"; "LoadModule"]%string.

Definition APACHE_SECURITY_DIRECTIVES : list str :=
  List.map lit
    ["SSLProtocol"; "SSLCipherSuite"; "SSLHonorCipherOrder";
     "Header"; "ServerTokens"; "ServerSignature"; "TraceEnable";
     "FileETag"; "Timeout"; "LimitRequestBody"; "KeepAlive"]%string.

(** [{ name, value, fullLine, lineNum }] *)
Record Directive := mkDirective {
  d_name : str;
  d_value : str;
  d_fullLine : str;
  d_lineNum : nat
}.

(** [{ line, lineNum }] *)
Record LoadModule := mkLoadModule {
  m_line : str;
  m_lineNum : nat
}.

(** [{ content, lines, startIndex, endIndex }] *)
Record Block := mkBlock {
  b_content : str;
  b_lines : list str;
  b_startIndex : nat;
  b_endIndex : nat
}.

(** The parsed document. *)
Record Config := mkConfig {
  directives : list Directive;
  modules : list LoadModule;
  virtualHosts : list Block;
  directories : list Block;
  ifModules : list Block
}.

(** The result of [extractApacheUserSettings]. *)
Record Customizations := mkCustomizations {
  u_directives : list Directive;
  u_virtualHosts : list Block;
  u_directories : list Block;
  u_modules : list LoadModule
}.

#[export] Instance Directive_eq_dec : EqDecision Directive.
Proof. solve_decision. Defined.
#[export] Instance LoadModule_eq_dec : EqDecision LoadModule.
Proof. solve_decision. Defined.
#[export] Instance Block_eq_dec : EqDecision Block.
Proof. solve_decision. Defined.
#[export] Instance Config_eq_dec : EqDecision Config.
Proof. solve_decision. Defined.

(** [parseApacheDirective(line)]: [None] is the source's [null].  The name
    and the value are filled in by the caller's spread, the line number is
    added there. *)
Definition parseApacheDirective (line : str) : option (str * str * str) :=
  let trimmed := trim line in
  if bool_decide (trimmed = []) || startsWith [hash] trimmed then None
  else
    let parts := split_ws trimmed in
    match parts with
    | [] => None
    | p0 :: rest => Some (p0, join [sp] rest, line)
    end.

(** The loop of [extractApacheBlock], over the lines from index [i] on. *)
Fixpoint extractApacheBlock_loop (startTag endTag : str) (rest : list str)
    (i : nat) (depth : Z) (blockLines : list str) : list str * nat :=
  match rest with
  | [] => (blockLines, i)
  | l :: rest' =>
      if bool_decide (0 < depth)%Z then
        let blockLines := blockLines ++ [l] in
        let trimmed := trim l in
        let depth := if startsWith startTag trimmed then (depth + 1)%Z else depth in
        let depth := if startsWith endTag trimmed then (depth - 1)%Z else depth in
        if bool_decide (depth = 0%Z) then (blockLines, i)
        else extractApacheBlock_loop startTag endTag rest' (S i) depth blockLines
      else (blockLines, i)
  end.

(** [extractApacheBlock(lines, startIndex, startTag, endTag)]; the callers
    pass an index inside [lines]. *)
Definition extractApacheBlock (lines : list str) (startIndex : nat)
    (startTag endTag : str) : Block :=
  let first := default [] (lines !! startIndex) in
  let '(blockLines, i) :=
    extractApacheBlock_loop startTag endTag (drop (S startIndex) lines)
      (S startIndex) 1%Z [first] in
  mkBlock (join [nl] blockLines) blockLines startIndex i.

Definition emptyConfig : Config := mkConfig [] [] [] [] [].

Definition push_directive (c : Config) (d : Directive) : Config :=
  mkConfig (directives c ++ [d]) (modules c) (virtualHosts c) (directories c) (ifModules c).
Definition push_module (c : Config) (m : LoadModule) : Config :=
  mkConfig (directives c) (modules c ++ [m]) (virtualHosts c) (directories c) (ifModules c).
Definition push_virtualHost (c : Config) (b : Block) : Config :=
  mkConfig (directives c) (modules c) (virtualHosts c ++ [b]) (directories c) (ifModules c).
Definition push_directory (c : Config) (b : Block) : Config :=
  mkConfig (directives c) (modules c) (virtualHosts c) (directories c ++ [b]) (ifModules c).
Definition push_ifModule (c : Config) (b : Block) : Config :=
  mkConfig (directives c) (modules c) (virtualHosts c) (directories c) (ifModules c ++ [b]).

(** One iteration of the [while] loop of [parseApacheConfig] at index [i]:
    the next index and the updated document. *)
Definition parse_step (lines : list str) (i : nat) (raw : str) (config : Config)
    : nat * Config :=
  let line := trim raw in
  if bool_decide (line = []) || startsWith [hash] line then (S i, config)
  else if startsWith (lit "LoadModule") line then
    (S i, push_module config (mkLoadModule raw (i + 1)))
  else if startsWith (lit "<VirtualHost") line then
    let block := extractApacheBlock lines i (lit "<VirtualHost") (lit "</VirtualHost>") in
    (S (b_endIndex block), push_virtualHost config block)
  else if startsWith (lit "<Directory") line then
    let block := extractApacheBlock lines i (lit "<Directory") (lit "</Directory>") in
    (S (b_endIndex block), push_directory config block)
  else if startsWith (lit "<IfModule") line then
    let block := extractApacheBlock lines i (lit "<IfModule") (lit "</IfModule>") in
    (S (b_endIndex block), push_ifModule config block)
  else
    match parseApacheDirective raw with
    | Some (n, v, full) => (S i, push_directive config (mkDirective n v full (i + 1)))
    | None => (S i, config)
    end.

(** The [while (i < lines.length)] loop; [fuel] bounds the iterations. *)
Fixpoint parse_loop (fuel : nat) (lines : list str) (i : nat) (config : Config)
    : Config :=
  match fuel with
  | O => config
  | S fuel =>
      match lines !! i with
      | None => config
      | Some raw =>
          let '(i', config') := parse_step lines i raw config in
          parse_loop fuel lines i' config'
      end
  end.

(** [parseApacheConfig(content, logs)]: every iteration advances [i], so
    [lines.length] iterations are enough. *)
Definition parseApacheConfig (content : str) : Config :=
  let lines := split nl content in
  parse_loop (length lines) lines 0 emptyConfig.

(** [hasUserContent(content)] *)
Definition hasUserContent (content : str) : bool :=
  existsb (fun kw => includes kw content)
    (List.map lit ["ProxyPass"; "Redirect"; "Alias"; "SSLCertificate"; "Allow"; "Deny"]%string).

(** [isDefaultModule(line)] *)
Definition isDefaultModule (line : str) : bool :=
  existsb (fun m => includes m line)
    (List.map lit
       ["mod_access_compat"; "mod_actions"; "mod_alias"; "mod_allowmethods";
        "mod_auth_basic"; "mod_authn_core"; "mod_authn_file"; "mod_authz_core";
        "mod_authz_groupfile"; "mod_authz_host"; "mod_authz_user"; "mod_autoindex";
        "mod_dir"; "mod_env"; "mod_headers"; "mod_include"; "mod_log_config";
        "mod_mime"; "mod_negotiation"; "mod_setenvif"]%string).

(** [extractApacheUserSettings(config, logs)] *)
Definition extractApacheUserSettings (config : Config) : Customizations :=
  mkCustomizations
    (List.filter (fun dir => arr_includes APACHE_USER_DIRECTIVES (d_name dir))
       (directives config))
    (virtualHosts config)
    (List.filter (fun dir => hasUserContent (b_content dir)) (directories config))
    (List.filter (fun m => negb (isDefaultModule (m_line m))) (modules config)).

(** [arr.findIndex(d => d.name === name)]: [None] is the source's [-1]. *)
Definition findIndex (name : str) (l : list Directive) : option nat :=
  fst <$> list_find (fun d => d_name d = name) l.

(** The names of a directive list, in order. *)
Definition names (l : list Directive) : list str := List.map d_name l.

(** The body of the [forEach] over the user directives: the directive list
    of the merged document after one user directive. *)
Definition merge_directive (merged : list Directive) (userDir : Directive)
    : list Directive :=
  if arr_includes APACHE_SECURITY_DIRECTIVES (d_name userDir) then merged
  else
    match findIndex (d_name userDir) merged with
    | Some existingIndex => <[existingIndex := userDir]> merged
    | None => merged ++ [userDir]
    end.

(** [JSON.parse(JSON.stringify(newConfig))]: on values (strings, integers,
    arrays and plain records) the deep copy is the same value. *)
Definition json_clone (c : Config) : Config := c.

(** [mergeApacheSettings(newConfig, userCustomizations, logs)] *)
Definition mergeApacheSettings (newConfig : Config) (userCustomizations : Customizations)
    : Config :=
  let merged := json_clone newConfig in
  mkConfig
    (fold_left merge_directive (u_directives userCustomizations) (directives merged))
    (modules merged ++ u_modules userCustomizations)
    (virtualHosts merged ++ u_virtualHosts userCustomizations)
    (directories merged ++ u_directories userCustomizations)
    (ifModules merged).

(** One section of [buildApacheConfig]: a heading, the entries and an empty
    line, only when the section has entries. *)
Definition section (heading : str) (entries : list str) : list str :=
  match entries with
  | [] => []
  | _ => heading :: entries ++ [[]]
  end.

Definition rule : str := hash :: sp :: repeat 61%N 76.

(** The pieces pushed on [lines] by [buildApacheConfig]; [now] is the value
    of [new Date().toISOString()]. *)
Definition build_pieces (now : str) (config : Config) : list str :=
  [rule;
   lit "# Apache HTTP Server Configuration - Merged by Upgrade Tool";
   lit "# Generated: " ++ now;
   rule;
   []]
  ++ section (lit "# Load Modules") (List.map m_line (modules config))
  ++ section (lit "# Server Configuration") (List.map d_fullLine (directives config))
  ++ section (lit "# Conditional Configuration") (List.map b_content (ifModules config))
  ++ section (lit "# Directory Configuration") (List.map b_content (directories config))
  ++ section (lit "# Virtual Hosts") (List.map b_content (virtualHosts config)).

(** [buildApacheConfig(config, logs)] *)
Definition buildApacheConfig (now : str) (config : Config) : str :=
  join [nl] (build_pieces now config).

(** ** Vocabulary for the properties of the parser and the serializer *)

(** A line the parser does not skip: not blank and not a comment. *)
Definition significant (raw : str) : Prop :=
  trim raw <> [] /\ startsWith [hash] (trim raw) = false.

(** The lines each section of the output is made of. *)
Definition moduleLines (c : Config) : list str := List.map m_line (modules c).
Definition directiveLines (c : Config) : list str := List.map d_fullLine (directives c).
Definition blockLines (bs : list Block) : list str := concat (List.map b_lines bs).

(** The five sections, in the order the serializer emits them. *)
Definition components (c : Config) : list (list str) :=
  [moduleLines c; directiveLines c; blockLines (ifModules c);
   blockLines (directories c); blockLines (virtualHosts c)].

(** A block as the parser builds it: its content is its lines, joined. *)
Definition block_ok (b : Block) : Prop :=
  b_content b = join [nl] (b_lines b) /\ b_lines b <> [].

Definition blocks_ok (c : Config) : Prop :=
  Forall block_ok (ifModules c) /\ Forall block_ok (directories c)
  /\ Forall block_ok (virtualHosts c).

(** The generated header of the output. *)
Definition header (now : str) : list str :=
  [rule;
   lit "# Apache HTTP Server Configuration - Merged by Upgrade Tool";
   lit "# Generated: " ++ now;
   rule;
   []].

(** The lines of the output, by section. *)
Definition outputLines (now : str) (c : Config) : list str :=
  header now
  ++ section (lit "# Load Modules") (moduleLines c)
  ++ section (lit "# Server Configuration") (directiveLines c)
  ++ section (lit "# Conditional Configuration") (blockLines (ifModules c))
  ++ section (lit "# Directory Configuration") (blockLines (directories c))
  ++ section (lit "# Virtual Hosts") (blockLines (virtualHosts c)).

(** The lines the serializer writes on its own. *)
Definition generatedLines (now : str) : list str :=
  header now
  ++ [lit "# Load Modules"; lit "# Server Configuration"; lit "# Conditional Configuration";
      lit "# Directory Configuration"; lit "# Virtual Hosts"].

(** One iteration of the parser consumes [chunk]: it skips it, which it does
    only for lines that are not significant, or adds it at the end of one
    section. *)
Definition grows (chunk : list str) (c c' : Config) : Prop :=
  (c' = c /\ Forall (fun l => ~ significant l) chunk)
  \/ exists n comp, components c !! n = Some comp
                    /\ components c' = <[n := comp ++ chunk]> (components c).

(** What holds of the document built from the first [i] lines: every section
    is a subsequence of those lines, and every significant one of them is
    in some section. *)
Definition parsed_upto (lines : list str) (i : nat) (c : Config) : Prop :=
  blocks_ok c
  /\ Forall (fun comp => sublist comp (take i lines)) (components c)
  /\ (forall l, l ∈ take i lines -> significant l -> l ∈ concat (components c)).

End Apache.

Import Apache.


(* ========================================================================= *)
(** * The hardening text written to [httpd-security-vapt.conf] *)
(* ========================================================================= *)

Module Hardening.

(** The lines of the template literal [APACHE_VAPT_CONFIG]; the literal starts
    and ends with a line break. *)
Definition APACHE_VAPT_LINES : list str :=
  [[];
   lit "# ============================================================================";
   lit "# APACHE HTTPD - VAPT SECURITY HARDENING";
   lit "# Auto-generated during upgrade - DO NOT MODIFY MANUALLY";
   lit "# ============================================================================";
   [];
   lit "# 1. Hide Apache Version and OS Information";
   lit "ServerTokens Prod";
   lit "ServerSignature Off";
   [];
   lit "# 2. Disable HTTP TRACE Method (Prevents XST attacks)";
   lit "TraceEnable Off";
   [];
   lit "# 3. Clickjacking Protection";
   lit "Header always append X-Frame-Options SAMEORIGIN";
   [];
   lit "# 4. XSS Protection";
   lit "Header set X-XSS-Protection " ++ [dq] ++ lit "1; mode=block" ++ [dq];
   [];
   lit "# 5. MIME Type Sniffing Protection";
   lit "Header set X-Content-Type-Options " ++ [dq] ++ lit "nosniff" ++ [dq];
   [];
   lit "# 6. Referrer Policy";
   lit "Header set Referrer-Policy " ++ [dq] ++ lit "strict-origin-when-cross-origin" ++ [dq];
   [];
   lit "# 7. Content Security Policy (CSP)";
   lit "Header set Content-Security-Policy " ++ [dq] ++ lit "default-src 'self'; script-src 'self' 'unsafe-inline'; style-src 'self' 'unsafe-inline'" ++ [dq];
   [];
   lit "# 8. HTTP Strict Transport Security (HSTS) - Enable if using HTTPS";
   lit "# Header always set Strict-Transport-Security " ++ [dq] ++ lit "max-age=31536000; includeSubDomains; preload" ++ [dq];
   [];
   lit "# 9. Remove ETag (Information Disclosure)";
   lit "FileETag None";
   [];
   lit "# 10. Limit Request Size (DoS Protection)";
   lit "LimitRequestBody 10485760";
   [];
   lit "# 11. Timeout Configuration (DoS Protection)";
   lit "Timeout 60";
   lit "KeepAlive On";
   lit "MaxKeepAliveRequests 100";
   lit "KeepAliveTimeout 5";
   [];
   lit "# 12. Disable Directory Listing";
   lit "<Directory />";
   lit "    Options -Indexes";
   lit "    AllowOverride None";
   lit "    Require all denied";
   lit "</Directory>";
   [];
   lit "# 13. SSL/TLS Security (If SSL is enabled)";
   lit "<IfModule ssl_module>";
   lit "    # Use only TLS 1.2 and 1.3";
   lit "    SSLProtocol -all +TLSv1.2 +TLSv1.3";
   [];
   lit "    # Strong Cipher Suite";
   lit "    SSLCipherSuite ECDHE-ECDSA-AES128-GCM-SHA256:ECDHE-RSA-AES128-GCM-SHA256:ECDHE-ECDSA-AES256-GCM-SHA384:ECDHE-RSA-AES256-GCM-SHA384:ECDHE-ECDSA-CHACHA20-POLY1305:ECDHE-RSA-CHACHA20-POLY1305:DHE-RSA-AES128-GCM-SHA256:DHE-RSA-AES256-GCM-SHA384";
   [];
   lit "    # Prefer Server Ciphers";
   lit "    SSLHonorCipherOrder On";
   [];
   lit "    # Disable SSL Compression (CRIME attack)";
   lit "    SSLCompression Off";
   [];
   lit "    # OCSP Stapling";
   lit "    SSLUseStapling On";
   lit "    SSLStaplingCache " ++ [dq] ++ lit "shmcb:logs/ssl_stapling(32768)" ++ [dq];
   lit "</IfModule>";
   [];
   lit "# 14. Disable Unnecessary Modules (Uncomment to disable)";
   lit "# LoadModule autoindex_module modules/mod_autoindex.so";
   lit "# LoadModule status_module modules/mod_status.so";
   lit "# LoadModule info_module modules/mod_info.so";
   [];
   lit "# 15. Log Security Events";
   lit "LogLevel warn ssl:warn";
   [];
   lit "// ADD these missing items to APACHE_VAPT_CONFIG in configMerger.mjs (around line 35)";
   [];
   lit "# 16. Secure Cookie Configuration (MISSING - Critical from PDF)";
   lit "Header edit Set-Cookie ^(.*)$ $1;HttpOnly;Secure";
   lit "Header always edit Set-Cookie (.*) " ++ [dq] ++ lit "$1; SameSite=Strict" ++ [dq];
   [];
   lit "# 17. Disable HTTP/1.0 Protocol (MISSING)";
   lit "Protocols h2 http/1.1";
   [];
   lit "# 18. Request Timeout (adjust from current generic Timeout)";
   lit "RequestReadTimeout header=20-40,MinRate=500 body=20,MinRate=500";
   [];
   lit "# ============================================================================";
   lit "# END OF VAPT SECURITY HARDENING";
   lit "# ============================================================================";
   []].

Definition APACHE_VAPT_CONFIG : str := join [nl] APACHE_VAPT_LINES.

(** The text appended to the merged content by [mergeApacheConfig]. *)
Definition INCLUDE_LINE : str := lit "Include conf/extra/httpd-security-vapt.conf".

Definition INCLUDE_SUFFIX : str :=
  [nl; nl] ++ lit "# Include VAPT Security Hardening" ++ [nl] ++ INCLUDE_LINE ++ [nl].

(** The hardening step of the directive format: the statement
    [finalContent = mergedContent + `...Include...`]. *)
Definition appendInclude (mergedContent : str) : str := mergedContent ++ INCLUDE_SUFFIX.

(** The lines the hardening step adds after the last line of the text. *)
Definition includeTail : list str :=
  [[]; lit "# Include VAPT Security Hardening"; INCLUDE_LINE; []].

End Hardening.

Import Hardening.

(* ========================================================================= *)
(** * The diff report *)
(* ========================================================================= *)

Module Diff.

(** [lines[i] || ''] *)
Definition lineAt (lines : list str) (i : nat) : str := default [] (lines !! i).

(** The three arrays of [changes]. *)
Record Changes := mkChanges {
  added : list (nat * str);
  removed : list (nat * str);
  modified : list (nat * str * str)
}.

Definition isEmpty (s : str) : bool := bool_decide (s = []).

(** The body of the [for] loop at index [i]. *)
Definition diff_step (oldLines newLines : list str) (changes : Changes) (i : nat)
    : Changes :=
  let oldLine := lineAt oldLines i in
  let newLine := lineAt newLines i in
  if negb (eqb oldLine newLine) then
    if isEmpty oldLine && negb (isEmpty newLine) then
      mkChanges (added changes ++ [(i + 1, newLine)]) (removed changes) (modified changes)
    else if negb (isEmpty oldLine) && isEmpty newLine then
      mkChanges (added changes) (removed changes ++ [(i + 1, oldLine)]) (modified changes)
    else
      mkChanges (added changes) (removed changes) (modified changes ++ [(i + 1, oldLine, newLine)])
  else changes.

Definition computeChanges (oldLines newLines : list str) : Changes :=
  let maxLen := Nat.max (length oldLines) (length newLines) in
  fold_left (diff_step oldLines newLines) (seq 0 maxLen) (mkChanges [] [] []).

Definition bar : str := repeat 9552%N 100.
Definition dashes : str := repeat 45%N 100.

Definition addedSection (l : list (nat * str)) : list str :=
  match l with
  | [] => []
  | _ => [lit "ADDED LINES:"; dashes]
         ++ List.map (fun c => lit "  [Line " ++ of_nat (fst c) ++ lit "] + " ++ snd c) l
         ++ [[]]
  end.

Definition removedSection (l : list (nat * str)) : list str :=
  match l with
  | [] => []
  | _ => [lit "REMOVED LINES:"; dashes]
         ++ List.map (fun c => lit "  [Line " ++ of_nat (fst c) ++ lit "] - " ++ snd c) l
         ++ [[]]
  end.

Definition modifiedSection (l : list (nat * str * str)) : list str :=
  match l with
  | [] => []
  | _ => [lit "MODIFIED LINES:"; dashes]
         ++ concat (List.map (fun c =>
              [lit "  [Line " ++ of_nat (fst (fst c)) ++ lit "]";
               lit "    OLD: " ++ snd (fst c);
               lit "    NEW: " ++ snd c;
               []]) (take 50 l))
         ++ (if bool_decide (50 < length l)
             then [lit "  ... and " ++ of_nat (length l - 50) ++ lit " more modified lines"; []]
             else [])
  end.

(** The elements pushed on [report]; [now] is [new Date().toISOString()]. *)
Definition reportLines (now oldContent newContent : str) : list str :=
  let oldLines := split nl oldContent in
  let newLines := split nl newContent in
  let changes := computeChanges oldLines newLines in
  [bar;
   lit "                    CONFIGURATION DIFF REPORT";
   lit "                    Generated: " ++ now;
   bar;
   [];
   lit "SUMMARY:";
   dashes;
   lit "  Old Configuration Lines: " ++ of_nat (length oldLines);
   lit "  New Configuration Lines: " ++ of_nat (length newLines);
   lit "  Line Difference: " ++ of_Z (Z.of_nat (length newLines) - Z.of_nat (length oldLines));
   []]
  ++ addedSection (added changes)
  ++ removedSection (removed changes)
  ++ modifiedSection (modified changes)
  ++ [bar;
      lit "CHANGE STATISTICS:";
      dashes;
      lit "  Lines Added:    " ++ of_nat (length (added changes));
      lit "  Lines Removed:  " ++ of_nat (length (removed changes));
      lit "  Lines Modified: " ++ of_nat (length (modified changes));
      lit "  Total Changes:  "
        ++ of_nat (length (added changes) + length (removed changes) + length (modified changes));
      bar].

(** The text written to the report file by [generateDiffReport]. *)
Definition reportText (now oldContent newContent : str) : str :=
  join [nl] (reportLines now oldContent newContent).

End Diff.

Import Diff.

(* ========================================================================= *)
(** * Effects: a state and exception monad *)
(* ========================================================================= *)

Module Eff.

(** A thrown [Error]: its [message] and, for system errors, its [code]. *)
Record error := mkError {
  message : str;
  code : option str
}.

Inductive result (A : Type) : Type :=
| Ok (a : A)
| Throw (e : error).
Arguments Ok {A} a.
Arguments Throw {A} e.

(** A computation over a state [S]: the state survives a [throw], as the file
    system does. *)
Definition M (S A : Type) : Type := S -> result A * S.

Definition ret {S A} (a : A) : M S A := fun s => (Ok a, s).

Definition bind {S A B} (m : M S A) (k : A -> M S B) : M S B :=
  fun s =>
    match m s with
    | (Ok a, s') => k a s'
    | (Throw e, s') => (Throw e, s')
    end.

Definition throw {S A} (e : error) : M S A := fun s => (Throw e, s).

(** [try { m } catch (e) { h e }] *)
Definition try_catch {S A} (m : M S A) (h : error -> M S A) : M S A :=
  fun s =>
    match m s with
    | (Ok a, s') => (Ok a, s')
    | (Throw e, s') => h e s'
    end.

Definition get {S} : M S S := fun s => (Ok s, s).
Definition modify {S} (f : S -> S) : M S unit := fun s => (Ok tt, f s).

End Eff.

Import Eff.

Notation "'do' x <- m ;; k" := (bind m (fun x => k))
  (at level 10, x name, m at level 99, k at level 200).
Notation "'run' m ;; k" := (bind m (fun _ => k))
  (at level 10, m at level 99, k at level 200).

(* ========================================================================= *)
(** * Paths (POSIX flavour of Node's [path]) *)
(* ========================================================================= *)

Module Path.

Abbreviation path := (list N).
Definition slash : N := 47%N.

(** The scan of [path.dirname] from the end: the index of the last slash that
    is followed by a name, looking at indices [>= 1] only.  [s] is the path
    reversed, [i] the index of its head. *)
Fixpoint dirname_scan (s : str) (i : nat) (matchedSlash : bool) : option nat :=
  match s, i with
  | _, O => None
  | [], _ => None
  | c :: s', S i' =>
      if (c =? slash)%N then
        if matchedSlash then dirname_scan s' i' true else Some i
      else dirname_scan s' i' false
  end.

(** [path.dirname(p)] *)
Definition dirname (p : path) : path :=
  match p with
  | [] => lit "."
  | c0 :: _ =>
      let hasRoot := (c0 =? slash)%N in
      match dirname_scan (rev p) (length p - 1) true with
      | None => if hasRoot then lit "/" else lit "."
      | Some e => if hasRoot && bool_decide (e = 1) then lit "//" else take e p
      end
  end.

(** [normalizeString]: the segments, with [.] and empty segments dropped and
    [..] resolved; [acc] is the result so far, reversed. *)
Fixpoint normalize_segments (allowAboveRoot : bool) (segs : list str) (acc : list str)
    : list str :=
  match segs with
  | [] => rev acc
  | seg :: segs' =>
      if bool_decide (seg = []) || eqb seg (lit ".") then
        normalize_segments allowAboveRoot segs' acc
      else if eqb seg (lit "..") then
        match acc with
        | top :: acc' =>
            if eqb top (lit "..") then normalize_segments allowAboveRoot segs' (seg :: acc)
            else normalize_segments allowAboveRoot segs' acc'
        | [] =>
            if allowAboveRoot then normalize_segments allowAboveRoot segs' [seg]
            else normalize_segments allowAboveRoot segs' []
        end
      else normalize_segments allowAboveRoot segs' (seg :: acc)
  end.

(** [path.normalize(p)] *)
Definition normalize (p : path) : path :=
  match p with
  | [] => lit "."
  | c0 :: _ =>
      let isAbsolute := (c0 =? slash)%N in
      let trailingSeparator := endsWith [slash] p in
      let body := join [slash] (normalize_segments (negb isAbsolute) (split slash p) []) in
      match body with
      | [] => if isAbsolute then lit "/" else if trailingSeparator then lit "./" else lit "."
      | _ =>
          let body := if trailingSeparator then body ++ [slash] else body in
          if isAbsolute then slash :: body else body
      end
  end.

(** [path.join(...parts)] *)
Definition join_path (parts : list path) : path :=
  match List.filter (fun a => negb (bool_decide (a = []))) parts with
  | [] => lit "."
  | nonempty => normalize (join [slash] nonempty)
  end.

End Path.

Import Path.

(* ========================================================================= *)
(** * The merge pipeline over the file system *)
(* ========================================================================= *)

Module Sys.

(** The world seen by [configMerger.mjs]: the regular files by path, and the
    number of clock readings taken so far.  Directories are implicit: a
    directory exists when a file lies under it, and writing a file creates
    its parents, so [fs.ensureDir] changes nothing.  Log lines pushed on
    [logs] are not part of the model. *)
Record world := mkWorld {
  files : gmap path str;
  ticks : nat
}.

(** The result object of a merge, with the fields the tools fill in. *)
Record MergeResult := mkMergeResult {
  r_merged : bool;
  r_fallback : bool;
  r_error : option str;
  r_backupPath : option path;
  r_userSettings : option nat;
  r_virtualHosts : option nat;
  r_diffReport : option path;
  r_vaptConfig : option path;
  r_stoppedServices : option (list str)
}.

Inductive ItemType := TMerge | TCopyFile | TCopyDir.

(** An entry of [preserveItems]. *)
Record PreserveItem := mkItem {
  i_type : ItemType;
  i_path : path;
  i_critical : bool
}.

(** The collaborators outside the two modelled files: the clock, the
    library calls whose behaviour the code relies on, and the merges of the
    other tools. *)
Class Ext := mkExt {
  (** the successive values of [new Date().toISOString()] *)
  clock : nat -> str;
  (** [s.toLowerCase()] *)
  toLowerCase : str -> str;
  (** [fs.copy(src, dest, { overwrite: true })] *)
  copy : path -> path -> M world unit;
  (** [detectAndStopServices(toolType, installPath, logs, sessionId)] *)
  detectAndStopServices : str -> path -> M world (list str);
  (** [mergeTomcatConfig(old, new, output, logs, sessionId)] *)
  mergeTomcatConfig : path -> path -> path -> M world MergeResult;
  (** [mergeJDKConfig(old, new, certFolderPath, keystorePassword, ...)] *)
  mergeJDKConfig : path -> path -> M world MergeResult;
  (** the direct copy branch of the preservation loop *)
  copyItem : PreserveItem -> path -> path -> M world unit;
  (** the certificate files copied after the loop *)
  preserveCertificates : path -> path -> M world nat
}.

Definition enoent (p : path) : error :=
  mkError (lit "ENOENT: no such file or directory, open '" ++ p ++ lit "'")
          (Some (lit "ENOENT")).

(** [fs.readFile(p, 'utf8')] *)
Definition readFile (p : path) : M world str :=
  fun w =>
    match files w !! p with
    | Some c => (Ok c, w)
    | None => (Throw (enoent p), w)
    end.

(** [fs.writeFile(p, content, 'utf8')] *)
Definition writeFile (p : path) (content : str) : M world unit :=
  modify (fun w => mkWorld (<[p := content]> (files w)) (ticks w)).

(** [fs.ensureDir(p)] *)
Definition ensureDir (p : path) : M world unit := ret tt.

(** [fs.pathExists(p)]: a file, or a directory with a file under it. *)
Definition pathExists (p : path) : M world bool :=
  fun w =>
    (Ok (bool_decide (is_Some (files w !! p))
         || existsb (fun kv => startsWith (p ++ [slash]) (fst kv)) (map_to_list (files w))),
     w).

Section WithExt.
Context {E : Ext}.

(** [new Date().toISOString()] *)
Definition now : M world str :=
  fun w => (Ok (clock (ticks w)), mkWorld (files w) (S (ticks w))).

(** [generateDiffReport(oldContent, newContent, reportPath, logs)] *)
Definition generateDiffReport (oldContent newContent : str) (reportPath : path)
    : M world unit :=
  do t <- now ;;
  writeFile reportPath (reportText t oldContent newContent).

(** [mergeApacheConfig(oldConfPath, newConfPath, outputPath, logs, sessionId)] *)
Definition mergeApacheConfig (oldConfPath newConfPath outputPath : path)
    : M world MergeResult :=
  do oldContent <- readFile oldConfPath ;;
  do newContent <- readFile newConfPath ;;
  let oldConfig := parseApacheConfig oldContent in
  let newConfig := parseApacheConfig newContent in
  let userCustomizations := extractApacheUserSettings oldConfig in
  let mergedConfig := mergeApacheSettings newConfig userCustomizations in
  do t <- now ;;
  let mergedContent := buildApacheConfig t mergedConfig in
  let vaptPath :=
    join_path [dirname outputPath; lit "conf"; lit "extra"; lit "httpd-security-vapt.conf"] in
  run ensureDir (dirname vaptPath) ;;
  run writeFile vaptPath APACHE_VAPT_CONFIG ;;
  let finalContent := appendInclude mergedContent in
  run writeFile outputPath finalContent ;;
  run generateDiffReport oldContent finalContent (outputPath ++ lit ".diff.txt") ;;
  ret (mkMergeResult true false None None
         (Some (length (u_directives userCustomizations)))
         (Some (length (u_virtualHosts userCustomizations)))
         (Some (outputPath ++ lit ".diff.txt"))
         (Some vaptPath)
         None).

Definition withStoppedServices (r : MergeResult) (stopped : list str) : MergeResult :=
  mkMergeResult (r_merged r) (r_fallback r) (r_error r) (r_backupPath r)
    (r_userSettings r) (r_virtualHosts r) (r_diffReport r) (r_vaptConfig r)
    (Some stopped).

(** The [try] block of [smartMergeConfiguration]. *)
Definition smartMerge_try (toolType : str) (oldConfigPath newConfigPath outputPath : path)
    : M world MergeResult :=
  let toolLower := toLowerCase toolType in
  do stoppedServices <- detectAndStopServices toolType oldConfigPath ;;
  do result <-
    (if includes (lit "httpd") toolLower || includes (lit "apache") toolLower then
       mergeApacheConfig oldConfigPath newConfigPath outputPath
     else if includes (lit "tomcat") toolLower || includes (lit "tomee") toolLower then
       mergeTomcatConfig oldConfigPath newConfigPath outputPath
     else if includes (lit "jdk") toolLower || includes (lit "java") toolLower then
       mergeJDKConfig oldConfigPath newConfigPath
     else
       throw (mkError (lit "Unsupported tool type: " ++ toolType) None)) ;;
  ret (withStoppedServices result stoppedServices).

(** The fallback of the [catch] block: copy the new file, keep the old one
    as a sidecar; when that fails too, the first error is thrown again. *)
Definition smartMerge_fallback (oldConfigPath newConfigPath outputPath : path)
    (err : error) : M world MergeResult :=
  try_catch
    (run copy newConfigPath outputPath ;;
     run copy oldConfigPath (outputPath ++ lit ".old-backup") ;;
     ret (mkMergeResult false true (Some (message err))
            (Some (outputPath ++ lit ".old-backup")) None None None None None))
    (fun fallbackError => throw err).

(** [smartMergeConfiguration(toolType, oldConfigPath, newConfigPath,
    outputPath, logs, sessionId, options)] *)
Definition smartMergeConfiguration (toolType : str)
    (oldConfigPath newConfigPath outputPath : path) : M world MergeResult :=
  try_catch
    (smartMerge_try toolType oldConfigPath newConfigPath outputPath)
    (smartMerge_fallback oldConfigPath newConfigPath outputPath).

(** [preserveItems] of [comprehensivePreserveHTTPD_SECURE] *)
Definition httpdPreserveItems : list PreserveItem :=
  [mkItem TMerge (lit "conf/httpd.conf") true;
   mkItem TMerge (lit "conf/3dx.conf") false;
   mkItem TCopyDir (lit "conf/SSL") true;
   mkItem TCopyDir (lit "htdocs") true;
   mkItem TCopyDir (lit "conf/extra") true;
   mkItem TCopyDir (lit "logs") false].

(** The counters [preservedCount], [mergedCount], [skippedCount]. *)
Record Counts := mkCounts {
  preservedCount : nat;
  mergedCount : nat;
  skippedCount : nat
}.

(** [error.code || error.message] *)
Definition codeOrMessage (e : error) : str :=
  match code e with
  | Some c => if bool_decide (c = []) then message e else c
  | None => message e
  end.

(** The body of the [for] loop of [comprehensivePreserveHTTPD_SECURE] for
    one item: it returns the counters, or throws for a critical item. *)
Definition preserveItem (oldHttpd newHttpd : path) (counts : Counts) (item : PreserveItem)
    : M world Counts :=
  let sourcePath := join_path [oldHttpd; i_path item] in
  let targetPath := join_path [newHttpd; i_path item] in
  try_catch
    (do present <- pathExists sourcePath ;;
     if negb present then
       ret (mkCounts (preservedCount counts) (mergedCount counts) (S (skippedCount counts)))
     else
       match i_type item with
       | TMerge =>
           do mergeResult <- smartMergeConfiguration (lit "httpd") sourcePath targetPath targetPath ;;
           if r_merged mergeResult then
             ret (mkCounts (preservedCount counts) (S (mergedCount counts)) (skippedCount counts))
           else
             ret (mkCounts (S (preservedCount counts)) (mergedCount counts) (skippedCount counts))
       | TCopyFile | TCopyDir =>
           run copyItem item sourcePath targetPath ;;
           ret (mkCounts (S (preservedCount counts)) (mergedCount counts) (skippedCount counts))
       end)
    (fun err =>
       if i_critical item then
         throw (mkError (lit "Failed to preserve critical item: " ++ i_path item
                         ++ lit " (" ++ codeOrMessage err ++ lit ")") None)
       else
         ret (mkCounts (preservedCount counts) (mergedCount counts) (S (skippedCount counts)))).

Fixpoint preserveItems_loop (oldHttpd newHttpd : path) (items : list PreserveItem)
    (counts : Counts) : M world Counts :=
  match items with
  | [] => ret counts
  | item :: items' =>
      do counts' <- preserveItem oldHttpd newHttpd counts item ;;
      preserveItems_loop oldHttpd newHttpd items' counts'
  end.

(** [comprehensivePreserveHTTPD_SECURE(oldHttpd, newHttpd, logs, sessionId)];
    the counters are what its summary reports. *)
Definition comprehensivePreserveHTTPD_SECURE (oldHttpd newHttpd : path) : M world Counts :=
  do counts <- preserveItems_loop oldHttpd newHttpd httpdPreserveItems (mkCounts 0 0 0) ;;
  do certs <- preserveCertificates oldHttpd newHttpd ;;
  ret (mkCounts (preservedCount counts + certs) (mergedCount counts) (skippedCount counts)).

End WithExt.

(** ** A concrete instance, for running the model *)

(** Lower-casing of the ASCII letters. *)
Definition asciiLower (s : str) : str :=
  List.map (fun c => if ((65 <=? c) && (c <=? 90))%N then (c + 32)%N else c) s.

(** A file copy that fails when the source is missing. *)
Definition fileCopy (src dest : path) : M world unit :=
  do content <- readFile src ;;
  writeFile dest content.

(** The external collaborators of the runs below: a fixed clock, no service
    to stop, and no data directory to copy. *)
Definition simpleExt : Ext :=
  mkExt (fun n => lit "2025-01-01T00:00:0" ++ of_nat n ++ lit ".000Z")
        asciiLower
        fileCopy
        (fun _ _ => ret [])
        (fun _ _ _ => throw (mkError (lit "not modelled") None))
        (fun _ _ => throw (mkError (lit "not modelled") None))
        (fun _ _ _ => ret tt)
        (fun _ _ => ret 0).

(** The result object returned after a successful fallback. *)
Definition fallbackResult (err : error) (outputPath : path) : MergeResult :=
  mkMergeResult false true (Some (message err)) (Some (outputPath ++ lit ".old-backup"))
    None None None None None.

(** An old installation with a main configuration file, and a new version
    that ships none at that path. *)
Definition missingNewWorld : world :=
  mkWorld (<[lit "/old/conf/httpd.conf" := lit "Listen 8080"]> ∅) 0.

(** Two configuration files of a tool the merge has no case for. *)
Definition otherToolWorld : world :=
  mkWorld (<[lit "/old/nginx.conf" := lit "listen 8080;"]>
            (<[lit "/new/nginx.conf" := lit "listen 80;"]> ∅)) 0.

End Sys.

Import Sys.

(* ========================================================================= *)
(** * The upgrade route of [server.mjs] *)
(* ========================================================================= *)

Module Upgrade.

(** The calls the route makes to the outside, in the order it makes them. *)
Inductive Event :=
| EvAccessTest (target : path)
| EvBackup (src backupRoot : path)
| EvEnsureDir (p : path)
| EvStat (p : path)
| EvExtractZip (archive dest : path)
| EvExtractTar (archive dest : path)
| EvReaddir (p : path)
| EvLaterPhases (root : path)
| EvPathExists (p : path)
| EvRestoreFromFolder (backup target : path)
| EvRestoreFromZip (zip target : path)
| EvRemove (p : path).

#[export] Instance Event_eq_dec : EqDecision Event.
Proof. solve_decision. Defined.

(** [req.file] *)
Record UploadedFile := mkUploadedFile {
  f_path : path;
  f_originalname : str
}.

(** The parsed [req.body.config]. *)
Record UpgradeConfig := mkUpgradeConfig {
  toolType : str;
  existingPath : path;
  backupPath : path;
  preserveConfig : bool;
  preserveData : bool
}.

Record Request := mkRequest {
  req_config : option UpgradeConfig;
  req_file : option UploadedFile
}.

(** The JSON answer: the HTTP status, [success], [error], [backupPath]. *)
Record Response := mkResponse {
  status : nat;
  success : bool;
  resp_error : option str;
  resp_backupPath : option path
}.

(** [{ accessible, error }] of [testPathAccess]. *)
Record AccessResult := mkAccessResult {
  accessible : bool;
  access_error : str
}.

(** The operations of the route on the outside world, the installation, the
    backup area and the upload area as the operating system holds them;
    each may fail. *)
Record Os (World : Type) := mkOs {
  testPathAccess : path -> World -> AccessResult * World;
  backupWithStructure : path -> path -> str -> M World path;
  os_ensureDir : path -> M World unit;
  os_stat : path -> M World unit;
  extractZip : path -> path -> M World unit;
  extractTar : path -> path -> M World unit;
  os_readdir : path -> M World unit;
  (** root folder detection, preservation, replacement, backup compression
      and cleanup: the phases after the extraction *)
  laterPhases : UpgradeConfig -> path -> path -> path -> M World unit;
  os_pathExists : path -> World -> bool * World;
  (** [useRobocopy] on Windows, [fs.copy] elsewhere *)
  restoreFromFolder : path -> path -> M World unit;
  restoreFromZip : path -> path -> M World unit;
  os_remove : path -> M World unit;
  (** [toolType.replace(/[^\w]+/g, '') + '_' + now()] *)
  tempName : str -> World -> str
}.

Arguments testPathAccess {World}.
Arguments backupWithStructure {World}.
Arguments os_ensureDir {World}.
Arguments os_stat {World}.
Arguments extractZip {World}.
Arguments extractTar {World}.
Arguments os_readdir {World}.
Arguments laterPhases {World}.
Arguments os_pathExists {World}.
Arguments restoreFromFolder {World}.
Arguments restoreFromZip {World}.
Arguments os_remove {World}.
Arguments tempName {World}.

(** The state of one request: the world, the calls made so far, and the
    three locals the [catch] block reads. *)
Record state (World : Type) := mkState {
  outside : World;
  trace : list Event;
  tempDir : path;
  backupFolder : path;
  uploadedFilePath : path
}.

Arguments mkState {World}.
Arguments outside {World}.
Arguments trace {World}.
Arguments tempDir {World}.
Arguments backupFolder {World}.
Arguments uploadedFilePath {World}.

Definition unsupportedMessage (originalName : str) : str :=
  lit "Unsupported archive format. Only .zip, .tar, .tar.gz, .tgz allowed. Got: " ++ originalName.

Section Route.

Context {World : Type} (os : Os World).

Definition call {A} (ev : Event) (op : M World A) : M (state World) A :=
  fun st =>
    let '(r, w) := op (outside st) in
    (r, mkState w (trace st ++ [ev]) (tempDir st) (backupFolder st) (uploadedFilePath st)).

Definition call_total {A} (ev : Event) (op : World -> A * World) : M (state World) A :=
  call ev (fun w => let '(a, w') := op w in (Ok a, w')).

Definition set_tempDir (p : path) : M (state World) unit :=
  modify (fun st => mkState (outside st) (trace st) p (backupFolder st) (uploadedFilePath st)).
Definition set_backupFolder (p : path) : M (state World) unit :=
  modify (fun st => mkState (outside st) (trace st) (tempDir st) p (uploadedFilePath st)).
Definition set_uploadedFilePath (p : path) : M (state World) unit :=
  modify (fun st => mkState (outside st) (trace st) (tempDir st) (backupFolder st) p).

(** [extractArchive(archivePath, originalName, extractTo, logs, sessionId)];
    its [catch] logs the error and throws it again. *)
Definition extractArchive (archivePath : path) (originalName : str) (extractTo : path)
    : M (state World) unit :=
  try_catch
    (run call (EvStat archivePath) (os_stat os archivePath) ;;
     run call (EvEnsureDir extractTo) (os_ensureDir os extractTo) ;;
     run (if endsWith (lit ".zip") originalName then
            call (EvExtractZip archivePath extractTo) (extractZip os archivePath extractTo)
          else if endsWith (lit ".tar.gz") originalName || endsWith (lit ".tgz") originalName then
            call (EvExtractTar archivePath extractTo) (extractTar os archivePath extractTo)
          else if endsWith (lit ".tar") originalName then
            call (EvExtractTar archivePath extractTo) (extractTar os archivePath extractTo)
          else
            throw (mkError (unsupportedMessage originalName) None)) ;;
     call (EvReaddir extractTo) (os_readdir os extractTo))
    (fun err => throw err).

Definition accessMessage (target : path) (reason : str) : str :=
  lit "Cannot access " ++ target ++ lit ": " ++ reason
  ++ lit ". Ensure no programs are using this folder and you have write permissions.".

(** The [try] block of the route. *)
Definition upgrade_try (cfg : UpgradeConfig) (file : option UploadedFile)
    : M (state World) Response :=
  match file with
  | None =>
      throw (mkError (lit "Cannot read properties of undefined (reading 'path')") None)
  | Some f =>
      run set_uploadedFilePath (f_path f) ;;
      do accessTest <- call_total (EvAccessTest (existingPath cfg))
                         (testPathAccess os (existingPath cfg)) ;;
      if negb (accessible accessTest) then
        throw (mkError (accessMessage (existingPath cfg) (access_error accessTest)) None)
      else
        do folder <- call (EvBackup (existingPath cfg) (backupPath cfg))
                       (backupWithStructure os (existingPath cfg) (backupPath cfg) (toolType cfg)) ;;
        run set_backupFolder folder ;;
        do st <- get ;;
        let dir := join_path [lit "tempupgrade"; tempName os (toolType cfg) (outside st)] in
        run set_tempDir dir ;;
        run call (EvEnsureDir dir) (os_ensureDir os dir) ;;
        run extractArchive (f_path f) (f_originalname f) dir ;;
        run call (EvLaterPhases dir) (laterPhases os cfg dir folder (f_path f)) ;;
        ret (mkResponse 200 true None (Some (folder ++ lit ".zip")))
  end.

(** The rollback of the [catch] block; its own failure is only logged. *)
Definition rollback (cfg : UpgradeConfig) : M (state World) unit :=
  try_catch
    (do st <- get ;;
     let folder := backupFolder st in
     if bool_decide (folder = []) then ret tt
     else
       do present <- call_total (EvPathExists folder) (os_pathExists os folder) ;;
       if present then
         call (EvRestoreFromFolder folder (existingPath cfg))
           (restoreFromFolder os folder (existingPath cfg))
       else
         do zipped <- call_total (EvPathExists (folder ++ lit ".zip"))
                        (os_pathExists os (folder ++ lit ".zip")) ;;
         if zipped then
           call (EvRestoreFromZip (folder ++ lit ".zip") (existingPath cfg))
             (restoreFromZip os (folder ++ lit ".zip") (existingPath cfg))
         else ret tt)
    (fun rollbackErr => ret tt).

Definition remove_if_present (p : path) : M (state World) unit :=
  if bool_decide (p = []) then ret tt
  else
    do present <- call_total (EvPathExists p) (os_pathExists os p) ;;
    if present then call (EvRemove p) (os_remove os p) else ret tt.

(** The cleanup of the [catch] block; failures are silent. *)
Definition cleanup : M (state World) unit :=
  try_catch
    (do st <- get ;;
     run remove_if_present (tempDir st) ;;
     remove_if_present (uploadedFilePath st))
    (fun cleanupErr => ret tt).

(** [app.post('/api/upgrade', ...)]: the answer and the final state.  Both
    handlers of the [catch] block swallow their own errors, so the route
    always answers. *)
Definition upgrade (req : Request) (w : World) : Response * state World :=
  let st0 := mkState w [] [] [] [] in
  match req_config req with
  | None =>
      (mkResponse 400 false (Some (lit "Missing config parameter in request body")) None, st0)
  | Some cfg =>
      match upgrade_try cfg (req_file req) st0 with
      | (Ok resp, st) => (resp, st)
      | (Throw e, st) =>
          let '(_, st1) := rollback cfg st in
          let '(_, st2) := cleanup st1 in
          (mkResponse 500 false (Some (message e)) None, st2)
      end
  end.

End Route.

(** ** An operating system on which every operation succeeds *)

Definition allGood : Os unit :=
  mkOs unit
    (fun _ w => (mkAccessResult true [], w))
    (fun _ root tool => ret (join_path [root; tool ++ lit "_20250101000000"]))
    (fun _ => ret tt) (fun _ => ret tt) (fun _ _ => ret tt) (fun _ _ => ret tt)
    (fun _ => ret tt) (fun _ _ _ _ => ret tt)
    (fun _ w => (true, w))
    (fun _ _ => ret tt) (fun _ _ => ret tt) (fun _ => ret tt)
    (fun tool _ => tool ++ lit "_20250101000000").

(** Scenario 5: an [httpd] upgrade whose uploaded archive is a [.rar]. *)
Definition rarRequest : Request :=
  mkRequest
    (Some (mkUpgradeConfig (lit "httpd") (lit "/opt/httpd") (lit "/backup") true true))
    (Some (mkUploadedFile (lit "uploads/3f2a") (lit "httpd-2.4.62.rar"))).

(** An archive name the extraction accepts. *)
Definition supportedName (originalName : str) : bool :=
  endsWith (lit ".zip") originalName
  || endsWith (lit ".tar.gz") originalName || endsWith (lit ".tgz") originalName
  || endsWith (lit ".tar") originalName.

(** An event of the extraction proper or of the later phases. *)
Definition isExtraction (ev : Event) : bool :=
  match ev with
  | EvExtractZip _ _ | EvExtractTar _ _ | EvReaddir _ | EvLaterPhases _ => true
  | _ => false
  end.

(** The rollback has run on the backup [folder]: it has looked for the
    folder and then restored the target from it or, when the folder is gone,
    looked for its archive. *)
Definition rollbackRan (cfg : UpgradeConfig) (folder : path) (evs : list Event) : Prop :=
  exists pre post,
    evs = pre ++ EvPathExists folder :: post
    /\ (head post = Some (EvRestoreFromFolder folder (existingPath cfg))
        \/ head post = Some (EvPathExists (folder ++ lit ".zip"))).

(** A trace without any event of the extraction or of the later phases. *)
Definition quiet (evs : list Event) : Prop := Forall (fun ev => isExtraction ev = false) evs.

End Upgrade.

Import Upgrade.

(* ========================================================================= *)
(** * JavaScript objects on a heap *)
(* ========================================================================= *)

Module Heap.

Abbreviation loc := positive.

(** A JavaScript value: a primitive or a reference to an object. *)
Inductive val :=
| VUndef
| VNull
| VNum (z : Z)
| VStr (s : str)
| VRef (l : loc).

#[export] Instance val_eq_dec : EqDecision val.
Proof. solve_decision. Defined.

(** An object: a plain object with its properties in insertion order, or an
    array with its elements and its named properties. *)
Inductive obj :=
| Obj (props : list (str * val))
| Arr (elems : list val) (props : list (str * val)).

#[export] Instance obj_eq_dec : EqDecision obj.
Proof. solve_decision. Defined.

Abbreviation heap := (gmap positive obj).

Definition typeError (msg : string) : error := mkError (lit msg) None.

(** [a === b] *)
Definition strictEq (a b : val) : bool := bool_decide (a = b).

(** Truthiness. *)
Definition truthy (v : val) : bool :=
  match v with
  | VUndef | VNull => false
  | VNum z => negb (bool_decide (z = 0%Z))
  | VStr s => negb (bool_decide (s = []))
  | VRef _ => true
  end.

(** [a || b] *)
Definition orElse (a b : val) : val := if truthy a then a else b.

Fixpoint assoc (k : str) (props : list (str * val)) : val :=
  match props with
  | [] => VUndef
  | (k', v) :: rest => if eqb k' k then v else assoc k rest
  end.

(** Assignment to a property: in place when the key exists, else appended. *)
Fixpoint assoc_set (k : str) (v : val) (props : list (str * val)) : list (str * val) :=
  match props with
  | [] => [(k, v)]
  | (k', v') :: rest => if eqb k' k then (k', v) :: rest else (k', v') :: assoc_set k v rest
  end.

Definition alloc (o : obj) : M heap val :=
  fun h => let l := fresh (dom h) in (Ok (VRef l), <[l := o]> h).

(** [v[k]] for a property name [k] that is neither an index nor [length]. *)
Definition getProp (v : val) (k : str) : M heap val :=
  fun h =>
    match v with
    | VUndef | VNull => (Throw (typeError "Cannot read properties of undefined"), h)
    | VNum _ | VStr _ => (Ok VUndef, h)
    | VRef l =>
        match h !! l with
        | Some (Obj props) => (Ok (assoc k props), h)
        | Some (Arr _ props) => (Ok (assoc k props), h)
        | None => (Throw (typeError "dangling reference"), h)
        end
    end.

(** [v?.[k]] *)
Definition getPropOpt (v : val) (k : str) : M heap val :=
  match v with
  | VUndef | VNull => ret VUndef
  | _ => getProp v k
  end.

(** [v[k] = x] in strict mode, for a property name as in [getProp]. *)
Definition setProp (v : val) (k : str) (x : val) : M heap unit :=
  fun h =>
    match v with
    | VUndef | VNull => (Throw (typeError "Cannot set properties of undefined"), h)
    | VNum _ | VStr _ => (Throw (typeError "Cannot create property on primitive"), h)
    | VRef l =>
        match h !! l with
        | Some (Obj props) => (Ok tt, <[l := Obj (assoc_set k x props)]> h)
        | Some (Arr elems props) => (Ok tt, <[l := Arr elems (assoc_set k x props)]> h)
        | None => (Throw (typeError "dangling reference"), h)
        end
    end.

(** [Array.isArray(v)] *)
Definition isArray (v : val) : M heap bool :=
  fun h =>
    match v with
    | VRef l => match h !! l with Some (Arr _ _) => (Ok true, h) | _ => (Ok false, h) end
    | _ => (Ok false, h)
    end.

(** The elements of an array, for the array methods: a value that is not an
    array has no such method. *)
Definition elemsOf (v : val) : M heap (list val) :=
  fun h =>
    match v with
    | VRef l =>
        match h !! l with
        | Some (Arr elems _) => (Ok elems, h)
        | _ => (Throw (typeError "is not a function"), h)
        end
    | VUndef | VNull => (Throw (typeError "Cannot read properties of undefined"), h)
    | _ => (Throw (typeError "is not a function"), h)
    end.

(** [arr.length] of an array *)
Definition lengthOf (v : val) : M heap nat :=
  do elems <- elemsOf v ;; ret (length elems).

(** [arr[i]] of an array *)
Definition getIndex (v : val) (i : nat) : M heap val :=
  do elems <- elemsOf v ;; ret (default VUndef (elems !! i)).

(** [arr[i] = x] for an index inside the array *)
Definition setIndex (v : val) (i : nat) (x : val) : M heap unit :=
  fun h =>
    match v with
    | VRef l =>
        match h !! l with
        | Some (Arr elems props) => (Ok tt, <[l := Arr (<[i := x]> elems) props]> h)
        | _ => (Throw (typeError "not an array"), h)
        end
    | _ => (Throw (typeError "not an array"), h)
    end.

(** [arr.push(...xs)] *)
Definition push (v : val) (xs : list val) : M heap unit :=
  fun h =>
    match v with
    | VRef l =>
        match h !! l with
        | Some (Arr elems props) => (Ok tt, <[l := Arr (elems ++ xs) props]> h)
        | _ => (Throw (typeError "push is not a function"), h)
        end
    | VUndef | VNull => (Throw (typeError "Cannot read properties of undefined"), h)
    | _ => (Throw (typeError "push is not a function"), h)
    end.

(** The iteration of [forEach]: the length is read once, every element is
    read from the array as it is when its turn comes, and an index the
    array no longer has is skipped. *)
Fixpoint forEach_from (v : val) (f : val -> M heap unit) (n : nat) (k : nat) : M heap unit :=
  match n with
  | O => ret tt
  | S n' =>
      do elems <- elemsOf v ;;
      run match elems !! k with
          | Some x => f x
          | None => ret tt
          end ;;
      forEach_from v f n' (S k)
  end.

(** [arr.forEach(f)] *)
Definition forEach (v : val) (f : val -> M heap unit) : M heap unit :=
  do n <- lengthOf v ;; forEach_from v f n 0.

(** [list.findIndex(p)] over a snapshot, for a predicate that only reads. *)
Fixpoint findIndex_list (p : val -> M heap bool) (l : list val) (k : nat) : M heap (option nat) :=
  match l with
  | [] => ret None
  | x :: l' =>
      do b <- p x ;;
      if b then ret (Some k) else findIndex_list p l' (S k)
  end.

(** [arr.findIndex(p)]; [None] is [-1]. *)
Definition findIndexH (v : val) (p : val -> M heap bool) : M heap (option nat) :=
  do elems <- elemsOf v ;; findIndex_list p elems 0.

Fixpoint some_list (p : val -> M heap bool) (l : list val) : M heap bool :=
  match l with
  | [] => ret false
  | x :: l' =>
      do b <- p x ;;
      if b then ret true else some_list p l'
  end.

(** [arr.some(p)], for a predicate that only reads. *)
Definition some (v : val) (p : val -> M heap bool) : M heap bool :=
  do elems <- elemsOf v ;; some_list p elems.

(** The own enumerable properties of a value, as a spread or
    [Object.assign] reads them. *)
Definition ownProps (v : val) : M heap (list (str * val)) :=
  fun h =>
    match v with
    | VRef l =>
        match h !! l with
        | Some (Obj props) => (Ok props, h)
        | Some (Arr elems props) => (Ok (imap (fun i x => (of_nat i, x)) elems ++ props), h)
        | None => (Throw (typeError "dangling reference"), h)
        end
    | VStr s => (Ok (imap (fun i c => (of_nat i, VStr [c])) s), h)
    | _ => (Ok [], h)
    end.

Fixpoint setProps (target : val) (props : list (str * val)) : M heap unit :=
  match props with
  | [] => ret tt
  | (k, x) :: rest => run setProp target k x ;; setProps target rest
  end.

(** [Object.assign(target, source)] for a literal [source]: a primitive
    target is wrapped and the wrapper is dropped. *)
Definition assign (target : val) (source : list (str * val)) : M heap unit :=
  match target with
  | VUndef | VNull => throw (typeError "Cannot convert undefined or null to object")
  | VNum _ | VStr _ => ret tt
  | VRef _ => setProps target source
  end.

(** The properties of a copied object: each value is copied by [f], a
    property whose value is [undefined] is left out. *)
Fixpoint cloneProps (f : val -> M heap val) (ps : list (str * val))
    : M heap (list (str * val)) :=
  match ps with
  | [] => ret []
  | (k, x) :: rest =>
      match x with
      | VUndef => cloneProps f rest
      | _ => do x' <- f x ;; do rest' <- cloneProps f rest ;; ret ((k, x') :: rest')
      end
  end.

(** The elements of a copied array: [undefined] becomes [null]. *)
Fixpoint cloneElems (f : val -> M heap val) (es : list val) : M heap (list val) :=
  match es with
  | [] => ret []
  | x :: rest =>
      do x' <- (match x with VUndef => ret VNull | _ => f x end) ;;
      do rest' <- cloneElems f rest ;;
      ret (x' :: rest')
  end.

(** The deep copy of [JSON.parse(JSON.stringify(v))] below the top level:
    named properties of arrays are dropped, and a cycle is a [TypeError].
    A path longer than [fuel] is taken for a cycle. *)
Fixpoint clone (fuel : nat) (v : val) : M heap val :=
  match v with
  | VRef l =>
      match fuel with
      | O => throw (typeError "Converting circular structure to JSON")
      | S fuel' =>
          fun h =>
            match h !! l with
            | Some (Obj props) =>
                (do props' <- cloneProps (clone fuel') props ;; alloc (Obj props')) h
            | Some (Arr elems _) =>
                (do elems' <- cloneElems (clone fuel') elems ;; alloc (Arr elems' [])) h
            | None => (Throw (typeError "dangling reference"), h)
            end
      end
  | _ => ret v
  end.

(** [JSON.parse(JSON.stringify(v))]: no acyclic path is longer than the
    number of objects. *)
Definition json_cloneH (v : val) : M heap val :=
  match v with
  | VUndef => throw (mkError (lit "undefined is not valid JSON") None)
  | _ => fun h => clone (S (size h)) v h
  end.

(** ** Vocabulary for the frame properties *)

(** The values an object holds. *)
Definition obj_vals (o : obj) : list val :=
  match o with
  | Obj ps => List.map snd ps
  | Arr es ps => es ++ List.map snd ps
  end.

(** A value made between the heaps [h] and [h']: a primitive, or a
    reference to an object that [h] does not have and [h'] has. *)
Definition val_new (h h' : gmap positive obj) (v : val) : Prop :=
  match v with
  | VRef a => h !! a = None /\ is_Some (h' !! a)
  | _ => True
  end.

(** What a copying function must satisfy. *)
Definition copies (f : val -> M (gmap positive obj) val) : Prop :=
  forall x h r h', f x h = (r, h') -> h ⊆ h' /\ forall x', r = Ok x' -> val_new h h' x'.

(** The parts of a copied object are new, and none is the object itself. *)
Definition new_object (h h' : gmap positive obj) (m : positive) : Prop :=
  exists o, h' !! m = Some o /\ Forall (fun c => val_new h h' c /\ c <> VRef m) (obj_vals o).

(** A value that may be written through without touching the heap [h0] or
    the object [merged] itself. *)
Definition target_ok (h0 : gmap positive obj) (merged : val) (t : val) : Prop :=
  match t with
  | VRef a => h0 !! a = None /\ merged <> VRef a
  | _ => True
  end.

(** A computation that keeps a property of the heap, whatever its outcome. *)
Definition preserves {A} (I : gmap positive obj -> Prop) (c : M (gmap positive obj) A) : Prop :=
  forall h r h', I h -> c h = (r, h') -> I h'.

(** A computation that only reads. *)
Definition reads {A} (c : M (gmap positive obj) A) : Prop :=
  forall h r h', c h = (r, h') -> h' = h.

(** The state of the directive-format merge: the caller's heap [h0] is
    untouched, and the merged document, when it is an object, is a new one
    all of whose parts are new. *)
Definition merged_inv (h0 : gmap positive obj) (merged : val) (h : gmap positive obj) : Prop :=
  h0 ⊆ h /\
  match merged with
  | VRef m => h0 !! m = None
              /\ exists o, h !! m = Some o /\ Forall (target_ok h0 merged) (obj_vals o)
  | _ => True
  end.

End Heap.

Import Heap.

(* ========================================================================= *)
(** * The directive-format merge on heap objects *)
(* ========================================================================= *)

Module ApacheHeap.

(** [APACHE_SECURITY_DIRECTIVES.includes(v)] *)
Definition isSecurityName (v : val) : bool :=
  match v with
  | VStr s => arr_includes APACHE_SECURITY_DIRECTIVES s
  | _ => false
  end.

(** The callback of [userCustomizations.directives.forEach]. *)
Definition mergeDirectiveH (merged : val) (userDir : val) : M heap unit :=
  do name <- getProp userDir (lit "name") ;;
  if isSecurityName name then ret tt
  else
    do mdirs <- getProp merged (lit "directives") ;;
    do existingIndex <- findIndexH mdirs
                       (fun d => do n <- getProp d (lit "name") ;; ret (strictEq n name)) ;;
    match existingIndex with
    | Some i => setIndex mdirs i userDir
    | None => push mdirs [userDir]
    end.

(** [merged[field].push(...userCustomizations[field])] *)
Definition pushAllH (merged userCustomizations : val) (field : str) : M heap unit :=
  do target <- getProp merged field ;;
  do source <- getProp userCustomizations field ;;
  do _ <- elemsOf target ;;
  do xs <- elemsOf source ;;
  push target xs.

(** [mergeApacheSettings(newConfig, userCustomizations, logs)] on the
    objects themselves: [newConfig] and [userCustomizations] are references
    into the caller's heap. *)
Definition mergeApacheSettingsH (newConfig userCustomizations : val) : M heap val :=
  do merged <- json_cloneH newConfig ;;
  do udirs <- getProp userCustomizations (lit "directives") ;;
  run forEach udirs (mergeDirectiveH merged) ;;
  run pushAllH merged userCustomizations (lit "virtualHosts") ;;
  run pushAllH merged userCustomizations (lit "directories") ;;
  run pushAllH merged userCustomizations (lit "modules") ;;
  ret merged.

(** ** A run: the parsed new document [Listen 80] and the user settings
    [Listen 8080] with one VirtualHost block, as objects *)

Definition strv (s : string) : val := VStr (lit s).

Definition directiveHeap : gmap positive obj :=
  list_to_map
    [(1%positive, Obj [(lit "directives", VRef 2); (lit "modules", VRef 3);
                       (lit "virtualHosts", VRef 4); (lit "directories", VRef 5);
                       (lit "ifModules", VRef 6)]);
     (2%positive, Arr [VRef 7] []);
     (3%positive, Arr [] []);
     (4%positive, Arr [] []);
     (5%positive, Arr [] []);
     (6%positive, Arr [] []);
     (7%positive, Obj [(lit "name", strv "Listen"); (lit "value", strv "80");
                       (lit "fullLine", strv "Listen 80"); (lit "lineNum", VNum 1)]);
     (10%positive, Obj [(lit "directives", VRef 11); (lit "virtualHosts", VRef 12);
                        (lit "directories", VRef 13); (lit "modules", VRef 14)]);
     (11%positive, Arr [VRef 15] []);
     (12%positive, Arr [VRef 16] []);
     (13%positive, Arr [] []);
     (14%positive, Arr [] []);
     (15%positive, Obj [(lit "name", strv "Listen"); (lit "value", strv "8080");
                        (lit "fullLine", strv "Listen 8080"); (lit "lineNum", VNum 1)]);
     (16%positive, Obj [(lit "content", strv "<VirtualHost *:443></VirtualHost>");
                        (lit "lines", VRef 17); (lit "startIndex", VNum 1);
                        (lit "endIndex", VNum 1)]);
     (17%positive, Arr [strv "<VirtualHost *:443></VirtualHost>"] [])].

End ApacheHeap.

Import ApacheHeap.

(* ========================================================================= *)
(** * Tomcat: user settings and inline hardening on the parsed XML *)
(* ========================================================================= *)

Module Tomcat.

Definition attr (k v : string) : str * val := (lit k, VStr (lit v)).

(** [TOMCAT_VAPT_SETTINGS.server]: the literal names ['@_port'] twice, the
    later value stands at the first position.  [shutdownSuffix] is the
    random part, drawn once when the module is loaded. *)
Definition VAPT_server (shutdownSuffix : str) : list (str * val) :=
  [attr "@_port" "-1";
   (lit "@_shutdown", VStr (lit "SHUTDOWN_" ++ shutdownSuffix))].

(** [TOMCAT_VAPT_SETTINGS.connector] *)
Definition VAPT_connector : list (str * val) :=
  [attr "@_maxThreads" "150";
   attr "@_minSpareThreads" "25";
   attr "@_connectionTimeout" "20000";
   attr "@_maxHttpHeaderSize" "8192";
   attr "@_maxParameterCount" "1000";
   attr "@_compression" "on";
   attr "@_compressionMinSize" "2048";
   attr "@_server" "Apache";
   attr "@_xpoweredBy" "false";
   attr "@_SSLEnabled" "true";
   attr "@_sslProtocol" "TLS";
   attr "@_sslEnabledProtocols" "TLSv1.2,TLSv1.3";
   attr "@_ciphers" "TLS_ECDHE_RSA_WITH_AES_128_GCM_SHA256,TLS_ECDHE_RSA_WITH_AES_256_GCM_SHA384";
   attr "@_SSLHonorCipherOrder" "true";
   attr "@_URIEncoding" "UTF-8";
   attr "@_useBodyEncodingForURI" "true";
   attr "@_allowTrace" "false";
   attr "@_maxPostSize" "2097152";
   attr "@_maxSavePostSize" "4096";
   attr "@_secure" "true";
   attr "@_scheme" "https"].

(** [TOMCAT_VAPT_SETTINGS.valve]: one object, shared by every host it is
    pushed to. *)
Definition VAPT_valve : obj :=
  Obj [attr "@_className" "org.apache.catalina.valves.ErrorReportValve";
       attr "@_showReport" "false";
       attr "@_showServerInfo" "false"].

(** The arrays of [settings] in [extractTomcatUserSettings]: they are
    created by that call and only their elements reach a document. *)
Record UserSettings := mkUserSettings {
  s_connectors : list val;
  s_hosts : list val;
  s_contexts : list val;
  s_resources : list val;
  s_valves : list val
}.

Definition push_connector (c : val) : M UserSettings unit :=
  modify (fun s => mkUserSettings (s_connectors s ++ [c]) (s_hosts s) (s_contexts s)
                     (s_resources s) (s_valves s)).
Definition push_host (c : val) : M UserSettings unit :=
  modify (fun s => mkUserSettings (s_connectors s) (s_hosts s ++ [c]) (s_contexts s)
                     (s_resources s) (s_valves s)).
Definition push_context (c : val) : M UserSettings unit :=
  modify (fun s => mkUserSettings (s_connectors s) (s_hosts s) (s_contexts s ++ [c])
                     (s_resources s) (s_valves s)).
Definition push_resources (cs : list val) : M UserSettings unit :=
  modify (fun s => mkUserSettings (s_connectors s) (s_hosts s) (s_contexts s)
                     (s_resources s ++ cs) (s_valves s)).

(** [Array.isArray(v) ? v : [v]], read as a list. *)
Definition asList (v : val) : M heap (list val) :=
  do isA <- isArray v ;;
  if isA then elemsOf v else ret [v].

Section Extract.

(** The heap the old document lives in: the extraction only reads it. *)
Variable h : heap.

Definition rd {A} (m : M heap A) : M UserSettings A := fun s => (fst (m h), s).

Fixpoint iter {A} (l : list A) (f : A -> M UserSettings unit) : M UserSettings unit :=
  match l with
  | [] => ret tt
  | x :: l' => run f x ;; iter l' f
  end.

Definition isDefaultPort (port : val) : bool :=
  match port with
  | VStr p => arr_includes (List.map lit ["8080"; "8009"; "8005"; "8443"]%string) p
  | _ => false
  end.

Definition extractConnector (conn : val) : M UserSettings unit :=
  do port <- rd (getProp conn (lit "@_port")) ;;
  do sslEnabled <- rd (getProp conn (lit "@_SSLEnabled")) ;;
  do secure <- rd (getProp conn (lit "@_secure")) ;;
  do protocol <- rd (getProp conn (lit "@_protocol")) ;;
  let isSSL := strictEq sslEnabled (VStr (lit "true")) || strictEq secure (VStr (lit "true")) in
  let isCustomPort := truthy port && negb (isDefaultPort port) in
  if isSSL || isCustomPort || truthy protocol then push_connector conn else ret tt.

Definition extractContext (ctx : val) : M UserSettings unit :=
  run push_context ctx ;;
  do _ <- rd (getProp ctx (lit "@_path")) ;;
  ret tt.

Definition extractHost (host : val) : M UserSettings unit :=
  do name <- rd (getProp host (lit "@_name")) ;;
  run (if truthy name && negb (strictEq name (VStr (lit "localhost")))
   then push_host host else ret tt) ;;
  do context <- rd (getProp host (lit "Context")) ;;
  if truthy context then
    do contexts <- rd (asList context) ;;
    iter contexts extractContext
  else ret tt.

Definition extractService (service : val) : M UserSettings unit :=
  do connector <- rd (getProp service (lit "Connector")) ;;
  run (if truthy connector then
     do connectors <- rd (asList connector) ;;
     iter connectors extractConnector
   else ret tt) ;;
  do engine <- rd (getProp service (lit "Engine")) ;;
  do host <- rd (getPropOpt engine (lit "Host")) ;;
  run (if truthy host then
     do hosts <- rd (asList host) ;;
     iter hosts extractHost
   else ret tt) ;;
  do context <- rd (getPropOpt host (lit "Context")) ;;
  do resource <- rd (getPropOpt context (lit "Resource")) ;;
  if truthy resource then
    do resources <- rd (asList resource) ;;
    push_resources resources
  else ret tt.

(** [extractTomcatUserSettings(config, logs)]: the [catch] only logs, what
    was collected before an error is returned. *)
Definition extractTomcatUserSettings (config : val) : UserSettings :=
  snd (try_catch
         (do server <- rd (getProp config (lit "Server")) ;;
          if negb (truthy server) then ret tt
          else
            do svc <- rd (getProp server (lit "Service")) ;;
            do services <- rd (asList svc) ;;
            iter services extractService)
         (fun _ => ret tt)
         (mkUserSettings [] [] [] [] [])).

End Extract.

Fixpoint iterH {A} (l : list A) (f : A -> M heap unit) : M heap unit :=
  match l with
  | [] => ret tt
  | x :: l' => run f x ;; iterH l' f
  end.

(** [if (!o[k]) o[k] = []; else if (!Array.isArray(o[k])) o[k] = [o[k]]] *)
Definition normalizeArray (o : val) (k : str) : M heap unit :=
  do cur <- getProp o k ;;
  if negb (truthy cur) then
    do a <- alloc (Arr [] []) ;; setProp o k a
  else
    do isA <- isArray cur ;;
    if negb isA then do a <- alloc (Arr [cur] []) ;; setProp o k a
    else ret tt.

(** The callback over [userSettings.connectors]. *)
Definition applyConnector (service : val) (userConn : val) : M heap unit :=
  do port <- getProp userConn (lit "@_port") ;;
  do arr <- getProp service (lit "Connector") ;;
  do existingIdx <- findIndexH arr
                   (fun c => do p <- getProp c (lit "@_port") ;; ret (strictEq p port)) ;;
  match existingIdx with
  | Some i =>
      do target <- getProp service (lit "Connector") ;;
      do spread <- ownProps userConn ;;
      do existing <- getIndex target i ;;
      do e_ssl <- getProp existing (lit "@_sslProtocol") ;;
      do u_ssl <- getProp userConn (lit "@_sslProtocol") ;;
      do e_ciphers <- getProp existing (lit "@_ciphers") ;;
      do u_ciphers <- getProp userConn (lit "@_ciphers") ;;
      do fresh_conn <- alloc (Obj (assoc_set (lit "@_ciphers") (orElse e_ciphers u_ciphers)
                                 (assoc_set (lit "@_sslProtocol") (orElse e_ssl u_ssl) spread))) ;;
      setIndex target i fresh_conn
  | None =>
      do target <- getProp service (lit "Connector") ;;
      push target [userConn]
  end.

(** The callback over [userSettings.hosts]. *)
Definition applyHost (service : val) (userHost : val) : M heap unit :=
  do name <- getProp userHost (lit "@_name") ;;
  do engine <- getProp service (lit "Engine") ;;
  do arr <- getProp engine (lit "Host") ;;
  do existingIdx <- findIndexH arr
                   (fun c => do n <- getProp c (lit "@_name") ;; ret (strictEq n name)) ;;
  match existingIdx with
  | Some _ => ret tt
  | None =>
      do engine <- getProp service (lit "Engine") ;;
      do target <- getProp engine (lit "Host") ;;
      push target [userHost]
  end.

(** [server.Service] or its first element. *)
Definition firstService (server : val) : M heap val :=
  do svc <- getProp server (lit "Service") ;;
  do isA <- isArray svc ;;
  if isA then getIndex svc 0 else ret svc.

(** [applyTomcatUserSettings(newConfig, userSettings, logs)]: it works on
    [newConfig] itself. *)
Definition applyTomcatUserSettings (newConfig : val) (userSettings : UserSettings)
    : M heap unit :=
  try_catch
    (do server <- getProp newConfig (lit "Server") ;;
     do svc <- getPropOpt server (lit "Service") ;;
     if negb (truthy svc) then ret tt
     else
       do service <- firstService server ;;
       run (if bool_decide (0 < length (s_connectors userSettings)) then
          run normalizeArray service (lit "Connector") ;;
          iterH (s_connectors userSettings) (applyConnector service)
        else ret tt) ;;
       (if bool_decide (0 < length (s_hosts userSettings)) then
          do engine <- getProp service (lit "Engine") ;;
          if truthy engine then
            run normalizeArray engine (lit "Host") ;;
            iterH (s_hosts userSettings) (applyHost service)
          else ret tt
        else ret tt))
    (fun _ => ret tt).

(** [v['@_className']?.includes('ErrorReportValve')], as a condition. *)
Definition isErrorReportValve (v : val) : M heap bool :=
  do className <- getProp v (lit "@_className") ;;
  match className with
  | VUndef | VNull => ret false
  | VStr s => ret (includes (lit "ErrorReportValve") s)
  | VNum _ => throw (typeError "includes is not a function")
  | VRef _ =>
      do isA <- isArray className ;;
      if isA then
        do elems <- elemsOf className ;;
        ret (bool_decide (VStr (lit "ErrorReportValve") ∈ elems))
      else throw (typeError "includes is not a function")
  end.

Section Vapt.

(** The random part of the shutdown command, and the shared valve object
    of [TOMCAT_VAPT_SETTINGS]. *)
Variable shutdownSuffix : str.
Variable valveRef : val.

(** The callback over the hosts. *)
Definition hardenHost (host : val) : M heap unit :=
  run normalizeArray host (lit "Valve") ;;
  do valves <- getProp host (lit "Valve") ;;
  do hasErrorValve <- some valves isErrorReportValve ;;
  if negb hasErrorValve then
    do valves <- getProp host (lit "Valve") ;;
    push valves [valveRef]
  else ret tt.

(** [Array.isArray(v) ? v : [v]], as an array object. *)
Definition asArray (v : val) : M heap val :=
  do isA <- isArray v ;;
  if isA then ret v else alloc (Arr [v] []).

(** [applyTomcatVAPT(config, logs)] *)
Definition applyTomcatVAPT (config : val) : M heap unit :=
  try_catch
    (do server <- getProp config (lit "Server") ;;
     if negb (truthy server) then ret tt
     else
       run assign server (VAPT_server shutdownSuffix) ;;
       do service <- firstService server ;;
       if negb (truthy service) then ret tt
       else
         do connector <- getProp service (lit "Connector") ;;
         run (if truthy connector then
            do connectors <- asArray connector ;;
            forEach connectors (fun conn => assign conn VAPT_connector)
          else ret tt) ;;
         do engine <- getProp service (lit "Engine") ;;
         do host <- getPropOpt engine (lit "Host") ;;
         if truthy host then
           do hosts <- asArray host ;;
           forEach hosts hardenHost
         else ret tt)
    (fun _ => ret tt).

(** The in-memory part of [mergeTomcatConfig]: between parsing the two
    files and building the output. *)
Definition mergeTomcatDocuments (oldConfig newConfig : val) : M heap unit :=
  fun h =>
    let userSettings := extractTomcatUserSettings h oldConfig in
    (run applyTomcatUserSettings newConfig userSettings ;;
     applyTomcatVAPT newConfig) h.

End Vapt.

(** ** A run: an old document with an SSL connector on port 9443, a new
    document with a connector on port 8080 *)

Definition exampleHeap : gmap positive obj :=
  list_to_map
    [(1%positive, Obj [(lit "Server", VRef 2)]);
     (2%positive, Obj [(lit "Service", VRef 3)]);
     (3%positive, Obj [(lit "Connector", VRef 4)]);
     (4%positive, Obj [attr "@_port" "9443"; attr "@_SSLEnabled" "true"]);
     (5%positive, Obj [(lit "Server", VRef 6)]);
     (6%positive, Obj [attr "@_port" "8005"; attr "@_shutdown" "SHUTDOWN";
                       (lit "Service", VRef 7)]);
     (7%positive, Obj [(lit "Connector", VRef 8)]);
     (8%positive, Obj [attr "@_port" "8080"]);
     (9%positive, VAPT_valve)].

Definition exampleOld : val := VRef 1.
Definition exampleNew : val := VRef 5.

(** The heap after the in-memory merge. *)
Definition exampleAfter : gmap positive obj :=
  snd (mergeTomcatDocuments (lit "k3x9q") (VRef 9) exampleOld exampleNew exampleHeap).

(** ** A run of the hardening alone: a new document with one connector and
    one host without valve *)

Definition hostHeap : gmap positive obj :=
  list_to_map
    [(1%positive, Obj [(lit "Server", VRef 2)]);
     (2%positive, Obj [attr "@_port" "8005"; (lit "Service", VRef 3)]);
     (3%positive, Obj [(lit "Connector", VRef 4); (lit "Engine", VRef 5)]);
     (4%positive, Arr [VRef 6] []);
     (5%positive, Obj [(lit "Host", VRef 7)]);
     (6%positive, Obj [attr "@_port" "8080"]);
     (7%positive, Arr [VRef 8] []);
     (8%positive, Obj [attr "@_name" "localhost"]);
     (9%positive, VAPT_valve)].

Definition hardenedOnce : gmap positive obj :=
  snd (applyTomcatVAPT (lit "k3x9q") (VRef 9) (VRef 1) hostHeap).

Definition hardenedTwice : gmap positive obj :=
  snd (applyTomcatVAPT (lit "k3x9q") (VRef 9) (VRef 1) hardenedOnce).

End Tomcat.

Import Tomcat.

(* ========================================================================= *)
(** * What the server reads: the effective value of a directive *)
(* ========================================================================= *)

Module Effective.

(** The directives httpd reads from a main configuration text: the
    directives of the text in order, an [Include] directive being replaced
    by the directives of the file it names when [resolve] finds that file.
    This is the reading of ``effective value'' used for Scenario 1: for a
    directive given several times, the last one read is in force. *)
Definition loadedDirectives (resolve : str -> option str) (main : str)
    : list Directive :=
  concat (List.map
    (fun d => if eqb (d_name d) (lit "Include") then
                match resolve (d_value d) with
                | Some included => directives (parseApacheConfig included)
                | None => []
                end
              else [d])
    (directives (parseApacheConfig main))).

Definition effectiveValue (resolve : str -> option str) (main : str) (name : str)
    : option str :=
  d_value <$> last (List.filter (fun d => eqb (d_name d) name) (loadedDirectives resolve main)).

(** Relative paths of [Include] are taken from the server root. *)
Definition resolveFrom (serverRoot : path) (w : world) (p : str) : option str :=
  files w !! join_path [serverRoot; p].

(** The name and the value of every directive of a text. *)
Definition settings (text : str) : list (str * str) :=
  List.map (fun d => (d_name d, d_value d)) (directives (parseApacheConfig text)).

(** ** Scenario 1 *)

Definition scenario1_old : str :=
  lit "ServerName old.example.com" ++ [nl] ++ lit "Listen 8080".

Definition scenario1_new : str :=
  lit "ServerName default" ++ [nl] ++ lit "Listen 80" ++ [nl] ++ lit "ServerTokens Full".

(** The installation before the preservation step: the old tree under
    [/old], the extracted new version under [/new]. *)
Definition scenario1_world : world :=
  mkWorld (<[lit "/old/conf/httpd.conf" := scenario1_old]>
            (<[lit "/new/conf/httpd.conf" := scenario1_new]> ∅)) 0.

(** The first entry of [preserveItems]: the main configuration file. *)
Definition httpdConfItem : PreserveItem := mkItem TMerge (lit "conf/httpd.conf") true.

(** The world after the preservation step has merged [conf/httpd.conf]. *)
Definition scenario1_after : world :=
  snd (preserveItem (E := simpleExt) (lit "/old") (lit "/new") (mkCounts 0 0 0)
         httpdConfItem scenario1_world).

(** ** The merge run again on its own output *)

(** The world after a second merge whose new configuration is the file the
    first merge wrote. *)
Definition scenario1_rerun : world :=
  snd (mergeApacheConfig (E := simpleExt) (lit "/old/conf/httpd.conf")
         (lit "/new/conf/httpd.conf") (lit "/new/conf/httpd.conf") scenario1_after).

(** The number of lines of a text that are the [Include] line. *)
Definition includeCount (text : str) : nat :=
  length (List.filter (fun l => eqb l INCLUDE_LINE) (split nl text)).

End Effective.

Import Effective.

(* ========================================================================= *)
(** * Helpers of [server.mjs]: names, root folder detection, rate limiting *)
(* ========================================================================= *)

Module Server.

(** The characters removed by [.replace(/[-:T.]/g, '')]. *)
Definition isStampSeparator (c : N) : bool := bool_decide (c ∈ [45; 58; 84; 46]%N).

(** [now()] for the value [iso] of [new Date().toISOString()]:
    [iso.replace(/[-:T.]/g, '').slice(0, 14)]. *)
Definition stampOf (iso : str) : str :=
  take 14 (List.filter (fun c => negb (isStampSeparator c)) iso).

Section WithExt.
Context {E : Ext}.

(** [now()] *)
Definition now : M world str :=
  do iso <- Sys.now ;; ret (stampOf iso).

End WithExt.

(** A character matched by [\w]. *)
Definition isWord (c : N) : bool :=
  ((48 <=? c) && (c <=? 57) || (65 <=? c) && (c <=? 90) || (c =? 95)
   || (97 <=? c) && (c <=? 122))%N.

(** [toolType.replace(/[^\w]+/g, '')] *)
Definition toolSanitized (toolType : str) : str := List.filter isWord toolType.

(** The name given to the backup folder and to the extraction directory:
    [`${toolSanitized}_${stamp}`]. *)
Definition stampedName (toolType stamp : str) : str :=
  toolSanitized toolType ++ lit "_" ++ stamp.

(** [backupFolder] of [backupWithStructure]:
    [path.join(userBackupRoot, `${toolSanitized}_${stamp}`)]. *)
Definition backupFolderPath (userBackupRoot : path) (toolType stamp : str) : path :=
  join_path [userBackupRoot; stampedName toolType stamp].

(** [tempDir] of the route:
    [path.join('tempupgrade', toolType.replace(/[^\w]+/g, '') + '_' + now())]. *)
Definition tempDirPath (toolType stamp : str) : path :=
  join_path [lit "tempupgrade"; stampedName toolType stamp].

(** The scan of [path.basename] from the end of the path: [s] is the part
    of the path not yet visited, reversed, so that the index of its head is
    [length s - 1].  The result is [start] and [end], [None] standing for
    [-1]. *)
Fixpoint basename_scan (s : str) (matchedSlash : bool) (end_ : option nat)
    : nat * option nat :=
  match s with
  | [] => (0, end_)
  | c :: s' =>
      if (c =? slash)%N then
        if negb matchedSlash then (length s, end_)
        else basename_scan s' matchedSlash end_
      else
        match end_ with
        | None => basename_scan s' false (Some (length s))
        | Some _ => basename_scan s' matchedSlash end_
        end
  end.

(** [path.basename(p)] *)
Definition basename (p : path) : str :=
  match basename_scan (rev p) true None with
  | (_, None) => []
  | (start, Some e) => take (e - start) (drop start p)
  end.

(** An entry of the extraction directory: its name as [fs.readdir] lists it
    and the outcome of [fs.stat] on it, [isDirectory()] or the error. *)
Abbreviation entry := (str * result bool)%type.

(** The first loop of [findRootFolder]: a directory named like the target
    installation folder. *)
Fixpoint findNested (extractDir : path) (targetFolderName : str) (items : list entry)
    : result (option path) :=
  match items with
  | [] => Ok None
  | (item, st) :: rest =>
      match st with
      | Throw e => Throw e
      | Ok isDirectory =>
          if isDirectory && eqb item targetFolderName
          then Ok (Some (join_path [extractDir; item]))
          else findNested extractDir targetFolderName rest
      end
  end.

(** The second loop: [directories], as [{ name, path }]. *)
Fixpoint collectDirectories (extractDir : path) (items : list entry)
    : result (list (str * path)) :=
  match items with
  | [] => Ok []
  | (item, st) :: rest =>
      match st with
      | Throw e => Throw e
      | Ok isDirectory =>
          match collectDirectories extractDir rest with
          | Throw e => Throw e
          | Ok directories =>
              Ok (if isDirectory then (item, join_path [extractDir; item]) :: directories
                  else directories)
          end
      end
  end.

(** [findRootFolder(extractDir, toolType, existingPath, logs, sessionId)]
    on the listing [items] of [extractDir]. *)
Definition findRootFolder (extractDir existingPath : path) (items : list entry)
    : result path :=
  let targetFolderName := basename existingPath in
  match findNested extractDir targetFolderName items with
  | Throw e => Throw e
  | Ok (Some nestedFolderPath) => Ok nestedFolderPath
  | Ok None =>
      match collectDirectories extractDir items with
      | Throw e => Throw e
      | Ok [d] => Ok (snd d)
      | Ok _ => Ok extractDir
      end
  end.

(** The names of the directories of a listing. *)
Definition directoryNames (items : list entry) : list str :=
  omap (fun it => match snd it with Ok true => Some (fst it) | _ => None end) items.

(** Every [fs.stat] of the listing succeeds. *)
Definition statsOk (items : list entry) : Prop :=
  Forall (fun it => exists b, snd it = Ok b) items.

(** The text appended to [httpd.conf] by [installModEvasive]. *)
Definition MOD_EVASIVE_CONFIG : str :=
  [nl] ++ [nl] ++ lit "# Rate Limiting - VAPT Fix #7" ++ [nl]
  ++ lit "LoadModule evasive_module modules/mod_evasive.so" ++ [nl]
  ++ lit "<IfModule mod_evasive.c>" ++ [nl]
  ++ lit "  DOSEnabled true" ++ [nl]
  ++ lit "  DOSHashTableSize 3097" ++ [nl]
  ++ lit "  DOSPageCount 2" ++ [nl]
  ++ lit "  DOSSiteCount 50" ++ [nl]
  ++ lit "  DOSPageInterval 1" ++ [nl]
  ++ lit "  DOSSiteInterval 1" ++ [nl]
  ++ lit "  DOSBlockingPeriod 10" ++ [nl]
  ++ lit "</IfModule>" ++ [nl].

(** [installModEvasive(apachePath, logs, sessionId)] *)
Definition installModEvasive (apachePath : path) : M world unit :=
  let httpdConfPath := join_path [apachePath; lit "conf"; lit "httpd.conf"] in
  do httpdConf <- readFile httpdConfPath ;;
  if negb (includes (lit "mod_evasive") httpdConf) then
    writeFile httpdConfPath (httpdConf ++ MOD_EVASIVE_CONFIG)
  else ret tt.

(** An operating system on which the target folder is held open by
    another program, and every other operation succeeds. *)
Definition lockedTarget : Os unit :=
  mkOs unit
    (fun _ w => (mkAccessResult false (lit "EBUSY: resource busy or locked"), w))
    (fun _ root tool => ret (join_path [root; tool ++ lit "_20250101000000"]))
    (fun _ => ret tt) (fun _ => ret tt) (fun _ _ => ret tt) (fun _ _ => ret tt)
    (fun _ => ret tt) (fun _ _ _ _ => ret tt)
    (fun _ w => (true, w))
    (fun _ _ => ret tt) (fun _ _ => ret tt) (fun _ => ret tt)
    (fun tool _ => tool ++ lit "_20250101000000").

End Server.

(* ========================================================================= *)
(** * The Tomcat merge on files *)
(* ========================================================================= *)

Module TomcatFile.

(** The error of evaluating a name that is bound nowhere. *)
Definition referenceError (name : string) : error :=
  mkError (lit name ++ lit " is not defined") None.

(** [logStep(...)] inside [configMerger.mjs]: the module defines no
    [logStep] and imports none (the function of that name is local to
    [server.mjs]), so the call throws a [ReferenceError]. *)
Definition logStep {S : Type} : M S unit := throw (referenceError "logStep").

(** The lines appended to [emxSystem.properties]. *)
Definition XSS_FILTER_TEXT : str :=
  [nl] ++ [nl] ++ lit "# XSS Protection - VAPT Fix #3" ++ [nl]
  ++ lit "emxFramework.InputFilter.BadChars=<|>|" ++ [dq] ++ lit "|'|%|;|)|(|&|+|-" ++ [nl]
  ++ lit "emxFramework.InputFilter.BadRegE=(?is)prog(ram)?\\s*\\[.*\\]|(?is)exec(ute)?\\s*\\[.*\\]|(?is)eval.*\\(|(?s)" ++ [dq] ++ lit ".*\\*|(?s)'.*\\*|(?is)[file://ssrc(/s*)=|(%3fi)(%3c/s*)(/*)script|(%3fis)(%3c/s*)(meta)/s.*content(/s*)=|(%3fi)javascript/s*:|/*%5b/s/S%5d*%3f/*/|(?is)%3c!--|(?is)--%3e|(?is)/s+on%5ba-z%5d+/s*=|(?i)/x%5ba-f0-9%5d%7b2%7d|(?i)/u00%5ba-f0-9%5d%7b2%7d|(?fs)%22/s*/)/s*;|(?fs)'/s*/)/s*]" ++ [nl].

(** The lines appended to [emxComponents.properties]. *)
Definition UPLOAD_FILTER_TEXT : str :=
  [nl] ++ [nl] ++ lit "# File Upload Security - VAPT Fix #6" ++ [nl]
  ++ lit "emxComponents.Commondocument.SupportedFormats=docx,xlsx,pdf,jpg,png,txt,avi,mp4,flv,gif" ++ [nl]
  ++ lit "emxComponents.Commondocument.RestrictedFormats=exe,htm,html,php,bin,pl,vbs,RAR,ZIP,CAB,ARJ,LZH,TAR,GZip,UUE,ISO,BZIP2,Z,7-Zip" ++ [nl].

(** [apply3DSpaceVAPT(tomeeConfigPath, logs, sessionId)] *)
Definition apply3DSpaceVAPT (tomeeConfigPath : path) : M world unit :=
  run logStep ;;
  run logStep ;;
  run logStep ;;
  let emxSystemPath :=
    join_path [dirname tomeeConfigPath; lit ".."; lit "webapps"; lit "3dspace";
               lit "WEB-INF"; lit "classes"; lit "emxSystem.properties"] in
  do present <- pathExists emxSystemPath ;;
  run (if present then
         do content <- readFile emxSystemPath ;;
         if negb (includes (lit "emxFramework.InputFilter.BadChars") content) then
           run writeFile emxSystemPath (content ++ XSS_FILTER_TEXT) ;;
           logStep
         else ret tt
       else ret tt) ;;
  let emxCompPath :=
    join_path [dirname tomeeConfigPath; lit ".."; lit "webapps"; lit "3dspace";
               lit "WEB-INF"; lit "classes"; lit "emxComponents.properties"] in
  do present <- pathExists emxCompPath ;;
  run (if present then
         do content <- readFile emxCompPath ;;
         if negb (includes (lit "emxComponents.Commondocument.SupportedFormats") content) then
           run writeFile emxCompPath (content ++ UPLOAD_FILTER_TEXT) ;;
           logStep
         else ret tt
       else ret tt) ;;
  logStep.

(** The result object of [mergeTomcatConfig]. *)
Record TomcatResult := mkTomcatResult {
  t_merged : bool;
  t_connectors : nat;
  t_hosts : nat;
  t_vaptApplied : bool;
  t_diffReport : path
}.

(** The first lines of the merged file. *)
Definition XML_DECLARATION : str :=
  lit "<?xml version=" ++ [dq] ++ lit "1.0" ++ [dq] ++ lit " encoding=" ++ [dq] ++ lit "UTF-8" ++ [dq] ++ lit "?>" ++ [nl].

Definition MERGED_COMMENT : str :=
  lit "<!-- Tomcat Configuration - Merged with VAPT Security Hardening -->" ++ [nl].

(** A computation on the files, and one on the objects, as parts of a
    computation on both. *)
Definition onFiles {A} (m : M world A) : M (world * heap) A :=
  fun s => let '(r, w') := m (fst s) in (r, (w', snd s)).

Definition onHeap {A} (m : M heap A) : M (world * heap) A :=
  fun s => let '(r, h') := m (snd s) in (r, (fst s, h')).

Section Merge.

Context {E : Ext}.

(** [parser.parse(xml)] builds the document in the heap;
    [builder.build(config)] reads it. *)
Variable parse : str -> M heap val.
Variable build : val -> M heap str.

(** The random part of the shutdown command and the valve object of
    [TOMCAT_VAPT_SETTINGS]. *)
Variable shutdownSuffix : str.
Variable valveRef : val.

(** [mergeTomcatConfig(oldXmlPath, newXmlPath, outputPath, logs, sessionId)] *)
Definition mergeTomcatConfig (oldXmlPath newXmlPath outputPath : path)
    : M (world * heap) TomcatResult :=
  do oldXml <- onFiles (readFile oldXmlPath) ;;
  do newXml <- onFiles (readFile newXmlPath) ;;
  do oldConfig <- onHeap (parse oldXml) ;;
  do newConfig <- onHeap (parse newXml) ;;
  do userSettings <- onHeap (fun h => (Ok (extractTomcatUserSettings h oldConfig), h)) ;;
  run onHeap (applyTomcatUserSettings newConfig userSettings) ;;
  run onHeap (applyTomcatVAPT shutdownSuffix valveRef newConfig) ;;
  run onFiles (apply3DSpaceVAPT outputPath) ;;
  do t <- onFiles Sys.now ;;
  do built <- onHeap (build newConfig) ;;
  let mergedXml :=
    XML_DECLARATION ++ MERGED_COMMENT
    ++ lit "<!-- Generated: " ++ t ++ lit " -->" ++ [nl] ++ built in
  run onFiles (writeFile outputPath mergedXml) ;;
  run onFiles (generateDiffReport oldXml mergedXml (outputPath ++ lit ".diff.txt")) ;;
  ret (mkTomcatResult true (length (s_connectors userSettings))
         (length (s_hosts userSettings)) true (outputPath ++ lit ".diff.txt")).

(** The heap of the module before a merge: the valve object of
    [TOMCAT_VAPT_SETTINGS]. *)
Definition moduleHeap : heap := {[ 1%positive := VAPT_valve ]}.

End Merge.

(** [mergeTomcatConfig] as [smartMergeConfiguration] calls it: on the files,
    with the objects of one call dropped at its end. *)
Definition mergeTomcatOnFiles {E : Ext} (parse : str -> M heap val) (build : val -> M heap str)
    (shutdownSuffix : str) (oldXmlPath newXmlPath outputPath : path)
    : M world MergeResult :=
  fun w =>
    match mergeTomcatConfig parse build shutdownSuffix (VRef 1)
            oldXmlPath newXmlPath outputPath (w, moduleHeap) with
    | (Ok r, s) =>
        (Ok (mkMergeResult (t_merged r) false None None None None
               (Some (t_diffReport r)) None None), fst s)
    | (Throw e, s) => (Throw e, fst s)
    end.

(** The collaborators [E] with the Tomcat merge of this module. *)
Definition withTomcatMerge (E : Ext) (parse : str -> M heap val) (build : val -> M heap str)
    (shutdownSuffix : str) : Ext :=
  mkExt (@clock E) (@toLowerCase E) (@copy E) (@detectAndStopServices E)
    (mergeTomcatOnFiles (E := E) parse build shutdownSuffix)
    (@mergeJDKConfig E) (@copyItem E) (@preserveCertificates E).

End TomcatFile.

(* ========================================================================= *)
(** * The preservation of a TomEE installation *)
(* ========================================================================= *)

Module TomEE.


Section Loop.

Context {E : Ext}.

(** [fs.stat(p)], as [isDirectory()] of its result; [fs.remove(p)];
    [fs.readdir(p)]. *)
Variable stat : path -> M world bool.
Variable remove : path -> M world unit.
Variable readdir : path -> M world (list str).

(** The direct copy of an item that is not merged. *)
Definition directCopy (sourcePath targetPath : path) : M world unit :=
  do isDirectory <- stat sourcePath ;;
  do present <- pathExists targetPath ;;
  run (if present then remove targetPath else ret tt) ;;
  run copy sourcePath targetPath ;;
  if isDirectory then
    do items <- readdir targetPath ;; ret tt
  else ret tt.

(** The body of the [for] loop of [comprehensivePreserveTomEE_SECURE] for
    one item. *)
Definition preserveItem (oldTomEE newTomEE : path) (counts : Counts) (item : PreserveItem)
    : M world Counts :=
  let sourcePath := join_path [oldTomEE; i_path item] in
  let targetPath := join_path [newTomEE; i_path item] in
  try_catch
    (do present <- pathExists sourcePath ;;
     if negb present then
       ret (mkCounts (preservedCount counts) (mergedCount counts) (S (skippedCount counts)))
     else
       match i_type item with
       | TMerge =>
           do mergeResult <- smartMergeConfiguration (lit "tomcat") sourcePath targetPath
                               targetPath ;;
           if r_merged mergeResult then
             ret (mkCounts (preservedCount counts) (S (mergedCount counts)) (skippedCount counts))
           else
             ret (mkCounts (S (preservedCount counts)) (mergedCount counts) (skippedCount counts))
       | TCopyFile | TCopyDir =>
           run directCopy sourcePath targetPath ;;
           ret (mkCounts (S (preservedCount counts)) (mergedCount counts) (skippedCount counts))
       end)
    (fun err =>
       if i_critical item then
         throw (mkError (lit "Failed to preserve critical configuration: " ++ i_path item) None)
       else
         ret (mkCounts (preservedCount counts) (mergedCount counts) (S (skippedCount counts)))).

Fixpoint preserveItems_loop (oldTomEE newTomEE : path) (items : list PreserveItem)
    (counts : Counts) : M world Counts :=
  match items with
  | [] => ret counts
  | item :: items' =>
      do counts' <- preserveItem oldTomEE newTomEE counts item ;;
      preserveItems_loop oldTomEE newTomEE items' counts'
  end.


End Loop.

End TomEE.

(* ========================================================================= *)
(** * The merge and the preservation of a JDK *)
(* ========================================================================= *)

Module Jdk.

(** The lines put before the user's grants. *)
Definition GRANTS_BANNER (now : str) : str :=
  [nl] ++ [nl] ++ lit "// ============================================================================" ++ [nl]
  ++ lit "// User-defined grants from previous JDK installation" ++ [nl]
  ++ lit "// Merged on: " ++ now ++ [nl]
  ++ lit "// ============================================================================" ++ [nl] ++ [nl].

(** [results] of [mergeJDKConfig]; its [errors] stay empty. *)
Record JdkResults := mkJdkResults {
  certificatesImported : nat;
  cacertsCopied : bool;
  policiesMerged : bool
}.

(** The result object as [smartMergeConfiguration] and its callers read it:
    it has none of the fields of the other merges, and no [merged]. *)
Definition asMergeResult (results : JdkResults) : MergeResult :=
  mkMergeResult false false None None None None None None None.

Section Merge.

Context {E : Ext}.

(** [extractJavaUserGrants(content, logs)], and [importCertificates(
    certFolder, jdkPath, password, logs)], which runs [keytool]. *)
Variable extractJavaUserGrants : str -> list str.
Variable importCertificates : path -> path -> M world nat.

(** [mergeJavaSecurityPolicy(oldPolicyPath, newPolicyPath, outputPath, logs,
    sessionId)] *)
Definition mergeJavaSecurityPolicy (oldPolicyPath newPolicyPath outputPath : path)
    : M world bool :=
  do oldContent <- readFile oldPolicyPath ;;
  do newContent <- readFile newPolicyPath ;;
  let userGrants := extractJavaUserGrants oldContent in
  do mergedContent <-
    (if bool_decide (0 < length userGrants) then
       do t <- now ;;
       ret (newContent ++ GRANTS_BANNER t ++ join ([nl] ++ [nl]) userGrants)
     else ret newContent) ;;
  run writeFile outputPath mergedContent ;;
  run generateDiffReport oldContent mergedContent (outputPath ++ lit ".diff.txt") ;;
  ret true.

(** [mergeJDKConfig(oldJdkPath, newJdkPath, certFolderPath, keystorePassword,
    logs, sessionId)]; [None] is an [undefined] folder. *)
Definition mergeJDKConfig (oldJdkPath newJdkPath : path) (certFolderPath : option path)
    : M world JdkResults :=
  do imported <-
    (match certFolderPath with
     | Some folder =>
         if bool_decide (folder = []) then ret 0
         else
           do present <- pathExists folder ;;
           if present then importCertificates folder newJdkPath else ret 0
     | None => ret 0
     end) ;;
  let oldPolicyPath := join_path [oldJdkPath; lit "lib"; lit "security"; lit "java.policy"] in
  let newPolicyPath := join_path [newJdkPath; lit "lib"; lit "security"; lit "java.policy"] in
  do oldPresent <- pathExists oldPolicyPath ;;
  do bothPresent <- (if oldPresent then pathExists newPolicyPath else ret false) ;;
  do merged <-
    (if bothPresent then mergeJavaSecurityPolicy oldPolicyPath newPolicyPath newPolicyPath
     else ret false) ;;
  do copied <-
    (if bool_decide (imported = 0) then
       let oldCacerts := join_path [oldJdkPath; lit "lib"; lit "security"; lit "cacerts"] in
       let newCacerts := join_path [newJdkPath; lit "lib"; lit "security"; lit "cacerts"] in
       do present <- pathExists oldCacerts ;;
       if present then
         run copy oldCacerts (newCacerts ++ lit ".backup") ;;
         run copy oldCacerts newCacerts ;;
         ret true
       else ret false
     else ret false) ;;
  ret (mkJdkResults imported copied merged).

End Merge.

(** The collaborators [E] with the JDK merge of this module, called as
    [smartMergeConfiguration] calls it when it is given no [options]. *)
Definition withJdkMerge (E : Ext) (extractJavaUserGrants : str -> list str)
    (importCertificates : path -> path -> M world nat) : Ext :=
  mkExt (@clock E) (@toLowerCase E) (@copy E) (@detectAndStopServices E)
    (@mergeTomcatConfig E)
    (fun oldConfigPath newConfigPath =>
       do results <- mergeJDKConfig (E := E) extractJavaUserGrants importCertificates
                       oldConfigPath newConfigPath None ;;
       ret (asMergeResult results))
    (@copyItem E) (@preserveCertificates E).

Inductive JdkItemType := JMerge | JCopyFile | JCopyWithBackup | JCopyDir.

(** An entry of [preserveItems]. *)
Record JdkItem := mkJdkItem {
  j_type : JdkItemType;
  j_path : path;
  j_critical : bool
}.

(** [preserveItems] of [comprehensivePreserveJDK_SECURE] *)
Definition jdkPreserveItems : list JdkItem :=
  [mkJdkItem JMerge (lit "lib/security/java.policy") false;
   mkJdkItem JCopyFile (lit "lib/security/cacerts") true;
   mkJdkItem JCopyWithBackup (lit "lib/security/java.security") false;
   mkJdkItem JCopyDir (lit "lib/ext") false;
   mkJdkItem JCopyDir (lit "jre/lib/ext") false].

Section Loop.

Context {E : Ext}.

(** [fs.stat(p)] *)
Variable stat : path -> M world unit.

(** The body of the [for] loop of [comprehensivePreserveJDK_SECURE] for one
    item. *)
Definition preserveItem (oldJdk newJdk : path) (counts : Counts) (item : JdkItem)
    : M world Counts :=
  let sourcePath := join_path [oldJdk; j_path item] in
  let targetPath := join_path [newJdk; j_path item] in
  try_catch
    (do present <- pathExists sourcePath ;;
     if negb present then
       ret (mkCounts (preservedCount counts) (mergedCount counts) (S (skippedCount counts)))
     else
       match j_type item with
       | JMerge =>
           do mergeResult <- smartMergeConfiguration (lit "jdk") sourcePath targetPath
                               targetPath ;;
           if r_merged mergeResult then
             ret (mkCounts (preservedCount counts) (S (mergedCount counts)) (skippedCount counts))
           else
             ret (mkCounts (S (preservedCount counts)) (mergedCount counts) (skippedCount counts))
       | JCopyWithBackup =>
           let backupPath := targetPath ++ lit ".new-version-backup" in
           run copy targetPath backupPath ;;
           run copy sourcePath targetPath ;;
           ret (mkCounts (S (preservedCount counts)) (mergedCount counts) (skippedCount counts))
       | JCopyFile | JCopyDir =>
           run stat sourcePath ;;
           run copy sourcePath targetPath ;;
           ret (mkCounts (S (preservedCount counts)) (mergedCount counts) (skippedCount counts))
       end)
    (fun err =>
       if j_critical item then
         throw (mkError (lit "Failed to preserve critical configuration: " ++ j_path item) None)
       else
         ret (mkCounts (preservedCount counts) (mergedCount counts) (S (skippedCount counts)))).

Fixpoint preserveItems_loop (oldJdk newJdk : path) (items : list JdkItem)
    (counts : Counts) : M world Counts :=
  match items with
  | [] => ret counts
  | item :: items' =>
      do counts' <- preserveItem oldJdk newJdk counts item ;;
      preserveItems_loop oldJdk newJdk items' counts'
  end.

(** [comprehensivePreserveJDK_SECURE(oldJdk, newJdk, logs, sessionId)]; the
    counters are what its summary reports. *)
Definition comprehensivePreserveJDK_SECURE (oldJdk newJdk : path) : M world Counts :=
  preserveItems_loop oldJdk newJdk jdkPreserveItems (mkCounts 0 0 0).

End Loop.

End Jdk.

(* ========================================================================= *)
(** * Decimal numerals: the recursion bound of [digits] is enough *)
(* ========================================================================= *)

Section Numerals.

Local Open Scope N_scope.

Lemma log2_div10 (n : N) : 10 <= n -> N.log2 (n / 10) < N.log2 n.
Proof.
  intros Hn.
  assert (Hpos : 0 < n / 10).
  { apply N.div_str_pos. lia. }
  apply N.log2_lt_pow2; [done|].
  destruct (N.log2_spec n) as [Hlo Hhi]; [lia|].
  rewrite N.pow_succ_r' in Hhi.
  apply N.Div0.div_lt_upper_bound. lia.
Qed.

(** One more unit of fuel changes nothing once the fuel exceeds the binary
    logarithm of the number: [of_N] never stops on the bound. *)
Lemma digits_fuel (f : nat) (n : N) (acc : str) :
  N.log2 n < N.of_nat f -> digits (S f) n acc = digits f n acc.
Proof.
  revert n acc. induction f as [|f IH]; intros n acc Hlog; [lia|].
  change (digits (S (S f)) n acc) with
    (if n <? 10 then (48 + n mod 10) :: acc
     else digits (S f) (n / 10) ((48 + n mod 10) :: acc)).
  change (digits (S f) n acc) with
    (if n <? 10 then (48 + n mod 10) :: acc
     else digits f (n / 10) ((48 + n mod 10) :: acc)).
  destruct (n <? 10) eqn:Hlt; [done|].
  apply N.ltb_ge in Hlt. apply IH.
  pose proof (log2_div10 n Hlt). lia.
Qed.

Lemma of_N_fuel (k : nat) (n : N) :
  digits (k + S (N.to_nat (N.log2 n))) n [] = of_N n.
Proof.
  induction k as [|k IH]; [done|].
  rewrite <- IH. apply digits_fuel. lia.
Qed.

End Numerals.

(* ========================================================================= *)
(** * Properties of the directive-format merge *)
(* ========================================================================= *)

Section MergeFacts.

Implicit Types (l us : list Directive) (u d : Directive) (K : str).

Lemma findIndex_Some K l i :
  findIndex K l = Some i <->
  (exists d, l !! i = Some d /\ d_name d = K) /\
  (forall j d', l !! j = Some d' -> j < i -> d_name d' <> K).
Proof.
  unfold findIndex. split.
  - intros H. apply fmap_Some in H as [[i' d] [Hf ->]].
    apply list_find_Some in Hf as (Hl & Hn & Hmin). simpl. split; eauto.
  - intros [[d [Hl Hn]] Hmin]. apply fmap_Some. exists (i, d). split; [|done].
    apply list_find_Some. eauto.
Qed.

Lemma findIndex_None K l :
  findIndex K l = None <-> (forall d, d ∈ l -> d_name d <> K).
Proof.
  unfold findIndex. rewrite fmap_None, list_find_None, Forall_forall. done.
Qed.

Lemma findIndex_lt K l i : findIndex K l = Some i -> i < length l.
Proof.
  intros H. apply findIndex_Some in H as [[d [Hl _]] _]. eapply lookup_lt_Some; eauto.
Qed.

(** The allow-list and the deny-list share no name. *)
Lemma lists_disjoint K :
  K ∈ APACHE_USER_DIRECTIVES -> K ∈ APACHE_SECURITY_DIRECTIVES -> False.
Proof.
  intros Hu Hs.
  assert (Hall : Forall (fun n => n ∉ APACHE_SECURITY_DIRECTIVES) APACHE_USER_DIRECTIVES).
  { eapply bool_decide_eq_true_1. vm_compute. reflexivity. }
  rewrite Forall_forall in Hall. exact (Hall K Hu Hs).
Qed.

Lemma arr_includes_true (xs : list str) (x : str) : arr_includes xs x = true <-> x ∈ xs.
Proof. unfold arr_includes. rewrite bool_decide_eq_true. done. Qed.

Lemma arr_includes_false (xs : list str) (x : str) : arr_includes xs x = false <-> x ∉ xs.
Proof. unfold arr_includes. rewrite bool_decide_eq_false. done. Qed.

(** What one step of the loop does, by cases. *)
Lemma merge_directive_cases l u :
  (d_name u ∈ APACHE_SECURITY_DIRECTIVES /\ merge_directive l u = l) \/
  ((d_name u ∉ APACHE_SECURITY_DIRECTIVES) /\
   exists i, findIndex (d_name u) l = Some i /\ merge_directive l u = <[i := u]> l) \/
  ((d_name u ∉ APACHE_SECURITY_DIRECTIVES) /\
   findIndex (d_name u) l = None /\ merge_directive l u = l ++ [u]).
Proof.
  unfold merge_directive.
  destruct (arr_includes APACHE_SECURITY_DIRECTIVES (d_name u)) eqn:Hs.
  - left. split; [by apply arr_includes_true|done].
  - apply arr_includes_false in Hs. right.
    destruct (findIndex (d_name u) l) as [i|] eqn:Hf; [left|right]; eauto.
Qed.

Lemma names_insert_same l i u d :
  l !! i = Some d -> d_name d = d_name u -> names (<[i := u]> l) = names l.
Proof.
  intros Hl Hn. unfold names. rewrite list_fmap_insert.
  apply list_insert_id. rewrite list_lookup_fmap, Hl. simpl. by rewrite Hn.
Qed.

(** A step keeps the names at the positions it finds, and adds at most one. *)
Lemma merge_directive_names l u :
  names (merge_directive l u) = names l \/
  ((d_name u ∉ names l) /\ names (merge_directive l u) = names l ++ [d_name u]).
Proof.
  destruct (merge_directive_cases l u) as [[_ ->]|[(_ & i & Hf & ->)|(_ & Hf & ->)]].
  - by left.
  - left. apply findIndex_Some in Hf as [[d [Hl Hn]] _]. by eapply names_insert_same.
  - right. split.
    + intros Hin. apply list_elem_of_fmap in Hin as [d [Hn Hd]].
      rewrite findIndex_None in Hf. by apply (Hf d Hd).
    + unfold names. by rewrite fmap_app.
Qed.

Lemma fold_merge_names us l :
  exists extra, names (fold_left merge_directive us l) = names l ++ extra.
Proof.
  revert l. induction us as [|u us IH]; intros l; simpl.
  - exists []. by rewrite app_nil_r.
  - destruct (IH (merge_directive l u)) as [extra Hex].
    destruct (merge_directive_names l u) as [Hn|[_ Hn]]; rewrite Hn in Hex.
    + by exists extra.
    + exists (d_name u :: extra). by rewrite Hex, <- app_assoc.
Qed.

(** [findIndex] only looks at the names. *)
Lemma findIndex_names K l l' : names l = names l' -> findIndex K l = findIndex K l'.
Proof.
  revert l'. unfold findIndex, names.
  induction l as [|d l IH]; intros [|d' l'] Hn; try done.
  simpl in Hn. injection Hn as Hd Hl. simpl.
  repeat case_decide; try congruence; try done.
  rewrite <- !option_fmap_compose. specialize (IH l' Hl).
  destruct (list_find _ l) as [[? ?]|], (list_find _ l') as [[? ?]|]; simpl in *; congruence.
Qed.

Lemma findIndex_app_Some K l l' i :
  findIndex K l = Some i -> findIndex K (l ++ l') = Some i.
Proof.
  rewrite !findIndex_Some. intros [[d [Hl Hn]] Hmin]. split.
  - exists d. split; [|done]. by apply lookup_app_l_Some.
  - intros j d' Hj Hlt. apply (Hmin j d'); [|done].
    rewrite lookup_app_l in Hj; [done|]. apply lookup_lt_Some in Hl. lia.
Qed.

Lemma findIndex_app_None K l l' i :
  findIndex K l = None -> findIndex K (l ++ l') = Some i -> length l <= i.
Proof.
  rewrite findIndex_None, findIndex_Some. intros Hnone [[d [Hl Hn]] _].
  destruct (decide (i < length l)) as [Hlt|]; [|lia].
  rewrite lookup_app_l in Hl by done.
  exfalso. apply (Hnone d); [|done]. by eapply list_elem_of_lookup_2.
Qed.

(** The first position of a name never moves once it exists. *)
Lemma merge_directive_findIndex K l u i :
  findIndex K l = Some i -> findIndex K (merge_directive l u) = Some i.
Proof.
  intros Hf.
  destruct (merge_directive_cases l u) as [[_ ->]|[(_ & j & Hj & ->)|(_ & _ & ->)]].
  - done.
  - rewrite <- Hf. apply findIndex_names.
    apply findIndex_Some in Hj as [[d [Hl Hn]] _]. by eapply names_insert_same.
  - by apply findIndex_app_Some.
Qed.

Lemma fold_merge_findIndex K us l i :
  findIndex K l = Some i -> findIndex K (fold_left merge_directive us l) = Some i.
Proof.
  revert l. induction us as [|u us IH]; intros l Hf; simpl; [done|].
  apply IH. by apply merge_directive_findIndex.
Qed.

(** A step for another name leaves the first entry of [K] alone. *)
Lemma merge_directive_keeps K l u i d :
  d_name u <> K -> findIndex K l = Some i -> l !! i = Some d ->
  merge_directive l u !! i = Some d.
Proof.
  intros Hne Hf Hl.
  destruct (merge_directive_cases l u) as [[_ ->]|[(_ & j & Hj & ->)|(_ & _ & ->)]].
  - done.
  - rewrite list_lookup_insert_ne; [done|]. intros ->.
    apply findIndex_Some in Hj as [[d' [Hl' Hn']] _].
    apply findIndex_Some in Hf as [[d'' [Hl'' Hn'']] _]. congruence.
  - by apply lookup_app_l_Some.
Qed.

Lemma fold_merge_keeps K us l i d :
  (forall u, u ∈ us -> d_name u <> K) ->
  findIndex K l = Some i -> l !! i = Some d ->
  fold_left merge_directive us l !! i = Some d.
Proof.
  revert l. induction us as [|u us IH]; intros l Hall Hf Hl; simpl; [done|].
  apply IH.
  - intros u' Hu'. apply Hall. by right.
  - by apply merge_directive_findIndex.
  - apply (merge_directive_keeps K); [apply Hall; by left|done|done].
Qed.

(** A step for an allowed name puts the directive at the first position of
    its name. *)
Lemma merge_directive_places l u :
  d_name u ∉ APACHE_SECURITY_DIRECTIVES ->
  exists i, findIndex (d_name u) (merge_directive l u) = Some i /\
            merge_directive l u !! i = Some u.
Proof.
  intros Hns.
  destruct (merge_directive_cases l u) as [[Hs _]|[(_ & j & Hj & ->)|(_ & Hnone & ->)]].
  - done.
  - exists j. pose proof (findIndex_lt _ _ _ Hj) as Hlt. split.
    + rewrite <- Hj. apply findIndex_names.
      apply findIndex_Some in Hj as [[d [Hl Hn]] _]. by eapply names_insert_same.
    + by apply list_lookup_insert_eq.
  - exists (length l). split.
    + apply findIndex_Some. split.
      * exists u. split; [|done]. by rewrite lookup_app_r, Nat.sub_diag.
      * intros j d' Hj Hlt. rewrite lookup_app_l in Hj by done.
        rewrite findIndex_None in Hnone. apply Hnone. by eapply list_elem_of_lookup_2.
    + by rewrite lookup_app_r, Nat.sub_diag.
Qed.

(** Entries of a deny-listed name are never touched by a step. *)
Lemma merge_directive_filter_security K l u :
  K ∈ APACHE_SECURITY_DIRECTIVES ->
  List.filter (fun d => eqb (d_name d) K) (merge_directive l u)
  = List.filter (fun d => eqb (d_name d) K) l.
Proof.
  intros HK.
  destruct (merge_directive_cases l u) as [[_ ->]|[(Hns & j & Hj & ->)|(Hns & _ & ->)]].
  - done.
  - apply findIndex_Some in Hj as [[d [Hl Hn]] _].
    assert (HuK : eqb (d_name u) K = false).
    { apply bool_decide_eq_false. intros <-. done. }
    clear Hns. revert j Hl. induction l as [|x l IH]; intros [|j] Hl; try done; simpl in *.
    + injection Hl as ->. rewrite Hn, HuK. done.
    + rewrite (IH j Hl). done.
  - rewrite List.filter_app. simpl.
    assert (HuK : eqb (d_name u) K = false).
    { apply bool_decide_eq_false. intros <-. done. }
    rewrite HuK. by rewrite app_nil_r.
Qed.

Lemma fold_merge_filter_security K us l :
  K ∈ APACHE_SECURITY_DIRECTIVES ->
  List.filter (fun d => eqb (d_name d) K) (fold_left merge_directive us l)
  = List.filter (fun d => eqb (d_name d) K) l.
Proof.
  intros HK. revert l. induction us as [|u us IH]; intros l; simpl; [done|].
  rewrite IH. by apply merge_directive_filter_security.
Qed.

End MergeFacts.

Ltac by_computation := eapply bool_decide_eq_true_1; vm_compute; reflexivity.

Section MergeClaims.

Implicit Types (oldConfig newConfig : Config) (K : str).

Lemma extract_directives_elem oldConfig d :
  d ∈ u_directives (extractApacheUserSettings oldConfig) <->
  d ∈ directives oldConfig /\ d_name d ∈ APACHE_USER_DIRECTIVES.
Proof.
  unfold extractApacheUserSettings. simpl.
  rewrite list_elem_of_In, List.filter_In, <- list_elem_of_In, arr_includes_true. done.
Qed.

(** C1 (security wins).  For a name [K] of the security deny-list, the
    directives named [K] of the merged document are exactly those of the new
    document, in the same order: every value the new document gives to [K]
    is there, every directive named [K] in the merged document is one of
    the new document's, and a value the new document does not give to [K]
    is not there, whatever the old document holds. *)
Theorem security_wins oldConfig newConfig K :
  K ∈ APACHE_SECURITY_DIRECTIVES ->
  let merged := mergeApacheSettings newConfig (extractApacheUserSettings oldConfig) in
  List.filter (fun d => eqb (d_name d) K) (directives merged)
    = List.filter (fun d => eqb (d_name d) K) (directives newConfig)
  /\ (forall V_new,
        (exists d, d ∈ directives newConfig /\ d_name d = K /\ d_value d = V_new) ->
        exists d, d ∈ directives merged /\ d_name d = K /\ d_value d = V_new)
  /\ (forall d, d ∈ directives merged -> d_name d = K -> d ∈ directives newConfig)
  /\ (forall V_old,
        ~ (exists d, d ∈ directives newConfig /\ d_name d = K /\ d_value d = V_old) ->
        ~ (exists d, d ∈ directives merged /\ d_name d = K /\ d_value d = V_old)).
Proof.
  intros HK merged.
  assert (Hfilter : List.filter (fun d => eqb (d_name d) K) (directives merged)
                    = List.filter (fun d => eqb (d_name d) K) (directives newConfig)).
  { subst merged. unfold mergeApacheSettings, json_clone. simpl.
    by apply fold_merge_filter_security. }
  assert (Hiff : forall d, d_name d = K -> d ∈ directives merged <-> d ∈ directives newConfig).
  { intros d Hd.
    assert (Hk : eqb (d_name d) K = true) by (by apply bool_decide_eq_true).
    split; intros Hin.
    - assert (Hf : d ∈ List.filter (fun d => eqb (d_name d) K) (directives merged)).
      { apply list_elem_of_In, List.filter_In. split; [by apply list_elem_of_In|done]. }
      rewrite Hfilter in Hf. apply list_elem_of_In, List.filter_In in Hf as [Hf _].
      by apply list_elem_of_In.
    - assert (Hf : d ∈ List.filter (fun d => eqb (d_name d) K) (directives newConfig)).
      { apply list_elem_of_In, List.filter_In. split; [by apply list_elem_of_In|done]. }
      rewrite <- Hfilter in Hf. apply list_elem_of_In, List.filter_In in Hf as [Hf _].
      by apply list_elem_of_In. }
  split; [done|]. split; [|split].
  - intros V_new (d & Hin & Hn & Hv). exists d. split; [|done]. by apply Hiff.
  - intros d Hin Hn. by apply Hiff.
  - intros V_old Hnot (d & Hin & Hn & Hv). apply Hnot. exists d. split; [|done]. by apply Hiff.
Qed.

(** The old document sets [ServerTokens Full], the new one [ServerTokens
    Prod]: the merged document has [Prod] only. *)
Lemma security_wins_witness :
  let oldConfig := parseApacheConfig (lit "ServerTokens Full" ++ [nl] ++ lit "ServerName a.example") in
  let newConfig := parseApacheConfig (lit "ServerTokens Prod") in
  let merged := mergeApacheSettings newConfig (extractApacheUserSettings oldConfig) in
  lit "ServerTokens" ∈ APACHE_SECURITY_DIRECTIVES /\
  List.filter (fun d => eqb (d_name d) (lit "ServerTokens")) (directives merged)
    = List.filter (fun d => eqb (d_name d) (lit "ServerTokens")) (directives newConfig).
Proof.
  intros oldConfig newConfig merged.
  assert (H : lit "ServerTokens" ∈ APACHE_SECURITY_DIRECTIVES) by by_computation.
  split; [exact H|].
  exact (proj1 (security_wins oldConfig newConfig (lit "ServerTokens") H)).
Defined.

(** The guard is in the merge step itself: whatever the classifier hands
    over, no entry of a deny-listed name is replaced or added. *)
Lemma merge_guard_any_customizations newConfig (user : Customizations) K :
  K ∈ APACHE_SECURITY_DIRECTIVES ->
  List.filter (fun d => eqb (d_name d) K) (directives (mergeApacheSettings newConfig user))
  = List.filter (fun d => eqb (d_name d) K) (directives newConfig).
Proof. intros HK. unfold mergeApacheSettings, json_clone. simpl. by apply fold_merge_filter_security. Qed.

(** C2, as stated, fails: the old document has two [Listen] directives and
    the new one none; the merged document has lost [Listen 8080]. *)
Lemma user_preservation_counterexample :
  let oldConfig := parseApacheConfig (lit "Listen 8080" ++ [nl] ++ lit "Listen 8443") in
  let newConfig := parseApacheConfig (lit "ServerTokens Full") in
  let merged := mergeApacheSettings newConfig (extractApacheUserSettings oldConfig) in
  lit "Listen" ∈ APACHE_USER_DIRECTIVES /\
  (exists d, d ∈ directives oldConfig /\ d_name d = lit "Listen" /\ d_value d = lit "8080") /\
  (forall d, d ∈ directives newConfig -> d_name d <> lit "Listen") /\
  ~ (exists d, d ∈ directives merged /\ d_name d = lit "Listen" /\ d_value d = lit "8080").
Proof.
  intros oldConfig newConfig merged.
  split; [by_computation|]. split; [|split].
  - exists (mkDirective (lit "Listen") (lit "8080") (lit "Listen 8080") 1).
    split; [by_computation|done].
  - assert (H : Forall (fun d => d_name d <> lit "Listen") (directives newConfig)) by by_computation.
    rewrite Forall_forall in H. exact H.
  - assert (H : Forall (fun d => ~ (d_name d = lit "Listen" /\ d_value d = lit "8080"))
                  (directives merged)) by by_computation.
    rewrite Forall_forall in H. intros (d & Hin & Hn & Hv). by apply (H d Hin).
Qed.

(** C2, amended (user preservation, last writer wins).  Let [d] be a
    directive of the old document whose name [K] is on the user allow-list
    and which is the last directive of that name in the old document.  Then
    the merged document holds [d] at the first position of the name [K]:
    the position of the first directive named [K] of the new document when
    there is one (replacement), and a position after all directives of the
    new document otherwise (addition). *)
Theorem user_preservation_last oldConfig newConfig (d : Directive) (pre post : list Directive) :
  directives oldConfig = pre ++ d :: post ->
  d_name d ∈ APACHE_USER_DIRECTIVES ->
  (forall d', d' ∈ post -> d_name d' <> d_name d) ->
  let merged := directives (mergeApacheSettings newConfig (extractApacheUserSettings oldConfig)) in
  exists i,
    findIndex (d_name d) merged = Some i /\
    merged !! i = Some d /\
    (forall j, findIndex (d_name d) (directives newConfig) = Some j -> i = j) /\
    (findIndex (d_name d) (directives newConfig) = None -> length (directives newConfig) <= i).
Proof.
  intros Hold Huser Hlast merged. subst merged.
  unfold mergeApacheSettings, json_clone, extractApacheUserSettings. simpl.
  rewrite Hold, List.filter_app. simpl.
  assert (Hd : arr_includes APACHE_USER_DIRECTIVES (d_name d) = true) by (by apply arr_includes_true).
  rewrite Hd, fold_left_app. simpl.
  set (isUser := fun dir => arr_includes APACHE_USER_DIRECTIVES (d_name dir)).
  set (L0 := directives newConfig).
  set (L1 := fold_left merge_directive (List.filter isUser pre) L0).
  assert (Hns : d_name d ∉ APACHE_SECURITY_DIRECTIVES).
  { intros Hs. by apply (lists_disjoint (d_name d)). }
  destruct (merge_directive_places L1 d Hns) as (i & Hfi & Hli).
  assert (Hpost : forall u, u ∈ List.filter isUser post -> d_name u <> d_name d).
  { intros u Hu. apply Hlast. apply list_elem_of_In, List.filter_In in Hu as [Hu _].
    by apply list_elem_of_In. }
  exists i. split; [|split; [|split]].
  - by apply fold_merge_findIndex.
  - by apply (fold_merge_keeps (d_name d)).
  - intros j Hj.
    assert (Hj1 : findIndex (d_name d) L1 = Some j) by (by apply fold_merge_findIndex).
    assert (Hj2 : findIndex (d_name d) (merge_directive L1 d) = Some j)
      by (by apply merge_directive_findIndex).
    congruence.
  - intros Hnone.
    destruct (fold_merge_names (List.filter isUser pre ++ [d]) L0) as [extra Hex].
    rewrite fold_left_app in Hex. simpl in Hex. fold L1 in Hex.
    destruct (decide (i < length L0)) as [Hlt|]; [exfalso|lia].
    assert (Hname : names (merge_directive L1 d) !! i = Some (d_name d)).
    { unfold names. by rewrite list_lookup_fmap, Hli. }
    rewrite Hex, lookup_app_l in Hname by (unfold names; by rewrite length_map).
    unfold names in Hname. rewrite list_lookup_fmap in Hname.
    destruct (L0 !! i) as [d0|] eqn:Hd0; [|done]. simpl in Hname.
    rewrite findIndex_None in Hnone. apply (Hnone d0); [by eapply list_elem_of_lookup_2|congruence].
Qed.

(** The old document sets [Listen 8080] then [Listen 8443] and
    [ServerName old.example.com]; the new one has [Listen 80]. *)
Lemma user_preservation_last_witness :
  let oldConfig :=
    parseApacheConfig (lit "Listen 8080" ++ [nl] ++ lit "Listen 8443" ++ [nl]
                       ++ lit "ServerName old.example.com") in
  let newConfig := parseApacheConfig (lit "Listen 80") in
  let d := mkDirective (lit "Listen") (lit "8443") (lit "Listen 8443") 2 in
  let merged := directives (mergeApacheSettings newConfig (extractApacheUserSettings oldConfig)) in
  exists i, findIndex (lit "Listen") merged = Some i /\ merged !! i = Some d.
Proof.
  intros oldConfig newConfig d merged.
  destruct (user_preservation_last oldConfig newConfig d
              [mkDirective (lit "Listen") (lit "8080") (lit "Listen 8080") 1]
              [mkDirective (lit "ServerName") (lit "old.example.com")
                 (lit "ServerName old.example.com") 3])
    as (i & Hf & Hl & _).
  - vm_compute. reflexivity.
  - by_computation.
  - intros d' Hd'. apply list_elem_of_singleton in Hd'. subst d'. vm_compute. discriminate.
  - exists i. split; [exact Hf|exact Hl].
Defined.

(** C5 (structural blocks).  The VirtualHost blocks of the merged document
    are those of the new document followed by those of the old document,
    each unchanged and in its order; with [n] blocks in the new document and
    [m] in the old one the merged document has [n + m]. *)
Theorem structural_blocks_preserved oldConfig newConfig :
  let merged := mergeApacheSettings newConfig (extractApacheUserSettings oldConfig) in
  virtualHosts merged = virtualHosts newConfig ++ virtualHosts oldConfig
  /\ length (virtualHosts merged)
     = length (virtualHosts oldConfig) + length (virtualHosts newConfig)
  /\ (virtualHosts newConfig = [] -> virtualHosts merged = virtualHosts oldConfig).
Proof.
  intros merged. subst merged. unfold mergeApacheSettings, json_clone. simpl.
  split; [done|]. split.
  - rewrite length_app. lia.
  - intros ->. done.
Qed.

End MergeClaims.

(* ========================================================================= *)
(** * Lines: [split] and [join] *)
(* ========================================================================= *)

Section SplitJoin.

Variable sep : N.

Lemma split_nonempty (s : str) : split sep s <> [].
Proof.
  destruct s as [|c s]; simpl; [done|].
  destruct (c =? sep)%N; [done|]. by destruct (split sep s).
Qed.

Lemma split_app_sep (a b : str) :
  split sep (a ++ sep :: b) = split sep a ++ split sep b.
Proof.
  induction a as [|c a IH]; simpl.
  - by rewrite N.eqb_refl.
  - destruct (c =? sep)%N; [by rewrite IH|].
    rewrite IH. pose proof (split_nonempty a) as Hne.
    by destruct (split sep a).
Qed.

Lemma split_no_sep (a : str) : sep ∉ a -> split sep a = [a].
Proof.
  induction a as [|c a IH]; intros Hnot; simpl; [done|].
  destruct (c =? sep)%N eqn:Hc.
  - apply N.eqb_eq in Hc. subst c. exfalso. apply Hnot. by left.
  - rewrite IH; [done|]. intros Hin. apply Hnot. by right.
Qed.

Lemma split_pieces_no_sep (s : str) : Forall (fun l => sep ∉ l) (split sep s).
Proof.
  induction s as [|c s IH]; simpl.
  - constructor; [|constructor]. by intros H%elem_of_nil.
  - destruct (c =? sep)%N eqn:Hc.
    + constructor; [|done]. by intros H%elem_of_nil.
    + destruct (split sep s) as [|l ls]; [constructor; [|constructor]|].
      * intros Hin. apply list_elem_of_singleton in Hin. subst c.
        by rewrite N.eqb_refl in Hc.
      * inversion IH as [|? ? Hl Hls]; subst. constructor; [|done].
        intros Hin. apply elem_of_cons in Hin as [->|Hin]; [by rewrite N.eqb_refl in Hc|done].
Qed.

(** Splitting a joined text gives the lines of the pieces, in order. *)
Lemma split_join_concat (pieces : list str) :
  pieces <> [] ->
  split sep (join [sep] pieces) = concat (List.map (split sep) pieces).
Proof.
  induction pieces as [|p ps IH]; intros Hne; [done|].
  destruct ps as [|q ps].
  - simpl. by rewrite app_nil_r.
  - change (join [sep] (p :: q :: ps)) with (p ++ sep :: join [sep] (q :: ps)).
    rewrite split_app_sep, IH by done. done.
Qed.

Lemma split_join (ls : list str) :
  ls <> [] -> Forall (fun l => sep ∉ l) ls -> split sep (join [sep] ls) = ls.
Proof.
  intros Hne Hall. rewrite split_join_concat by done.
  clear Hne. induction Hall as [|l ls Hl Hls IH]; [done|].
  simpl. rewrite split_no_sep by done. by rewrite IH.
Qed.

End SplitJoin.

(* ========================================================================= *)
(** * The parser keeps every significant line *)
(* ========================================================================= *)

Section BlockLoop.

Variables startTag endTag : str.

Lemma extractApacheBlock_loop_spec (rest : list str) (i : nat) (depth : Z)
    (acc bl : list str) (e : nat) :
  (0 < depth)%Z ->
  extractApacheBlock_loop startTag endTag rest i depth acc = (bl, e) ->
  exists k, k <= length rest /\ bl = acc ++ take k rest /\
            ((1 <= k /\ e + 1 = i + k) \/ (k = length rest /\ e = i + k)).
Proof.
  revert i depth acc. induction rest as [|l rest IH]; intros i depth acc Hd Hrun; simpl in Hrun.
  - injection Hrun as <- <-. exists 0. simpl. rewrite app_nil_r. split; [lia|]. split; [done|].
    right. lia.
  - rewrite bool_decide_eq_true_2 in Hrun by done.
    set (d1 := if startsWith startTag (trim l) then (depth + 1)%Z else depth) in Hrun.
    set (d2 := if startsWith endTag (trim l) then (d1 - 1)%Z else d1) in Hrun.
    assert (Hd2 : (0 <= d2)%Z).
    { subst d2 d1. destruct (startsWith startTag (trim l)), (startsWith endTag (trim l)); lia. }
    destruct (bool_decide (d2 = 0%Z)) eqn:Hz.
    + injection Hrun as <- <-. exists 1. simpl. split; [lia|]. split; [by rewrite take_0|].
      left. lia.
    + apply bool_decide_eq_false in Hz.
      apply IH in Hrun as (k & Hk & -> & Hcase); [|lia].
      exists (S k). simpl. split; [lia|]. split; [by rewrite <- app_assoc|].
      destruct Hcase as [[? ?]|[? ?]]; [left|right]; lia.
Qed.

End BlockLoop.

Lemma extractApacheBlock_spec (lines : list str) (start : nat) (startTag endTag raw : str) :
  lines !! start = Some raw ->
  let b := extractApacheBlock lines start startTag endTag in
  take (S (b_endIndex b)) lines = take start lines ++ b_lines b
  /\ block_ok b
  /\ start <= b_endIndex b.
Proof.
  intros Hraw b. subst b. unfold extractApacheBlock. rewrite Hraw. simpl.
  destruct (extractApacheBlock_loop startTag endTag (drop (S start) lines) (S start) 1 [raw])
    as [bl e] eqn:Hrun.
  apply extractApacheBlock_loop_spec in Hrun as (k & Hk & -> & Hcase); [|lia].
  simpl. rewrite length_drop in Hk, Hcase.
  pose proof (lookup_lt_Some _ _ _ Hraw) as Hlt.
  assert (Hblock : raw :: take k (drop (S start) lines) = take (S k) (drop start lines)).
  { rewrite (drop_S _ _ _ Hraw). done. }
  split; [|split].
  - rewrite Hblock.
    destruct Hcase as [[? He]|[Hk' He]].
    + replace (S e) with (start + S k) by lia. by rewrite take_take_drop.
    + rewrite (take_ge lines) by lia.
      rewrite (take_ge (drop start lines)) by (rewrite length_drop; lia).
      by rewrite take_drop.
  - split; [done|]. simpl. done.
  - lia.
Qed.

Lemma split_ws_from_nonempty (in_sep : bool) (cur s : str) :
  split_ws_from in_sep cur s <> [].
Proof.
  revert in_sep cur. induction s as [|c s IH]; intros in_sep cur; simpl.
  - by destruct in_sep.
  - destruct (is_ws c); [destruct in_sep; [apply IH|done]|apply IH].
Qed.

Lemma parseApacheDirective_Some (raw n v full : str) :
  parseApacheDirective raw = Some (n, v, full) -> full = raw.
Proof.
  unfold parseApacheDirective.
  destruct (bool_decide (trim raw = []) || startsWith [hash] (trim raw)); [done|].
  destruct (split_ws (trim raw)); [done|]. by intros [= _ _ <-].
Qed.

Lemma parseApacheDirective_None (raw : str) :
  parseApacheDirective raw = None -> ~ significant raw.
Proof.
  unfold parseApacheDirective, significant.
  destruct (bool_decide (trim raw = [])) eqn:Hb; cbn [orb].
  - apply bool_decide_eq_true in Hb. intros _ [H _]. done.
  - destruct (startsWith [hash] (trim raw)) eqn:Hc; cbn [orb].
    + intros _ [_ H]. done.
    + intros Hnone _. pose proof (split_ws_from_nonempty false [] (trim raw)) as Hne.
      unfold split_ws in Hnone. by destruct (split_ws_from false [] (trim raw)).
Qed.

Section ParseStep.

Variable lines : list str.

Lemma blockLines_snoc (bs : list Block) (b : Block) :
  blockLines (bs ++ [b]) = blockLines bs ++ b_lines b.
Proof. unfold blockLines. rewrite List.map_app, concat_app. simpl. by rewrite app_nil_r. Qed.

Lemma parse_step_spec (i : nat) (raw : str) (c : Config) (i' : nat) (c' : Config) :
  lines !! i = Some raw ->
  parse_step lines i raw c = (i', c') ->
  blocks_ok c ->
  exists chunk, take i' lines = take i lines ++ chunk /\ i < i' /\ blocks_ok c'
                /\ grows chunk c c'.
Proof.
  intros Hraw Hstep (Hif & Hdir & Hvh). unfold parse_step in Hstep.
  destruct (bool_decide (trim raw = []) || startsWith [hash] (trim raw)) eqn:Hskip.
  { injection Hstep as <- <-. exists [raw]. split; [by apply take_S_r|]. split; [lia|].
    split; [done|]. left. split; [done|]. constructor; [|constructor].
    intros [Hne Hc]. apply orb_true_iff in Hskip as [Hb|Hb].
    - by apply bool_decide_eq_true in Hb.
    - congruence. }
  destruct (startsWith (lit "LoadModule") (trim raw)).
  { injection Hstep as <- <-. exists [raw]. split; [by apply take_S_r|]. split; [lia|].
    split; [done|]. right. exists 0, (moduleLines c). split; [done|].
    unfold components, moduleLines. simpl. by rewrite List.map_app. }
  destruct (startsWith (lit "<VirtualHost") (trim raw)).
  { injection Hstep as <- <-.
    destruct (extractApacheBlock_spec lines i (lit "<VirtualHost") (lit "</VirtualHost>") raw Hraw)
      as (Htake & Hok & Hle).
    eexists. split; [exact Htake|]. split; [lia|]. split.
    - split; [done|]. split; [done|]. simpl. apply Forall_app. split; [done|]. by constructor.
    - right. exists 4, (blockLines (virtualHosts c)). split; [done|].
      unfold components. simpl. by rewrite blockLines_snoc. }
  destruct (startsWith (lit "<Directory") (trim raw)).
  { injection Hstep as <- <-.
    destruct (extractApacheBlock_spec lines i (lit "<Directory") (lit "</Directory>") raw Hraw)
      as (Htake & Hok & Hle).
    eexists. split; [exact Htake|]. split; [lia|]. split.
    - split; [done|]. split; [|done]. simpl. apply Forall_app. split; [done|]. by constructor.
    - right. exists 3, (blockLines (directories c)). split; [done|].
      unfold components. simpl. by rewrite blockLines_snoc. }
  destruct (startsWith (lit "<IfModule") (trim raw)).
  { injection Hstep as <- <-.
    destruct (extractApacheBlock_spec lines i (lit "<IfModule") (lit "</IfModule>") raw Hraw)
      as (Htake & Hok & Hle).
    eexists. split; [exact Htake|]. split; [lia|]. split.
    - split; [|done]. simpl. apply Forall_app. split; [done|]. by constructor.
    - right. exists 2, (blockLines (ifModules c)). split; [done|].
      unfold components. simpl. by rewrite blockLines_snoc. }
  destruct (parseApacheDirective raw) as [[[n v] full]|] eqn:Hparse.
  - apply parseApacheDirective_Some in Hparse as ->.
    injection Hstep as <- <-. exists [raw]. split; [by apply take_S_r|]. split; [lia|].
    split; [done|]. right. exists 1, (directiveLines c). split; [done|].
    unfold components, directiveLines. simpl. by rewrite List.map_app.
  - apply parseApacheDirective_None in Hparse.
    injection Hstep as <- <-. exists [raw]. split; [by apply take_S_r|]. split; [lia|].
    split; [done|]. left. split; [done|]. by constructor.
Qed.

Lemma concat_insert_app (comps : list (list str)) (n : nat) (comp chunk : list str) (l : str) :
  comps !! n = Some comp ->
  l ∈ concat (<[n := comp ++ chunk]> comps) <-> l ∈ concat comps \/ l ∈ chunk.
Proof.
  revert n. induction comps as [|x comps IH]; intros [|n] Hn; try done; simpl in *.
  - injection Hn as ->. rewrite !elem_of_app. tauto.
  - rewrite !elem_of_app, (IH n Hn). tauto.
Qed.

Lemma parsed_upto_step (i : nat) (raw : str) (c : Config) (i' : nat) (c' : Config) :
  lines !! i = Some raw ->
  parse_step lines i raw c = (i', c') ->
  parsed_upto lines i c ->
  i < i' /\ parsed_upto lines i' c'.
Proof.
  intros Hraw Hstep (Hok & Hsub & Hsig).
  destruct (parse_step_spec i raw c i' c' Hraw Hstep Hok) as (chunk & Htake & Hlt & Hok' & Hg).
  split; [done|]. split; [done|]. rewrite Htake.
  destruct Hg as [[-> Hns]|(n & comp & Hn & Hc')].
  - split.
    + eapply Forall_impl; [exact Hsub|]. intros comp Hc. by apply sublist_inserts_r.
    + intros l Hin Hl. apply elem_of_app in Hin as [Hin|Hin]; [by apply Hsig|].
      rewrite Forall_forall in Hns. by destruct (Hns l Hin).
  - rewrite Hc'. split.
    + apply Forall_insert.
      * eapply Forall_impl; [exact Hsub|]. intros comp0 Hc. by apply sublist_inserts_r.
      * apply sublist_app; [|done].
        rewrite Forall_forall in Hsub. apply Hsub. by eapply list_elem_of_lookup_2.
    + intros l Hin Hl. apply (concat_insert_app _ _ _ _ _ Hn).
      apply elem_of_app in Hin as [Hin|Hin]; [left; by apply Hsig|by right].
Qed.

(** The loop ends, and it ends with the whole text parsed. *)
Lemma parse_loop_parsed (fuel i : nat) (c : Config) :
  length lines - i <= fuel ->
  parsed_upto lines i c ->
  parsed_upto lines (length lines) (parse_loop fuel lines i c).
Proof.
  revert i c. induction fuel as [|fuel IH]; intros i c Hfuel Hinv; simpl.
  - destruct Hinv as (Hok & Hsub & Hsig). split; [done|].
    rewrite firstn_all. rewrite (take_ge lines i) in Hsub, Hsig by lia. done.
  - destruct (lines !! i) as [raw|] eqn:Hraw.
    + destruct (parse_step lines i raw c) as [i' c'] eqn:Hstep.
      destruct (parsed_upto_step i raw c i' c' Hraw Hstep Hinv) as [Hlt Hinv'].
      apply IH; [lia|done].
    + apply lookup_ge_None in Hraw.
      destruct Hinv as (Hok & Hsub & Hsig). split; [done|].
      rewrite firstn_all. rewrite (take_ge lines i) in Hsub, Hsig by lia. done.
Qed.

(** More fuel than lines changes nothing: the loop has stopped by itself. *)
Lemma parse_loop_fuel (fuel i : nat) (c : Config) :
  length lines - i <= fuel ->
  parse_loop (S fuel) lines i c = parse_loop fuel lines i c.
Proof.
  revert i c. induction fuel as [|fuel IH]; intros i c Hfuel.
  - simpl. rewrite lookup_ge_None_2 by lia. done.
  - change (parse_loop (S (S fuel)) lines i c) with
      (match lines !! i with
       | None => c
       | Some raw => let '(i', c') := parse_step lines i raw c in parse_loop (S fuel) lines i' c'
       end).
    change (parse_loop (S fuel) lines i c) with
      (match lines !! i with
       | None => c
       | Some raw => let '(i', c') := parse_step lines i raw c in parse_loop fuel lines i' c'
       end).
    destruct (lines !! i) as [raw|] eqn:Hraw; [|done].
    destruct (parse_step lines i raw c) as [i' c'] eqn:Hstep.
    apply IH.
    assert (i < i'); [|lia].
    clear -Hstep. unfold parse_step in Hstep.
    repeat match type of Hstep with
           | (if ?b then _ else _) = _ => destruct b
           | match ?x with _ => _ end = _ => destruct x as [[[? ?] ?]|]
           end; injection Hstep as <- <-; try lia.
    all: unfold extractApacheBlock;
      match goal with
      | |- context [extractApacheBlock_loop ?a ?b ?r ?j ?d ?acc] =>
          destruct (extractApacheBlock_loop a b r j d acc) as [bl e] eqn:Hrun;
          apply extractApacheBlock_loop_spec in Hrun as (k & _ & _ & Hcase); [|lia]
      end; simpl; lia.
Qed.

End ParseStep.

Lemma parsed_upto_start (lines : list str) : parsed_upto lines 0 emptyConfig.
Proof.
  split; [|split].
  - by repeat split.
  - unfold components. simpl. repeat constructor.
  - intros l Hin. simpl in Hin. by apply elem_of_nil in Hin.
Qed.

Lemma parseApacheConfig_parsed (T : str) :
  parsed_upto (split nl T) (length (split nl T)) (parseApacheConfig T).
Proof.
  unfold parseApacheConfig. apply parse_loop_parsed; [lia|apply parsed_upto_start].
Qed.

(* ========================================================================= *)
(** * The lines of the serialized document *)
(* ========================================================================= *)

Section Serializer.

Local Abbreviation no_nl := (fun l : list N => nl ∉ l).

Lemma concat_split_lines (ls : list str) :
  Forall no_nl ls -> concat (List.map (split nl) ls) = ls.
Proof.
  induction 1 as [|l ls Hl Hls IH]; [done|].
  simpl. rewrite split_no_sep by done. by rewrite IH.
Qed.

Lemma concat_split_section_lines (h : str) (entries : list str) :
  nl ∉ h -> Forall no_nl entries ->
  concat (List.map (split nl) (section h entries)) = section h entries.
Proof.
  intros Hh Hall. apply concat_split_lines.
  unfold section. destruct entries as [|e es]; [constructor|].
  constructor; [done|]. apply Forall_app. split; [done|].
  constructor; [|constructor]. by intros H%elem_of_nil.
Qed.

Lemma blockLines_no_nl_cons (b : Block) (bs : list Block) :
  Forall no_nl (blockLines (b :: bs)) ->
  Forall no_nl (b_lines b) /\ Forall no_nl (blockLines bs).
Proof. unfold blockLines. simpl. by rewrite Forall_app. Qed.

Lemma concat_split_contents (bs : list Block) :
  Forall block_ok bs -> Forall no_nl (blockLines bs) ->
  concat (List.map (split nl) (List.map b_content bs)) = blockLines bs.
Proof.
  induction 1 as [|b bs [Hc Hne] Hbs IH]; intros Hnl; [done|].
  apply blockLines_no_nl_cons in Hnl as [Hb Hrest].
  simpl. rewrite Hc, split_join by done. rewrite IH by done. done.
Qed.

Lemma concat_split_section_blocks (h : str) (bs : list Block) :
  nl ∉ h -> Forall block_ok bs -> Forall no_nl (blockLines bs) ->
  concat (List.map (split nl) (section h (List.map b_content bs))) = section h (blockLines bs).
Proof.
  intros Hh Hok Hnl.
  destruct bs as [|b bs]; [done|].
  assert (Hne : blockLines (b :: bs) <> []).
  { inversion Hok as [|? ? [_ Hb] _]; subst. unfold blockLines. simpl.
    destruct (b_lines b); [done|]. done. }
  change (section h (List.map b_content (b :: bs)))
    with (h :: List.map b_content (b :: bs) ++ [[]]).
  replace (section h (blockLines (b :: bs))) with (h :: blockLines (b :: bs) ++ [[]])
    by (unfold section; by destruct (blockLines (b :: bs))).
  cbn [List.map concat]. rewrite split_no_sep by done.
  rewrite List.map_app, concat_app.
  rewrite <- (concat_split_contents (b :: bs)) by done. done.
Qed.

Lemma sublist_no_nl (T : str) (ls : list str) :
  sublist ls (split nl T) -> Forall no_nl ls.
Proof.
  intros Hsub. apply Forall_forall. intros l Hl.
  pose proof (split_pieces_no_sep nl T) as Hall. rewrite Forall_forall in Hall.
  apply Hall. by eapply elem_of_sublist.
Qed.

(** The text written by the serializer, line by line. *)
Lemma buildApacheConfig_lines (now T : str) (c : Config) :
  nl ∉ now ->
  parsed_upto (split nl T) (length (split nl T)) c ->
  split nl (buildApacheConfig now c) = outputLines now c.
Proof.
  intros Hnow ((Hif & Hdir & Hvh) & Hsub & _).
  rewrite firstn_all in Hsub.
  unfold components in Hsub.
  repeat match goal with H : Forall _ (_ :: _) |- _ => apply Forall_cons in H as [? H] end.
  unfold buildApacheConfig, build_pieces.
  rewrite split_join_concat by done.
  rewrite !List.map_app, !concat_app.
  unfold outputLines. f_equal; [|f_equal; [|f_equal; [|f_equal; [|f_equal]]]].
  - apply concat_split_lines. unfold header.
    repeat constructor; try by_computation.
    intros Hin. apply elem_of_app in Hin as [Hin|Hin]; [|done].
    revert Hin. by_computation.
  - apply concat_split_section_lines; [by_computation|]. by eapply sublist_no_nl.
  - apply concat_split_section_lines; [by_computation|]. by eapply sublist_no_nl.
  - apply concat_split_section_blocks; [by_computation|done|]. by eapply sublist_no_nl.
  - apply concat_split_section_blocks; [by_computation|done|]. by eapply sublist_no_nl.
  - apply concat_split_section_blocks; [by_computation|done|]. by eapply sublist_no_nl.
Qed.

Lemma elem_of_section (h : str) (entries : list str) (l : str) :
  l ∈ entries -> l ∈ section h entries.
Proof.
  intros Hin. unfold section. destruct entries as [|e es]; [done|].
  apply elem_of_cons. right. apply elem_of_app. by left.
Qed.

Lemma elem_of_section_inv (h : str) (entries : list str) (l : str) :
  l ∈ section h entries -> l = h \/ l ∈ entries \/ l = [].
Proof.
  unfold section. destruct entries as [|e es]; [by intros H%elem_of_nil|].
  rewrite elem_of_cons, elem_of_app, list_elem_of_singleton. tauto.
Qed.

End Serializer.

Section RoundTrip.

(** C3, as stated, fails: the text [Listen 80] comes back with a generated
    header in front and a section heading; texts with comments lose them,
    and texts whose modules follow their directives are reordered. *)
Lemma roundtrip_counterexample :
  let now := lit "2025-01-01T00:00:00.000Z" in
  let T := lit "# my site" ++ [nl] ++ lit "Listen 80" ++ [nl]
           ++ lit "LoadModule ssl_module modules/mod_ssl.so" in
  let out := split nl (buildApacheConfig now (parseApacheConfig T)) in
  out <> split nl T
  /\ lit "# my site" ∈ split nl T /\ (lit "# my site" ∉ out)
  /\ lit "# Server Configuration" ∈ out /\ (lit "# Server Configuration" ∉ split nl T)
  /\ sublist [lit "Listen 80"; lit "LoadModule ssl_module modules/mod_ssl.so"] (split nl T)
  /\ sublist [lit "LoadModule ssl_module modules/mod_ssl.so"; lit "Listen 80"] out.
Proof.
  intros stamp T out.
  split; [|split; [|split; [|split; [|split; [|split]]]]]; try by_computation.
  all: vm_compute; repeat first [apply sublist_nil | apply sublist_skip | apply sublist_cons].
Qed.

(** C3, amended.  Serializing the parse result of a text [T] gives: a
    generated header of five lines, then, for each section that is not
    empty, a heading, the section's lines and an empty line, the sections
    being the [LoadModule] lines, the directives, the [IfModule] blocks, the
    [Directory] blocks and the [VirtualHost] blocks, in this order.  The
    lines of each section are lines of [T] in the order they have in [T];
    every line of [T] that is not blank and not a comment is in the output;
    and every line of the output is a line of [T], the empty line or one of
    the generated lines. *)
Theorem roundtrip_sections (now T : str) :
  nl ∉ now ->
  let c := parseApacheConfig T in
  let out := split nl (buildApacheConfig now c) in
  out = outputLines now c
  /\ Forall (fun comp => sublist comp (split nl T)) (components c)
  /\ (forall l, l ∈ split nl T -> significant l -> l ∈ out)
  /\ (forall l, l ∈ out -> l ∈ split nl T \/ l = [] \/ l ∈ generatedLines now).
Proof.
  intros Hnow c out.
  pose proof (parseApacheConfig_parsed T) as Hp. fold c in Hp.
  assert (Hout : out = outputLines now c) by (by eapply buildApacheConfig_lines).
  destruct Hp as (Hok & Hsub & Hsig). rewrite firstn_all in Hsub, Hsig.
  split; [done|]. split; [done|]. split.
  - intros l Hin Hl. rewrite Hout. specialize (Hsig l Hin Hl).
    unfold components in Hsig. simpl in Hsig. rewrite app_nil_r in Hsig.
    unfold outputLines. rewrite !elem_of_app in Hsig. rewrite !elem_of_app.
    right. destruct Hsig as [H|[H|[H|[H|H]]]].
    + left. by apply elem_of_section.
    + right; left. by apply elem_of_section.
    + right; right; left. by apply elem_of_section.
    + right; right; right; left. by apply elem_of_section.
    + right; right; right; right. by apply elem_of_section.
  - intros l Hin. rewrite Hout in Hin. unfold outputLines in Hin.
    unfold components in Hsub.
    repeat match goal with H : Forall _ (_ :: _) |- _ => apply Forall_cons in H as [? H] end.
    assert (Hgen : forall h, h ∈ [lit "# Load Modules"; lit "# Server Configuration";
                                 lit "# Conditional Configuration";
                                 lit "# Directory Configuration"; lit "# Virtual Hosts"] ->
                             h ∈ generatedLines now).
    { intros h Hh. unfold generatedLines. apply elem_of_app. by right. }
    assert (Hsec : forall h comp, h ∈ generatedLines now -> sublist comp (split nl T) ->
                     l ∈ section h comp ->
                     l ∈ split nl T \/ l = [] \/ l ∈ generatedLines now).
    { intros h comp Hh Hc Hl. apply elem_of_section_inv in Hl as [-> | [Hl | ->]]; [tauto| |tauto].
      left. by eapply elem_of_sublist. }
    rewrite !elem_of_app in Hin.
    destruct Hin as [H'|[H'|[H'|[H'|[H'|H']]]]].
    + right; right. unfold generatedLines. apply elem_of_app. by left.
    + eapply Hsec; [| |exact H']; [apply Hgen; by_computation|done].
    + eapply Hsec; [| |exact H']; [apply Hgen; by_computation|done].
    + eapply Hsec; [| |exact H']; [apply Hgen; by_computation|done].
    + eapply Hsec; [| |exact H']; [apply Hgen; by_computation|done].
    + eapply Hsec; [| |exact H']; [apply Hgen; by_computation|done].
Qed.

(** A text with a module, a directive and a block. *)
Lemma roundtrip_sections_witness :
  let now := lit "2025-01-01T00:00:00.000Z" in
  let T := lit "Listen 80" ++ [nl] ++ lit "# note" ++ [nl]
           ++ lit "<VirtualHost *:443>" ++ [nl] ++ lit "  ServerName a" ++ [nl]
           ++ lit "</VirtualHost>" ++ [nl] ++ lit "LoadModule m modules/m.so" in
  let c := parseApacheConfig T in
  (nl ∉ now) /\ split nl (buildApacheConfig now c) = outputLines now c.
Proof.
  intros stamp T c.
  assert (H : nl ∉ stamp) by by_computation.
  split; [exact H|]. exact (proj1 (roundtrip_sections stamp T H)).
Defined.

End RoundTrip.

(* ========================================================================= *)
(** * The diff report *)
(* ========================================================================= *)

Section DiffReport.

(** C7, as stated, fails: the report carries the time of its generation.
    Two invocations on the same two texts, one after the other, write
    different reports. *)
Lemma diff_determinism_counterexample :
  let A := lit "Listen 80" in
  let B := lit "Listen 8080" in
  let w0 := mkWorld ∅ 0 in
  let w1 := snd (generateDiffReport (E := simpleExt) A B (lit "first.diff.txt") w0) in
  let w2 := snd (generateDiffReport (E := simpleExt) A B (lit "second.diff.txt") w1) in
  is_Some (files w2 !! lit "first.diff.txt")
  /\ is_Some (files w2 !! lit "second.diff.txt")
  /\ files w2 !! lit "first.diff.txt" <> files w2 !! lit "second.diff.txt".
Proof.
  intros A B w0 w1 w2.
  split; [|split]; by_computation.
Qed.

(** C7, amended.  The report is a function of the two texts and of the time
    at which it is generated: the third line is [Generated: ] followed by
    that time, every other line depends on the two texts only, and two
    invocations that read the same time write the same bytes. *)
Theorem diff_report_up_to_timestamp (t1 t2 A B : str) :
  take 2 (reportLines t1 A B) = take 2 (reportLines t2 A B)
  /\ drop 3 (reportLines t1 A B) = drop 3 (reportLines t2 A B)
  /\ reportLines t1 A B !! 2 = Some (lit "                    Generated: " ++ t1)
  /\ length (reportLines t1 A B) = length (reportLines t2 A B)
  /\ (forall (E : Ext) (w : world) (reportPath : path),
        files (snd (generateDiffReport A B reportPath w)) !! reportPath
        = Some (reportText (clock (ticks w)) A B)).
Proof.
  split; [done|]. split; [done|]. split; [done|]. split.
  - unfold reportLines. rewrite !length_app. simpl. done.
  - intros E w reportPath. unfold generateDiffReport, now, writeFile, modify, bind. simpl.
    by rewrite lookup_insert_eq.
Qed.

End DiffReport.

(* ========================================================================= *)
(** * The hardening step of the directive format *)
(* ========================================================================= *)

Section HardeningInclude.

Lemma appendInclude_lines (doc : str) :
  split nl (appendInclude doc) = split nl doc ++ includeTail.
Proof.
  unfold appendInclude, INCLUDE_SUFFIX.
  change ([nl; nl] ++ lit "# Include VAPT Security Hardening" ++ [nl] ++ INCLUDE_LINE ++ [nl])
    with (nl :: (nl :: lit "# Include VAPT Security Hardening" ++ [nl] ++ INCLUDE_LINE ++ [nl])).
  rewrite split_app_sep. f_equal.
Qed.

(** C4 at the directive format: the hardening step appends its [Include]
    line without looking for it.  Applied twice to any text it gives a
    different text than applied once, with the line twice. *)
Theorem hardening_include_appended_twice (doc : str) :
  appendInclude (appendInclude doc) <> appendInclude doc
  /\ split nl (appendInclude (appendInclude doc))
     = split nl doc ++ includeTail ++ includeTail
  /\ 2 <= length (List.filter (fun l => eqb l INCLUDE_LINE)
                    (split nl (appendInclude (appendInclude doc)))).
Proof.
  assert (Hlines : split nl (appendInclude (appendInclude doc))
                   = split nl doc ++ includeTail ++ includeTail).
  { by rewrite !appendInclude_lines, <- app_assoc. }
  split; [|split; [done|]].
  - intros Heq. apply (f_equal length) in Heq. unfold appendInclude in Heq.
    rewrite !length_app in Heq.
    assert (0 < length INCLUDE_SUFFIX) by (vm_compute; lia). lia.
  - rewrite Hlines, !List.filter_app, !length_app.
    assert (length (List.filter (fun l => eqb l INCLUDE_LINE) includeTail) = 1)
      as -> by (vm_compute; reflexivity).
    lia.
Qed.

End HardeningInclude.

(* ========================================================================= *)
(** * Scenario 1, run through the preservation step *)
(* ========================================================================= *)

Section Scenario1.

(** C6 (Scenario 1), evaluated on the code.  The preservation step merges
    [/old/conf/httpd.conf] into [/new/conf/httpd.conf].  The merged file has
    [ServerName old.example.com] and [Listen 8080] as the claim says, keeps
    the new version's [ServerTokens Full], and ends with
    [Include conf/extra/httpd-security-vapt.conf].  The hardening file, which
    sets [ServerTokens Prod], is written under [/new/conf/conf/extra], not
    under [/new/conf/extra] where the [Include] line points from the server
    root: read from the root [/new], the value in force is [Full].  Were the
    hardening file read at the [Include] line, the value would be [Prod]. *)
Theorem scenario1_hardening_file_misplaced :
  let final := default [] (files scenario1_after !! lit "/new/conf/httpd.conf") in
  settings final
  = [(lit "ServerName", lit "old.example.com");
     (lit "Listen", lit "8080");
     (lit "ServerTokens", lit "Full");
     (lit "Include", lit "conf/extra/httpd-security-vapt.conf")]
  /\ files scenario1_after !! lit "/new/conf/conf/extra/httpd-security-vapt.conf"
     = Some APACHE_VAPT_CONFIG
  /\ files scenario1_after !! lit "/new/conf/extra/httpd-security-vapt.conf" = None
  /\ lit "ServerTokens Prod" ∈ split nl APACHE_VAPT_CONFIG
  /\ effectiveValue (resolveFrom (lit "/new") scenario1_after) final (lit "ServerName")
     = Some (lit "old.example.com")
  /\ effectiveValue (resolveFrom (lit "/new") scenario1_after) final (lit "Listen")
     = Some (lit "8080")
  /\ effectiveValue (resolveFrom (lit "/new") scenario1_after) final (lit "ServerTokens")
     = Some (lit "Full")
  /\ effectiveValue (fun _ => Some APACHE_VAPT_CONFIG) final (lit "ServerTokens")
     = Some (lit "Prod").
Proof.
  intros final.
  repeat split; try by_computation; vm_compute; reflexivity.
Qed.

(** The merge call itself succeeds and reports the path it wrote to. *)
Lemma scenario1_merge_result :
  fst (smartMergeConfiguration (E := simpleExt) (lit "httpd")
         (lit "/old/conf/httpd.conf") (lit "/new/conf/httpd.conf")
         (lit "/new/conf/httpd.conf") scenario1_world)
  = Ok (mkMergeResult true false None None (Some 2) (Some 0)
          (Some (lit "/new/conf/httpd.conf.diff.txt"))
          (Some (lit "/new/conf/conf/extra/httpd-security-vapt.conf"))
          (Some [])).
Proof. vm_compute. reflexivity. Qed.

(** Scenario 2: one [VirtualHost] block in the old text, none in the new
    one; the merged text has that block, line for line. *)
Lemma scenario2_virtual_host :
  let old := lit "Listen 443" ++ [nl] ++ lit "<VirtualHost *:443>" ++ [nl]
             ++ lit "  <IfModule ssl_module>" ++ [nl] ++ lit "    SSLEngine on" ++ [nl]
             ++ lit "  </IfModule>" ++ [nl] ++ lit "</VirtualHost>" in
  let new := lit "Listen 80" in
  let merged := mergeApacheSettings (parseApacheConfig new)
                  (extractApacheUserSettings (parseApacheConfig old)) in
  List.map b_lines (virtualHosts merged)
  = [[lit "<VirtualHost *:443>"; lit "  <IfModule ssl_module>"; lit "    SSLEngine on";
      lit "  </IfModule>"; lit "</VirtualHost>"]]
  /\ drop 8 (split nl (buildApacheConfig (lit "2025-01-01T00:00:00.000Z") merged))
     = [lit "# Virtual Hosts"; lit "<VirtualHost *:443>"; lit "  <IfModule ssl_module>";
        lit "    SSLEngine on"; lit "  </IfModule>"; lit "</VirtualHost>"; []].
Proof. split; vm_compute; reflexivity. Qed.

End Scenario1.

(* ========================================================================= *)
(** * The upgrade route and the archive format *)
(* ========================================================================= *)

Section ArchiveFormat.

(** C8, as stated, fails: for a [.rar] upload on a system where every
    operation succeeds, the route tests the target, backs it up, creates the
    extraction directory and only then raises the format error; the backup
    has been made and the rollback restores the target from it. *)
Lemma unsupported_format_counterexample :
  supportedName (lit "httpd-2.4.62.rar") = false
  /\ resp_error (fst (upgrade allGood rarRequest tt))
     = Some (unsupportedMessage (lit "httpd-2.4.62.rar"))
  /\ trace (snd (upgrade allGood rarRequest tt))
     = [EvAccessTest (lit "/opt/httpd");
        EvBackup (lit "/opt/httpd") (lit "/backup");
        EvEnsureDir (lit "tempupgrade/httpd_20250101000000");
        EvStat (lit "uploads/3f2a");
        EvEnsureDir (lit "tempupgrade/httpd_20250101000000");
        EvPathExists (lit "/backup/httpd_20250101000000");
        EvRestoreFromFolder (lit "/backup/httpd_20250101000000") (lit "/opt/httpd");
        EvPathExists (lit "tempupgrade/httpd_20250101000000");
        EvRemove (lit "tempupgrade/httpd_20250101000000");
        EvPathExists (lit "uploads/3f2a");
        EvRemove (lit "uploads/3f2a")].
Proof. repeat split; vm_compute; reflexivity. Qed.

Lemma access_message_not_unsupported (target reason name : str) :
  accessMessage target reason <> unsupportedMessage name.
Proof. unfold accessMessage, unsupportedMessage. simpl. discriminate. Qed.

Lemma missing_file_message_not_unsupported (name : str) :
  lit "Cannot read properties of undefined (reading 'path')" <> unsupportedMessage name.
Proof. unfold unsupportedMessage. simpl. discriminate. Qed.

Context {World : Type} (os : Os World).

Ltac step_op :=
  match goal with
  | |- context [testPathAccess os ?a ?w] => destruct (testPathAccess os a w) as [[[] ?] ?] eqn:?
  | |- context [backupWithStructure os ?a ?b ?c ?w] =>
      destruct (backupWithStructure os a b c w) as [[?|?] ?] eqn:?
  | |- context [os_ensureDir os ?a ?w] => destruct (os_ensureDir os a w) as [[[]|?] ?] eqn:?
  | |- context [os_stat os ?a ?w] => destruct (os_stat os a w) as [[[]|?] ?] eqn:?
  | |- context [os_pathExists os ?a ?w] => destruct (os_pathExists os a w) as [[] ?] eqn:?
  | |- context [restoreFromFolder os ?a ?b ?w] =>
      destruct (restoreFromFolder os a b w) as [[[]|?] ?] eqn:?
  | |- context [restoreFromZip os ?a ?b ?w] =>
      destruct (restoreFromZip os a b w) as [[[]|?] ?] eqn:?
  | |- context [os_remove os ?a ?w] => destruct (os_remove os a w) as [[[]|?] ?] eqn:?
  | |- context [bool_decide ?P] => destruct (bool_decide P) eqn:?
  end; cbn -[join_path lit accessMessage unsupportedMessage].

Ltac open_monad :=
  unfold call_total, call, set_uploadedFilePath, set_backupFolder, set_tempDir,
    bind, try_catch, throw, ret, get, modify;
  cbn -[join_path lit accessMessage unsupportedMessage].

(** The rollback only adds calls that restore. *)
Lemma rollback_trace (cfg : UpgradeConfig) (st : state World) :
  exists evs, trace (snd (rollback os cfg st)) = trace st ++ evs /\ quiet evs.
Proof.
  unfold rollback. open_monad.
  repeat step_op;
    first [ by (exists []; rewrite app_nil_r; split; [done|constructor])
          | by (eexists [_]; split; [done|repeat constructor])
          | by (eexists [_; _]; split; [by rewrite <- !app_assoc|repeat constructor])
          | by (eexists [_; _; _]; split; [by rewrite <- !app_assoc|repeat constructor]) ].
Qed.

Lemma remove_if_present_trace (p : path) (st : state World) :
  exists evs, trace (snd (remove_if_present os p st)) = trace st ++ evs /\ quiet evs.
Proof.
  unfold remove_if_present. open_monad.
  repeat step_op;
    first [ by (exists []; rewrite app_nil_r; split; [done|constructor])
          | by (eexists [_]; split; [done|repeat constructor])
          | by (eexists [_; _]; split; [by rewrite <- !app_assoc|repeat constructor]) ].
Qed.

(** The cleanup only adds calls that look for a path or remove it. *)
Lemma cleanup_trace (st : state World) :
  exists evs, trace (snd (cleanup os st)) = trace st ++ evs /\ quiet evs.
Proof.
  unfold cleanup, try_catch, bind, get.
  destruct (remove_if_present_trace (tempDir st) st) as (evs1 & H1 & Hq1).
  destruct (remove_if_present os (tempDir st) st) as [[[]|e1] st1] eqn:Hr1; simpl in H1.
  - destruct (remove_if_present_trace (uploadedFilePath st) st1) as (evs2 & H2 & Hq2).
    destruct (remove_if_present os (uploadedFilePath st) st1) as [[[]|e2] st2]; simpl in *.
    + exists (evs1 ++ evs2). rewrite H2, H1, app_assoc. split; [done|]. by apply Forall_app.
    + exists (evs1 ++ evs2). rewrite H2, H1, app_assoc. split; [done|]. by apply Forall_app.
  - simpl. by exists evs1.
Qed.

(** With a backup folder on record, the rollback looks for it and restores
    from it, or looks for its archive. *)
Lemma rollback_ran (cfg : UpgradeConfig) (st : state World) :
  backupFolder st <> [] ->
  backupFolder (snd (rollback os cfg st)) = backupFolder st
  /\ exists post,
       trace (snd (rollback os cfg st)) = trace st ++ EvPathExists (backupFolder st) :: post
       /\ (head post = Some (EvRestoreFromFolder (backupFolder st) (existingPath cfg))
           \/ head post = Some (EvPathExists (backupFolder st ++ lit ".zip"))).
Proof.
  intros Hne. unfold rollback. open_monad.
  rewrite bool_decide_eq_false_2 by done.
  cbn -[join_path lit accessMessage unsupportedMessage].
  repeat step_op; (split; [done|]); eexists; (split; [by rewrite <- ?app_assoc|]);
    first [by left | by right].
Qed.

Lemma rollback_locals (cfg : UpgradeConfig) (st : state World) :
  backupFolder (snd (rollback os cfg st)) = backupFolder st.
Proof. unfold rollback. open_monad. by repeat step_op. Qed.

Lemma remove_if_present_locals (p : path) (st : state World) :
  backupFolder (snd (remove_if_present os p st)) = backupFolder st.
Proof. unfold remove_if_present. open_monad. by repeat step_op. Qed.

Lemma cleanup_locals (st : state World) :
  backupFolder (snd (cleanup os st)) = backupFolder st.
Proof.
  unfold cleanup, try_catch, bind, get.
  pose proof (remove_if_present_locals (tempDir st) st) as H1.
  destruct (remove_if_present os (tempDir st) st) as [[[]|e1] st1]; simpl in H1; [|done].
  pose proof (remove_if_present_locals (uploadedFilePath st) st1) as H2.
  destruct (remove_if_present os (uploadedFilePath st) st1) as [[[]|e2] st2]; simpl in *;
    congruence.
Qed.

(** The [try] block on an upload of an unsupported format: it throws, and
    has extracted nothing. *)
Lemma upgrade_try_unsupported (cfg : UpgradeConfig) (f : UploadedFile) (w : World) :
  supportedName (f_originalname f) = false ->
  exists e st,
    upgrade_try os cfg (Some f) (mkState w [] [] [] []) = (Throw e, st)
    /\ quiet (trace st)
    /\ (message e = unsupportedMessage (f_originalname f) ->
        exists rest, trace st = EvAccessTest (existingPath cfg)
                                :: EvBackup (existingPath cfg) (backupPath cfg) :: rest).
Proof.
  intros Hname. unfold supportedName in Hname.
  apply orb_false_iff in Hname as [Hname Htar].
  apply orb_false_iff in Hname as [Hname Htgz].
  apply orb_false_iff in Hname as [Hzip Htargz].
  unfold upgrade_try, extractArchive.
  rewrite Hzip, Htargz, Htgz, Htar.
  open_monad.
  repeat step_op;
    eexists _, _; (split; [reflexivity|]); cbn [trace message];
    (split; [repeat constructor|]);
    intros Herr;
    first [ by apply access_message_not_unsupported in Herr | by eexists ].
Qed.

(** C8, amended.  For an upload whose name ends in none of [.zip], [.tar],
    [.tar.gz], [.tgz], the route answers with a failure, and no archive
    entry is extracted and no later phase runs.  The format error is raised
    inside the extraction step: when it is the error reported, the access
    test and the backup step have run before it. *)
Theorem unsupported_format_fails_after_backup (cfg : UpgradeConfig) (f : UploadedFile) (w : World) :
  supportedName (f_originalname f) = false ->
  let result := upgrade os (mkRequest (Some cfg) (Some f)) w in
  success (fst result) = false
  /\ status (fst result) = 500
  /\ Forall (fun ev => isExtraction ev = false) (trace (snd result))
  /\ (resp_error (fst result) = Some (unsupportedMessage (f_originalname f)) ->
      exists rest, trace (snd result)
                   = EvAccessTest (existingPath cfg)
                     :: EvBackup (existingPath cfg) (backupPath cfg) :: rest)
  /\ (backupFolder (snd result) <> [] ->
      rollbackRan cfg (backupFolder (snd result)) (trace (snd result))).
Proof.
  intros Hname result. subst result.
  destruct (upgrade_try_unsupported cfg f w Hname) as (e & st & Htry & Hq & Hfirst).
  unfold upgrade. cbn [req_config req_file]. rewrite Htry.
  destruct (rollback_trace cfg st) as (evs1 & H1 & Hq1).
  pose proof (rollback_ran cfg st) as Hran.
  pose proof (rollback_locals cfg st) as Hloc1.
  destruct (rollback os cfg st) as [r1 st1]. simpl in H1, Hran, Hloc1.
  destruct (cleanup_trace st1) as (evs2 & H2 & Hq2).
  pose proof (cleanup_locals st1) as Hloc.
  destruct (cleanup os st1) as [r2 st2]. simpl in H2, Hloc.
  cbn [fst snd success status resp_error]. rewrite H2.
  split; [done|]. split; [done|]. split; [|split].
  - rewrite H1. apply Forall_app. split; [|done]. apply Forall_app. by split.
  - intros [= Herr]. destruct (Hfirst Herr) as [rest Hrest].
    exists (rest ++ evs1 ++ evs2). rewrite H1, Hrest. simpl. by rewrite <- app_assoc.
  - intros Hne.
    assert (Hst : backupFolder st <> []) by congruence.
    destruct (Hran Hst) as (Hbf & post & Htr & Hhead).
    rewrite Hloc, Hbf. exists (trace st), (post ++ evs2).
    rewrite Htr, <- app_assoc. split; [done|].
    destruct post as [|ev post]; [by destruct Hhead|]. done.
Qed.

End ArchiveFormat.

(** A [.rar] upload on a system where every operation succeeds. *)
Lemma unsupported_format_fails_after_backup_witness :
  supportedName (lit "httpd-2.4.62.rar") = false
  /\ success (fst (upgrade allGood rarRequest tt)) = false.
Proof.
  assert (H : supportedName (lit "httpd-2.4.62.rar") = false) by (vm_compute; reflexivity).
  split; [exact H|].
  exact (proj1 (unsupported_format_fails_after_backup allGood
                  (mkUpgradeConfig (lit "httpd") (lit "/opt/httpd") (lit "/backup") true true)
                  (mkUploadedFile (lit "uploads/3f2a") (lit "httpd-2.4.62.rar")) tt H)).
Defined.

(* ========================================================================= *)
(** * The fallback of the smart merge *)
(* ========================================================================= *)

Section Fallback.

(** C9, as stated, fails: the new version has no [conf/httpd.conf].  The
    merge throws when it reads that file, the fallback throws when it copies
    it, the engine throws the first error again, and the preservation step
    aborts because the item is critical. *)
Lemma merge_fallback_counterexample :
  let old := lit "/old/conf/httpd.conf" in
  let new := lit "/new/conf/httpd.conf" in
  (exists e, fst (smartMerge_try (E := simpleExt) (lit "httpd") old new new missingNewWorld)
             = Throw e)
  /\ fst (smartMergeConfiguration (E := simpleExt) (lit "httpd") old new new missingNewWorld)
     = Throw (enoent new)
  /\ files (snd (smartMergeConfiguration (E := simpleExt) (lit "httpd") old new new
                   missingNewWorld)) !! (new ++ lit ".old-backup") = None
  /\ fst (comprehensivePreserveHTTPD_SECURE (E := simpleExt) (lit "/old") (lit "/new")
            missingNewWorld)
     = Throw (mkError (lit "Failed to preserve critical item: conf/httpd.conf (ENOENT)") None).
Proof.
  intros old new. split; [|split; [|split]].
  - eexists. vm_compute. reflexivity.
  - vm_compute. reflexivity.
  - vm_compute. reflexivity.
  - vm_compute. reflexivity.
Qed.

Context {E : Ext}.

(** What the engine does once the merge has thrown. *)
Lemma smartMergeConfiguration_after_throw (toolType : str) (old new out : path)
    (w w1 : world) (e : error) :
  smartMerge_try toolType old new out w = (Throw e, w1) ->
  smartMergeConfiguration toolType old new out w = smartMerge_fallback old new out e w1.
Proof. intros Htry. unfold smartMergeConfiguration, try_catch. by rewrite Htry. Qed.

(** C9, amended.  When the smart merge of a configuration file throws, the
    engine copies the new version's file to the output path and the old
    file to [<output>.old-backup].  If both copies succeed it returns a
    result with [merged = false] and the first error's message, and the
    preservation loop counts the item and goes on to the next one.  If one
    of the copies fails, the engine throws the first error again; the
    preservation loop then aborts the run for a critical item and skips the
    item otherwise. *)
Theorem merge_fallback_non_fatal (toolType : str) (old new out : path)
    (w w1 : world) (e : error) :
  smartMerge_try toolType old new out w = (Throw e, w1) ->
  (forall w2 w3,
      copy new out w1 = (Ok tt, w2) ->
      copy old (out ++ lit ".old-backup") w2 = (Ok tt, w3) ->
      smartMergeConfiguration toolType old new out w = (Ok (fallbackResult e out), w3))
  /\ (forall e' w2,
        copy new out w1 = (Throw e', w2) ->
        smartMergeConfiguration toolType old new out w = (Throw e, w2))
  /\ (forall e' w2 w3,
        copy new out w1 = (Ok tt, w2) ->
        copy old (out ++ lit ".old-backup") w2 = (Throw e', w3) ->
        smartMergeConfiguration toolType old new out w = (Throw e, w3))
  /\ (forall oldHttpd newHttpd item counts,
        toolType = lit "httpd" ->
        old = join_path [oldHttpd; i_path item] ->
        new = join_path [newHttpd; i_path item] ->
        out = new ->
        i_type item = TMerge ->
        fst (pathExists old w) = Ok true ->
        preserveItem oldHttpd newHttpd counts item w
        = match smartMergeConfiguration toolType old new out w with
          | (Ok _, w') =>
              (Ok (mkCounts (S (preservedCount counts)) (mergedCount counts)
                     (skippedCount counts)), w')
          | (Throw _, w') =>
              if i_critical item then
                (Throw (mkError (lit "Failed to preserve critical item: " ++ i_path item
                                 ++ lit " (" ++ codeOrMessage e ++ lit ")") None), w')
              else
                (Ok (mkCounts (preservedCount counts) (mergedCount counts)
                       (S (skippedCount counts))), w')
          end).
Proof.
  intros Htry.
  pose proof (smartMergeConfiguration_after_throw _ _ _ _ _ _ _ Htry) as Hfb.
  split; [|split; [|split]].
  - intros w2 w3 H1 H2. rewrite Hfb.
    unfold smartMerge_fallback, try_catch, bind, ret. by rewrite H1, H2.
  - intros e' w2 H1. rewrite Hfb.
    unfold smartMerge_fallback, try_catch, bind, throw. by rewrite H1.
  - intros e' w2 w3 H1 H2. rewrite Hfb.
    unfold smartMerge_fallback, try_catch, bind, throw. by rewrite H1, H2.
  - intros oldHttpd newHttpd item counts -> -> -> -> Hty Hex.
    unfold preserveItem. rewrite Hty.
    unfold try_catch at 1. unfold bind at 1.
    unfold pathExists in *. simpl in Hex. injection Hex as Hex. rewrite Hex.
    cbn [negb]. unfold bind at 1. rewrite Hfb.
    unfold smartMerge_fallback, try_catch, bind, throw, ret.
    destruct (copy _ _ w1) as [[[]|e1] w2]; [|by destruct (i_critical item)].
    destruct (copy _ _ w2) as [[[]|e2] w3]; [done|by destruct (i_critical item)].
Qed.

End Fallback.

(** A tool type the merge has no case for: the merge throws, both copies
    succeed, and the result says [merged = false]. *)
Lemma merge_fallback_non_fatal_witness :
  let old := lit "/old/nginx.conf" in
  let new := lit "/new/nginx.conf" in
  let out := lit "/out/nginx.conf" in
  let e := mkError (lit "Unsupported tool type: nginx") None in
  smartMerge_try (E := simpleExt) (lit "nginx") old new out otherToolWorld
  = (Throw e, otherToolWorld)
  /\ exists w3, smartMergeConfiguration (E := simpleExt) (lit "nginx") old new out otherToolWorld
                = (Ok (fallbackResult e out), w3).
Proof.
  intros old new out e.
  assert (Htry : smartMerge_try (E := simpleExt) (lit "nginx") old new out otherToolWorld
                 = (Throw e, otherToolWorld)) by (vm_compute; reflexivity).
  split; [exact Htry|].
  eexists.
  eapply (proj1 (merge_fallback_non_fatal (E := simpleExt) (lit "nginx") old new out
                   otherToolWorld otherToolWorld e Htry)).
  - vm_compute. reflexivity.
  - vm_compute. reflexivity.
Defined.

(* ========================================================================= *)
(** * The merge and its input documents *)
(* ========================================================================= *)

Section HeapFacts.

Implicit Types (h : gmap positive obj) (v t x : val) (k : str).

Lemma bind_inv {S A B} (c : M S A) (f : A -> M S B) (s : S) (r : result B) (s' : S) :
  bind c f s = (r, s') ->
  (exists a s1, c s = (Ok a, s1) /\ f a s1 = (r, s'))
  \/ (exists e, c s = (Throw e, s') /\ r = Throw e).
Proof.
  unfold bind. destruct (c s) as [[a|e] s1]; intros H.
  - left. eauto.
  - right. injection H as <- <-. eauto.
Qed.

Lemma reads_preserves {A} (I : gmap positive obj -> Prop) (c : M (gmap positive obj) A) :
  reads c -> preserves I c.
Proof. intros Hc h r h' HI Hrun. by rewrite (Hc _ _ _ Hrun). Qed.

Lemma preserves_ret {A} (I : gmap positive obj -> Prop) (a : A) : preserves I (ret a).
Proof. intros h r h' HI [= <- <-]. done. Qed.

Lemma preserves_throw {A} (I : gmap positive obj -> Prop) (e : error) :
  preserves I (throw (A := A) e).
Proof. intros h r h' HI [= <- <-]. done. Qed.

(** Sequencing, with what is known of the first result. *)
Lemma preserves_bind {A B} (I : gmap positive obj -> Prop) (Q : A -> Prop)
    (c : M (gmap positive obj) A) (f : A -> M (gmap positive obj) B) :
  (forall h r h', I h -> c h = (r, h') -> I h' /\ forall a, r = Ok a -> Q a) ->
  (forall a, Q a -> preserves I (f a)) ->
  preserves I (bind c f).
Proof.
  intros Hc Hf h r h' HI Hrun.
  apply bind_inv in Hrun as [(a & h1 & Hc1 & Hf1)|(e & Hc1 & ->)].
  - destruct (Hc _ _ _ HI Hc1) as [HI1 HQ]. eapply Hf; [by apply HQ|exact HI1|exact Hf1].
  - by destruct (Hc _ _ _ HI Hc1).
Qed.

Lemma preserves_bind_reads {A B} (I : gmap positive obj -> Prop)
    (c : M (gmap positive obj) A) (f : A -> M (gmap positive obj) B) :
  reads c -> (forall a, preserves I (f a)) -> preserves I (bind c f).
Proof.
  intros Hc Hf. apply (preserves_bind I (fun _ => True)); [|by intros].
  intros h r h' HI Hrun. rewrite (Hc _ _ _ Hrun). done.
Qed.

Lemma reads_bind {A B} (c : M (gmap positive obj) A) (f : A -> M (gmap positive obj) B) :
  reads c -> (forall a, reads (f a)) -> reads (bind c f).
Proof.
  intros Hc Hf h r h' Hrun.
  apply bind_inv in Hrun as [(a & h1 & Hc1 & Hf1)|(e & Hc1 & ->)].
  - rewrite (Hf _ _ _ _ Hf1). by apply (Hc _ _ _ Hc1).
  - by apply (Hc _ _ _ Hc1).
Qed.

Lemma reads_ret {A} (a : A) : reads (ret (S := gmap positive obj) a).
Proof. by intros h r h' [= <- <-]. Qed.

Lemma reads_getProp v k : reads (getProp v k).
Proof.
  intros h r h'. unfold getProp.
  destruct v as [| | | |l]; try by intros [= <- <-].
  destruct (h !! l) as [[?|? ?]|]; by intros [= <- <-].
Qed.

Lemma reads_elemsOf v : reads (elemsOf v).
Proof.
  intros h r h'. unfold elemsOf.
  destruct v as [| | | |l]; try by intros [= <- <-].
  destruct (h !! l) as [[?|? ?]|]; by intros [= <- <-].
Qed.

Lemma reads_lengthOf v : reads (lengthOf v).
Proof. apply reads_bind; [apply reads_elemsOf|intros; apply reads_ret]. Qed.

Lemma reads_findIndex_list (p : val -> M (gmap positive obj) bool) (l : list val) (i : nat) :
  (forall x, reads (p x)) -> reads (findIndex_list p l i).
Proof.
  intros Hp. revert i. induction l as [|x l IH]; intros i; simpl; [apply reads_ret|].
  apply reads_bind; [apply Hp|]. intros [|]; [apply reads_ret|apply IH].
Qed.

Lemma reads_findIndexH v (p : val -> M (gmap positive obj) bool) :
  (forall x, reads (p x)) -> reads (findIndexH v p).
Proof.
  intros Hp. apply reads_bind; [apply reads_elemsOf|].
  intros l. by apply reads_findIndex_list.
Qed.

Lemma alloc_spec (o : obj) h r h' :
  alloc o h = (r, h') ->
  exists l, r = Ok (VRef l) /\ h !! l = None /\ h' = <[l := o]> h.
Proof.
  unfold alloc. intros [= <- <-]. exists (fresh (dom h)). split; [done|]. split; [|done].
  apply not_elem_of_dom. apply is_fresh.
Qed.

Lemma val_new_mono h0 h h' h'' v :
  h0 ⊆ h -> h' ⊆ h'' -> val_new h h' v -> val_new h0 h'' v.
Proof.
  intros H0 H1. destruct v as [| | | |a]; try done. simpl. intros [Hn [o Ho]]. split.
  - by eapply lookup_weaken_None.
  - exists o. by eapply lookup_weaken.
Qed.

Lemma cloneProps_spec (f : val -> M (gmap positive obj) val) (ps : list (str * val)) h r h' :
  copies f ->
  cloneProps f ps h = (r, h') ->
  h ⊆ h' /\ forall ps', r = Ok ps' -> Forall (val_new h h') (List.map snd ps').
Proof.
  intros Hf. revert h r h'. induction ps as [|[k x] ps IH]; intros h r h' Hrun; simpl in Hrun.
  - injection Hrun as <- <-. split; [done|]. intros ps' [= <-]. constructor.
  - assert (Hstep : (do x' <- f x ;; do rest' <- cloneProps f ps ;; ret ((k, x') :: rest')) h
                    = (r, h') ->
                    h ⊆ h' /\ forall ps', r = Ok ps' -> Forall (val_new h h') (List.map snd ps')).
    { clear Hrun. intros Hrun.
      apply bind_inv in Hrun as [(x' & h1 & Hx & Hrun)|(e & Hx & ->)].
      - destruct (Hf _ _ _ _ Hx) as [H01 Hx'].
        apply bind_inv in Hrun as [(rest' & h2 & Hrest & Hrun)|(e & Hrest & ->)].
        + destruct (IH _ _ _ Hrest) as [H12 Hrest'].
          injection Hrun as <- <-. split; [by etrans|].
          intros ps' [= <-]. simpl. constructor.
          * eapply val_new_mono; [reflexivity|exact H12|by apply Hx'].
          * eapply Forall_impl; [by apply Hrest'|].
            intros c Hc. eapply val_new_mono; [exact H01|reflexivity|exact Hc].
        + destruct (IH _ _ _ Hrest) as [H12 _]. split; [by etrans|done].
      - destruct (Hf _ _ _ _ Hx) as [H01 _]. done. }
    destruct x; try (by apply Hstep). by apply IH.
Qed.

Lemma cloneElems_spec (f : val -> M (gmap positive obj) val) (es : list val) h r h' :
  copies f ->
  cloneElems f es h = (r, h') ->
  h ⊆ h' /\ forall es', r = Ok es' -> Forall (val_new h h') es'.
Proof.
  intros Hf. revert h r h'. induction es as [|x es IH]; intros h r h' Hrun; simpl in Hrun.
  - injection Hrun as <- <-. split; [done|]. intros es' [= <-]. constructor.
  - apply bind_inv in Hrun as [(x' & h1 & Hx & Hrun)|(e & Hx & ->)].
    + assert (H01 : h ⊆ h1 /\ val_new h h1 x').
      { destruct x; try (destruct (Hf _ _ _ _ Hx) as [? Hx']; split; [done|by apply Hx']).
        injection Hx as <- <-. done. }
      destruct H01 as [H01 Hx'].
      apply bind_inv in Hrun as [(rest' & h2 & Hrest & Hrun)|(e & Hrest & ->)].
      * destruct (IH _ _ _ Hrest) as [H12 Hrest'].
        injection Hrun as <- <-. split; [by etrans|].
        intros es' [= <-]. constructor.
        -- eapply val_new_mono; [reflexivity|exact H12|exact Hx'].
        -- eapply Forall_impl; [by apply Hrest'|].
           intros c Hc. eapply val_new_mono; [exact H01|reflexivity|exact Hc].
      * destruct (IH _ _ _ Hrest) as [H12 _]. split; [by etrans|done].
    + split; [|done]. destruct x; try (by destruct (Hf _ _ _ _ Hx)). by injection Hx as _ <-.
Qed.

Lemma alloc_new_object (o : obj) h h1 r h' :
  h ⊆ h1 ->
  Forall (val_new h h1) (obj_vals o) ->
  alloc o h1 = (r, h') ->
  h ⊆ h' /\ exists m, r = Ok (VRef m) /\ val_new h h' (VRef m) /\ new_object h h' m.
Proof.
  intros H01 Hvals Halloc.
  apply alloc_spec in Halloc as (m & -> & Hm & ->).
  assert (H1 : h1 ⊆ <[m := o]> h1) by (by apply insert_subseteq).
  split; [by etrans|]. exists m. split; [done|]. split.
  - split; [by eapply lookup_weaken_None|]. rewrite lookup_insert_eq. by eexists.
  - exists o. split; [by rewrite lookup_insert_eq|].
    eapply Forall_impl; [exact Hvals|]. intros c Hc. split.
    + eapply val_new_mono; [reflexivity|exact H1|exact Hc].
    + intros ->. destruct Hc as [_ [o' Ho']]. congruence.
Qed.

Lemma clone_spec (fuel : nat) v h r h' :
  clone fuel v h = (r, h') ->
  h ⊆ h' /\ forall v', r = Ok v' ->
              val_new h h' v' /\ forall m, v' = VRef m -> new_object h h' m.
Proof.
  revert v h r h'. induction fuel as [|fuel IH]; intros v h r h' Hrun.
  - destruct v; simpl in Hrun; injection Hrun as <- <-; split; try done;
      intros v' [= <-]; done.
  - destruct v as [| | | |l]; simpl in Hrun;
      try (injection Hrun as <- <-; split; [done|]; intros v' [= <-]; done).
    assert (Hcopies : copies (clone fuel)).
    { intros x hx rx hx' Hx. destruct (IH _ _ _ _ Hx) as [Hsub Hv]. split; [done|].
      intros x' Hx'. by destruct (Hv x' Hx'). }
    destruct (h !! l) as [[props|elems props]|] eqn:Hl.
    + apply bind_inv in Hrun as [(ps' & h1 & Hps & Halloc)|(e & Hps & ->)].
      * destruct (cloneProps_spec _ _ _ _ _ Hcopies Hps) as [H01 Hvals].
        destruct (alloc_new_object (Obj ps') h h1 r h' H01 (Hvals ps' eq_refl) Halloc)
          as (Hsub & m & -> & Hnew & Hobj).
        split; [done|]. intros v' [= <-]. split; [done|]. by intros m' [= <-].
      * destruct (cloneProps_spec _ _ _ _ _ Hcopies Hps) as [H01 _]. done.
    + apply bind_inv in Hrun as [(es' & h1 & Hes & Halloc)|(e & Hes & ->)].
      * destruct (cloneElems_spec _ _ _ _ _ Hcopies Hes) as [H01 Hvals].
        assert (Hall : Forall (val_new h h1) (obj_vals (Arr es' []))).
        { simpl. rewrite app_nil_r. by apply Hvals. }
        destruct (alloc_new_object (Arr es' []) h h1 r h' H01 Hall Halloc)
          as (Hsub & m & -> & Hnew & Hobj).
        split; [done|]. intros v' [= <-]. split; [done|]. by intros m' [= <-].
      * destruct (cloneElems_spec _ _ _ _ _ Hcopies Hes) as [H01 _]. done.
    + injection Hrun as <- <-. done.
Qed.

(** After the deep copy: the caller's heap is untouched and the copy is new. *)
Lemma json_cloneH_spec v h r h' :
  json_cloneH v h = (r, h') ->
  h ⊆ h' /\ forall merged, r = Ok merged -> merged_inv h merged h'.
Proof.
  intros Hrun.
  assert (Hc : clone (S (size h)) v h = (r, h') \/ (r = Throw (mkError (lit "undefined is not valid JSON") None) /\ h' = h)).
  { destruct v; try (by left). right. by injection Hrun as <- <-. }
  destruct Hc as [Hc|[-> ->]]; [|done].
  destruct (clone_spec _ _ _ _ _ Hc) as [Hsub Hv]. split; [done|].
  intros merged ->. destruct (Hv merged eq_refl) as [Hnew Hobj].
  split; [done|]. destruct merged as [| | | |m]; try done.
  destruct Hnew as [Hm _]. split; [done|].
  destruct (Hobj m eq_refl) as (o & Ho & Hall). exists o. split; [done|].
  eapply Forall_impl; [exact Hall|].
  intros c [Hc1 Hc2]. destruct c as [| | | |a]; try done. simpl.
  destruct Hc1 as [Ha _]. split; [done|]. congruence.
Qed.

Lemma assoc_elem (k : str) (ps : list (str * val)) :
  assoc k ps = VUndef \/ assoc k ps ∈ List.map snd ps.
Proof.
  induction ps as [|[k' x] ps IH]; simpl; [by left|].
  destruct (eqb k' k).
  - right. by left.
  - destruct IH as [IH|IH]; [by left|right; by right].
Qed.

(** A part read off the merged document may be written through. *)
Lemma getProp_merged (h0 : gmap positive obj) (merged : val) k h t h' :
  merged_inv h0 merged h ->
  getProp merged k h = (Ok t, h') ->
  target_ok h0 merged t.
Proof.
  intros [Hsub Hm] Hget. unfold getProp in Hget.
  destruct merged as [| | | |m]; try done; try (by injection Hget as <- _).
  destruct Hm as (Hfresh & o & Ho & Hall). rewrite Ho in Hget.
  rewrite Forall_forall in Hall.
  destruct o as [ps|es ps]; injection Hget as <- _.
  - destruct (assoc_elem k ps) as [->|Hin]; [done|]. by apply Hall.
  - destruct (assoc_elem k ps) as [->|Hin]; [done|]. apply Hall. simpl.
    apply elem_of_app. by right.
Qed.

(** A write through such a part keeps the state of the merge. *)
Lemma merged_inv_insert (h0 : gmap positive obj) (merged : val) h (a : positive) (o : obj) :
  merged_inv h0 merged h -> target_ok h0 merged (VRef a) ->
  merged_inv h0 merged (<[a := o]> h).
Proof.
  intros [Hsub Hm] [Ha Hne]. split.
  - by apply insert_subseteq_r.
  - destruct merged as [| | | |m]; try done.
    destruct Hm as (Hfresh & om & Hom & Hall). split; [done|]. exists om. split; [|done].
    rewrite lookup_insert_ne; [done|]. congruence.
Qed.

Lemma preserves_setIndex (h0 : gmap positive obj) (merged : val) t (i : nat) x :
  target_ok h0 merged t -> preserves (merged_inv h0 merged) (setIndex t i x).
Proof.
  intros Ht h r h' HI Hrun. unfold setIndex in Hrun.
  destruct t as [| | | |a]; try (by injection Hrun as <- <-).
  destruct (h !! a) as [[?|? ?]|]; try (by injection Hrun as <- <-).
  injection Hrun as <- <-. by apply merged_inv_insert.
Qed.

Lemma preserves_push (h0 : gmap positive obj) (merged : val) t (xs : list val) :
  target_ok h0 merged t -> preserves (merged_inv h0 merged) (push t xs).
Proof.
  intros Ht h r h' HI Hrun. unfold push in Hrun.
  destruct t as [| | | |a]; try (by injection Hrun as <- <-).
  destruct (h !! a) as [[?|? ?]|]; try (by injection Hrun as <- <-).
  injection Hrun as <- <-. by apply merged_inv_insert.
Qed.

Lemma preserves_forEach_from (I : gmap positive obj -> Prop) v
    (f : val -> M (gmap positive obj) unit) (n i : nat) :
  (forall x, preserves I (f x)) -> preserves I (forEach_from v f n i).
Proof.
  intros Hf. revert i. induction n as [|n IH]; intros i; simpl; [apply preserves_ret|].
  apply preserves_bind_reads; [apply reads_elemsOf|]. intros elems.
  apply (preserves_bind I (fun _ => True)); [|intros; apply IH].
  intros h r h' HI Hrun. split; [|done].
  destruct (elems !! i); [by eapply Hf|]. by injection Hrun as _ <-.
Qed.

Lemma preserves_forEach (I : gmap positive obj -> Prop) v (f : val -> M (gmap positive obj) unit) :
  (forall x, preserves I (f x)) -> preserves I (forEach v f).
Proof.
  intros Hf. apply preserves_bind_reads; [apply reads_lengthOf|].
  intros n. by apply preserves_forEach_from.
Qed.

(** Reading a part of the merged document, with what is known of it. *)
Lemma getProp_merged_step (h0 : gmap positive obj) (merged : val) k h r h' :
  merged_inv h0 merged h -> getProp merged k h = (r, h') ->
  merged_inv h0 merged h' /\ forall t, r = Ok t -> target_ok h0 merged t.
Proof.
  intros HI Hget. rewrite (reads_getProp _ _ _ _ _ Hget). split; [done|].
  intros t ->. by eapply getProp_merged.
Qed.

Lemma preserves_mergeDirectiveH (h0 : gmap positive obj) (merged userDir : val) :
  preserves (merged_inv h0 merged) (mergeDirectiveH merged userDir).
Proof.
  unfold mergeDirectiveH.
  apply preserves_bind_reads; [apply reads_getProp|]. intros name.
  destruct (isSecurityName name); [apply preserves_ret|].
  apply (preserves_bind _ (target_ok h0 merged)).
  { intros h r h' HI Hget. by eapply getProp_merged_step. }
  intros mdirs Hmdirs.
  apply preserves_bind_reads.
  { apply reads_findIndexH. intros x. apply reads_bind; [apply reads_getProp|].
    intros; apply reads_ret. }
  intros [i|]; [by apply preserves_setIndex|by apply preserves_push].
Qed.

Lemma preserves_pushAllH (h0 : gmap positive obj) (merged cust : val) (field : str) :
  preserves (merged_inv h0 merged) (pushAllH merged cust field).
Proof.
  unfold pushAllH.
  apply (preserves_bind _ (target_ok h0 merged)).
  { intros h r h' HI Hget. by eapply getProp_merged_step. }
  intros target Htarget.
  apply preserves_bind_reads; [apply reads_getProp|]. intros source.
  apply preserves_bind_reads; [apply reads_elemsOf|]. intros _.
  apply preserves_bind_reads; [apply reads_elemsOf|]. intros xs.
  by apply preserves_push.
Qed.

End HeapFacts.

Section Inputs.

(** C10, as stated, fails for the XML format.  The in-memory merge works on
    the parsed new document itself and shares objects of the old one: after
    it, the new document's [Server] has the hardened shutdown port, the old
    document's connector is an element of the new document's connector list
    and has received the hardening attributes. *)
Lemma merge_mutates_inputs_counterexample :
  exampleHeap !! 4%positive = Some (Obj [attr "@_port" "9443"; attr "@_SSLEnabled" "true"])
  /\ exampleAfter !! 4%positive <> exampleHeap !! 4%positive
  /\ fst (getProp (VRef 4) (lit "@_allowTrace") exampleAfter) = Ok (VStr (lit "false"))
  /\ fst (getProp (VRef 6) (lit "@_port") exampleHeap) = Ok (VStr (lit "8005"))
  /\ exampleAfter !! 6%positive <> exampleHeap !! 6%positive
  /\ fst (getProp (VRef 6) (lit "@_port") exampleAfter) = Ok (VStr (lit "-1"))
  /\ exists a, fst (getProp (VRef 7) (lit "Connector") exampleAfter) = Ok (VRef a)
               /\ fst (elemsOf (VRef a) exampleAfter) = Ok [VRef 8; VRef 4].
Proof.
  split; [vm_compute; reflexivity|].
  split; [by_computation|].
  split; [vm_compute; reflexivity|].
  split; [vm_compute; reflexivity|].
  split; [by_computation|].
  split; [vm_compute; reflexivity|].
  eexists. split; vm_compute; reflexivity.
Qed.

(** C10, amended: the directive format.  Whatever the heap and the two
    arguments, and whether the merge returns or throws, every object the
    caller's heap holds is the same afterwards: the parsed new document is
    only copied and the user settings of the old one are only read.  The
    merged document, when one is returned, is an object the caller's heap
    did not have. *)
Theorem directive_merge_leaves_inputs (newConfig userCustomizations : val)
    (h : gmap positive obj) :
  let result := mergeApacheSettingsH newConfig userCustomizations h in
  (forall l o, h !! l = Some o -> snd result !! l = Some o)
  /\ (forall m, fst result = Ok (VRef m) -> h !! m = None /\ is_Some (snd result !! m)).
Proof.
  intros result. subst result.
  destruct (mergeApacheSettingsH newConfig userCustomizations h) as [r h'] eqn:Hrun.
  unfold mergeApacheSettingsH in Hrun.
  apply bind_inv in Hrun as [(merged & h1 & Hclone & Hrun)|(e & Hclone & ->)].
  - destruct (json_cloneH_spec _ _ _ _ Hclone) as [_ Hinv].
    specialize (Hinv merged eq_refl).
    assert (Hkeep : preserves (merged_inv h merged)
              (do udirs <- getProp userCustomizations (lit "directives") ;;
               run forEach udirs (mergeDirectiveH merged) ;;
               run pushAllH merged userCustomizations (lit "virtualHosts") ;;
               run pushAllH merged userCustomizations (lit "directories") ;;
               run pushAllH merged userCustomizations (lit "modules") ;;
               ret merged)).
    { apply preserves_bind_reads; [apply reads_getProp|]. intros udirs.
      apply (preserves_bind _ (fun _ => True)); [|intros _ _].
      { intros h2 r2 h2' HI Hr. split; [|done].
        eapply preserves_forEach; [|exact HI|exact Hr].
        intros x. apply preserves_mergeDirectiveH. }
      apply (preserves_bind _ (fun _ => True)); [|intros _ _].
      { intros h2 r2 h2' HI Hr. split; [|done]. by eapply preserves_pushAllH. }
      apply (preserves_bind _ (fun _ => True)); [|intros _ _].
      { intros h2 r2 h2' HI Hr. split; [|done]. by eapply preserves_pushAllH. }
      apply (preserves_bind _ (fun _ => True)); [|intros _ _].
      { intros h2 r2 h2' HI Hr. split; [|done]. by eapply preserves_pushAllH. }
      apply preserves_ret. }
    destruct (Hkeep _ _ _ Hinv Hrun) as [Hsub Hm]. simpl. split.
    + intros l o Hl. by eapply lookup_weaken.
    + intros m ->.
      assert (Hret : merged = VRef m).
      { clear -Hrun.
        repeat (apply bind_inv in Hrun as [(? & ? & _ & Hrun)|(? & _ & ?)]; [|done]).
        by injection Hrun as -> _. }
      subst merged. destruct Hm as (Hfresh & o & Ho & _). split; [done|by eexists].
  - destruct (json_cloneH_spec _ _ _ _ Hclone) as [Hsub _]. simpl. split.
    + intros l o Hl. by eapply lookup_weaken.
    + intros m [=].
Qed.

(** The merge on the objects of a parsed document does what the merge on
    values does: [Listen 80] is replaced by the object of [Listen 8080], the
    block is appended, and the caller's objects are as before. *)
Lemma directive_merge_run :
  let result := mergeApacheSettingsH (VRef 1) (VRef 10) directiveHeap in
  exists m ds vs,
    fst result = Ok (VRef m)
    /\ fst (getProp (VRef m) (lit "directives") (snd result)) = Ok (VRef ds)
    /\ fst (elemsOf (VRef ds) (snd result)) = Ok [VRef 15]
    /\ fst (getProp (VRef m) (lit "virtualHosts") (snd result)) = Ok (VRef vs)
    /\ fst (elemsOf (VRef vs) (snd result)) = Ok [VRef 16]
    /\ Forall (fun l => snd result !! l = directiveHeap !! l)
         (List.map Pos.of_nat (seq 1 17)).
Proof.
  intros result. eexists _, _, _.
  split; [vm_compute; reflexivity|].
  split; [vm_compute; reflexivity|].
  split; [vm_compute; reflexivity|].
  split; [vm_compute; reflexivity|].
  split; [vm_compute; reflexivity|].
  by_computation.
Qed.

End Inputs.

Section HardeningRuns.

(** The merge has no test for a line it has already added: run on a new
    configuration that is its own output, it writes the [Include] line a
    second time. *)
Lemma hardening_rerun_duplicates_include :
  includeCount (default [] (files scenario1_after !! lit "/new/conf/httpd.conf")) = 1
  /\ includeCount (default [] (files scenario1_rerun !! lit "/new/conf/httpd.conf")) = 2.
Proof. split; vm_compute; reflexivity. Qed.

(** The XML format does test before it adds: on this document the second
    application of the hardening changes no object, and the host has one
    valve, the shared [ErrorReportValve]. *)
Lemma xml_hardening_twice_example :
  hardenedTwice = hardenedOnce
  /\ exists a, fst (getProp (VRef 8) (lit "Valve") hardenedTwice) = Ok (VRef a)
               /\ fst (elemsOf (VRef a) hardenedTwice) = Ok [VRef 9].
Proof.
  split; [by_computation|].
  eexists. split; vm_compute; reflexivity.
Qed.

End HardeningRuns.

(* ========================================================================= *)
(** * Checks of the primitives on examples *)
(* ========================================================================= *)

Section Checks.

Example of_Z_negative : of_Z (-120)%Z = lit "-120".
Proof. vm_compute. reflexivity. Qed.

Example of_nat_zero : of_nat 0 = lit "0".
Proof. vm_compute. reflexivity. Qed.

Example of_nat_thousand : of_nat 1000 = lit "1000".
Proof. vm_compute. reflexivity. Qed.

Example hardening_text_length : length APACHE_VAPT_CONFIG = 2945.
Proof. vm_compute. reflexivity. Qed.

Example trim_example : trim (lit "  Listen 80 " ++ [13%N]) = lit "Listen 80".
Proof. vm_compute. reflexivity. Qed.

Example split_ws_example :
  split_ws (lit "Header  set X") = [lit "Header"; lit "set"; lit "X"].
Proof. vm_compute. reflexivity. Qed.

Example split_ws_leading : split_ws (lit " a") = [[]; lit "a"].
Proof. vm_compute. reflexivity. Qed.

Example dirname_conf : dirname (lit "/new/conf/httpd.conf") = lit "/new/conf".
Proof. vm_compute. reflexivity. Qed.

Example dirname_root : dirname (lit "/httpd.conf") = lit "/".
Proof. vm_compute. reflexivity. Qed.

Example dirname_relative : dirname (lit "httpd.conf") = lit ".".
Proof. vm_compute. reflexivity. Qed.

Example join_path_example :
  join_path [lit "/new/conf"; lit "conf"; lit "extra"; lit "httpd-security-vapt.conf"]
  = lit "/new/conf/conf/extra/httpd-security-vapt.conf".
Proof. vm_compute. reflexivity. Qed.

Example join_path_dots : join_path [lit "/new/"; lit "../conf/./httpd.conf"] = lit "/conf/httpd.conf".
Proof. vm_compute. reflexivity. Qed.

Example parse_scenario_new :
  settings scenario1_new
  = [(lit "ServerName", lit "default"); (lit "Listen", lit "80");
     (lit "ServerTokens", lit "Full")].
Proof. vm_compute. reflexivity. Qed.

(** A block that is never closed runs to the end of the text. *)
Example parse_unclosed_block :
  List.map b_lines (virtualHosts (parseApacheConfig
     (lit "<VirtualHost *:80>" ++ [nl] ++ lit "Listen 80")))
  = [[lit "<VirtualHost *:80>"; lit "Listen 80"]].
Proof. vm_compute. reflexivity. Qed.

(** Scenario 3 on the parsed XML: the old connector on port 8443 has
    [SSLEnabled]; the merged connector of that port has it too, with the
    hardening attributes. *)
Example scenario3_connector :
  let h := list_to_map
    [(1%positive, Obj [(lit "Server", VRef 2)]);
     (2%positive, Obj [(lit "Service", VRef 3)]);
     (3%positive, Obj [(lit "Connector", VRef 4)]);
     (4%positive, Obj [attr "@_port" "8443"; attr "@_SSLEnabled" "true"]);
     (5%positive, Obj [(lit "Server", VRef 6)]);
     (6%positive, Obj [(lit "Service", VRef 7)]);
     (7%positive, Obj [(lit "Connector", VRef 8)]);
     (8%positive, Obj [attr "@_port" "8443"]);
     (9%positive, VAPT_valve)] in
  let h' := snd (mergeTomcatDocuments (lit "k3x9q") (VRef 9) (VRef 1) (VRef 5) h) in
  exists a c,
    fst (getProp (VRef 7) (lit "Connector") h') = Ok (VRef a)
    /\ fst (elemsOf (VRef a) h') = Ok [VRef c]
    /\ fst (getProp (VRef c) (lit "@_port") h') = Ok (VStr (lit "8443"))
    /\ fst (getProp (VRef c) (lit "@_SSLEnabled") h') = Ok (VStr (lit "true"))
    /\ fst (getProp (VRef c) (lit "@_sslEnabledProtocols") h') = Ok (VStr (lit "TLSv1.2,TLSv1.3")).
Proof.
  intros h h'. eexists _, _.
  repeat split; vm_compute; reflexivity.
Qed.

End Checks.

(* ========================================================================= *)
(** * Time stamps and folder names *)
(* ========================================================================= *)

Section Stamps.

(** A decimal digit. *)
Local Abbreviation isDigit := (fun c : N => (48 <= c)%N /\ (c <= 57)%N).

Lemma filter_keeps_all {A} (f : A -> bool) (l : list A) :
  Forall (fun x => f x = true) l -> List.filter f l = l.
Proof.
  induction 1 as [|x l Hx Hl IH]; [done|]. simpl. by rewrite Hx, IH.
Qed.

Lemma digit_not_separator (c : N) :
  isDigit c -> negb (Server.isStampSeparator c) = true.
Proof.
  intros [Hlo Hhi]. apply negb_true_iff, bool_decide_eq_false.
  rewrite !elem_of_cons, elem_of_nil. lia.
Qed.

Lemma filter_digits (l : str) :
  Forall isDigit l ->
  List.filter (fun c => negb (Server.isStampSeparator c)) l = l.
Proof.
  intros H. apply filter_keeps_all.
  eapply Forall_impl; [exact H|]. apply digit_not_separator.
Qed.

(** X1 (time stamp).  For a time in the format of [toISOString],
    [YYYY-MM-DDTHH:mm:ss.sssZ], the stamp of [now()] is the fourteen digits
    [YYYYMMDDHHmmss]: the date and the time to the second, the milliseconds
    and the zone letter being cut off. *)
Theorem stamp_of_iso_time (y mo d h mi s ms : str) :
  length y = 4 -> length mo = 2 -> length d = 2 ->
  length h = 2 -> length mi = 2 -> length s = 2 ->
  Forall isDigit (y ++ mo ++ d ++ h ++ mi ++ s ++ ms) ->
  Server.stampOf (y ++ lit "-" ++ mo ++ lit "-" ++ d ++ lit "T" ++ h ++ lit ":" ++ mi
                  ++ lit ":" ++ s ++ lit "." ++ ms ++ lit "Z")
  = y ++ mo ++ d ++ h ++ mi ++ s.
Proof.
  intros Hy Hmo Hd Hh Hmi Hs Hall.
  rewrite !Forall_app in Hall.
  destruct Hall as (Dy & Dmo & Dd & Dh & Dmi & Ds & Dms).
  unfold Server.stampOf.
  rewrite !List.filter_app.
  change (List.filter _ (lit "-")) with (@nil N).
  change (List.filter _ (lit "T")) with (@nil N).
  change (List.filter _ (lit ":")) with (@nil N).
  change (List.filter _ (lit ".")) with (@nil N).
  change (List.filter _ (lit "Z")) with (lit "Z").
  rewrite (filter_digits y), (filter_digits mo), (filter_digits d), (filter_digits h),
    (filter_digits mi), (filter_digits s), (filter_digits ms) by done.
  simpl app.
  replace (y ++ mo ++ d ++ h ++ mi ++ s ++ ms ++ lit "Z")
    with ((y ++ mo ++ d ++ h ++ mi ++ s) ++ ms ++ lit "Z")
    by (by rewrite <- !app_assoc).
  rewrite take_app_length'; [done|].
  rewrite !length_app. lia.
Qed.

Lemma stamp_of_iso_time_witness :
  Server.stampOf (lit "2025-01-02T03:04:05.678Z") = lit "20250102030405".
Proof.
  apply (stamp_of_iso_time (lit "2025") (lit "01") (lit "02") (lit "03") (lit "04")
           (lit "05") (lit "678")); try reflexivity.
  eapply bool_decide_eq_true_1. vm_compute. reflexivity.
Defined.

End Stamps.

Section FolderNames.

(** A path segment that [path.normalize] keeps as it is. *)
Local Abbreviation regular :=
  (fun seg : list N => seg <> [] /\ seg <> lit "." /\ seg <> lit "..").

Lemma normalize_segments_snoc (b : bool) (segs acc : list str) (x : str) :
  regular x ->
  normalize_segments b (segs ++ [x]) acc = normalize_segments b segs acc ++ [x].
Proof.
  intros (Hne & Hdot & Hdots).
  revert acc. induction segs as [|seg segs IH]; intros acc; simpl.
  - rewrite bool_decide_eq_false_2 by done.
    unfold eqb. rewrite !bool_decide_eq_false_2 by done. done.
  - repeat match goal with
           | |- context [if ?c then _ else _] => destruct c
           | |- context [match ?a with [] => _ | _ :: _ => _ end] => destruct a
           end; apply IH.
Qed.

Lemma normalize_segments_Forall (P : str -> Prop) (b : bool) (segs acc : list str) :
  Forall P segs -> Forall P acc -> Forall P (normalize_segments b segs acc).
Proof.
  intros Hsegs. revert acc. induction Hsegs as [|seg segs Hseg Hsegs IH]; intros acc Hacc; simpl.
  - by apply Forall_rev.
  - repeat match goal with
           | |- context [if ?c then _ else _] => destruct c
           | |- context [match ?a with [] => _ | _ :: _ => _ end] => destruct a
           end; apply IH; repeat constructor; try done;
      by inversion Hacc.
Qed.

Lemma join_snoc (sep : str) (l : list str) (x : str) :
  l <> [] -> join sep (l ++ [x]) = join sep l ++ sep ++ x.
Proof.
  induction l as [|a l IH]; intros Hne; [done|].
  destruct l as [|a' l]; [done|].
  change (join sep ((a :: a' :: l) ++ [x])) with (a ++ sep ++ join sep ((a' :: l) ++ [x])).
  rewrite IH by done.
  change (join sep (a :: a' :: l)) with (a ++ sep ++ join sep (a' :: l)).
  by rewrite <- !app_assoc.
Qed.

Lemma join_nonempty (sep : str) (l : list str) (x : str) :
  x <> [] -> join sep (l ++ [x]) <> [].
Proof.
  intros Hx. destruct l as [|a l]; [done|].
  rewrite join_snoc by done. intros H.
  apply app_eq_nil in H as [_ H]. apply app_eq_nil in H as [_ H]. done.
Qed.

Lemma endsWith_slash_app (a l : str) :
  l <> [] -> slash ∉ l -> endsWith [slash] (a ++ l) = false.
Proof.
  intros Hne Hnot. unfold endsWith. rewrite rev_app_distr.
  destruct (rev l) as [|c rl] eqn:Hrev.
  - apply (f_equal (@rev N)) in Hrev. rewrite rev_involutive in Hrev. done.
  - assert (Hc : c ∈ l).
    { apply list_elem_of_In, in_rev. rewrite Hrev. by left. }
    change (rev [slash]) with [slash]. cbn [app startsWith]. rewrite andb_true_r.
    apply N.eqb_neq. intros Heq. by subst c.
Qed.

Lemma isWord_not_slash (c : N) : Server.isWord c = true -> c <> slash.
Proof. intros H ->. vm_compute in H. done. Qed.

Lemma stampedName_no_slash (toolType stamp : str) :
  slash ∉ stamp -> slash ∉ Server.stampedName toolType stamp.
Proof.
  intros Hs. unfold Server.stampedName, Server.toolSanitized.
  rewrite !elem_of_app. intros [H|[H|H]]; [| |done].
  - apply list_elem_of_In, List.filter_In in H as [_ H]. by apply isWord_not_slash in H.
  - apply list_elem_of_singleton in H. done.
Qed.

Lemma stampedName_regular (toolType stamp : str) :
  regular (Server.stampedName toolType stamp).
Proof.
  assert (Hin : 95%N ∈ Server.stampedName toolType stamp).
  { unfold Server.stampedName. rewrite !elem_of_app. right. left. by left. }
  repeat split; intros Heq; rewrite Heq in Hin;
    repeat (apply elem_of_cons in Hin as [Hin|Hin]; [done|]); by apply elem_of_nil in Hin.
Qed.

(** [path.normalize] of a path whose last segment is a regular one. *)
Lemma normalize_with_last (c0 : N) (r : path) (segs : list str) (name : str) :
  endsWith [slash] (c0 :: r) = false ->
  split slash (c0 :: r) = segs ++ [name] ->
  regular name ->
  normalize (c0 :: r)
  = (if (c0 =? slash)%N then [slash] else [])
    ++ join [slash] (normalize_segments (negb (c0 =? slash)%N) segs [] ++ [name]).
Proof.
  intros Hend Hsplit Hreg. pose proof Hreg as (Hne & _ & _).
  unfold normalize. rewrite Hend, Hsplit, normalize_segments_snoc by done.
  set (ns := normalize_segments (negb (c0 =? slash)%N) segs []).
  pose proof (join_nonempty [slash] ns name Hne) as Hbody.
  destruct (join [slash] (ns ++ [name])) as [|b0 body]; [done|].
  by destruct (c0 =? slash)%N.
Qed.

(** The components of a joined path whose last part is a regular segment. *)
Lemma join_path_components (root : path) (name : str) :
  regular name -> slash ∉ name ->
  split slash (join_path [root; name])
  = match root with
    | [] => []
    | c0 :: _ =>
        (if (c0 =? slash)%N then [[]] else [])
        ++ normalize_segments (negb (c0 =? slash)%N) (split slash root) []
    end ++ [name].
Proof.
  intros Hreg Hns. pose proof Hreg as (Hne & _ & _).
  unfold join_path. cbn [List.filter].
  rewrite (bool_decide_eq_false_2 (name = [])) by done. cbn [negb].
  destruct root as [|c0 r].
  - rewrite bool_decide_eq_true_2 by done. cbn [negb join].
    destruct name as [|n0 name'] eqn:Hname; [done|].
    assert (Hn0 : (n0 =? slash)%N = false).
    { apply N.eqb_neq. intros ->. apply Hns. by left. }
    rewrite (normalize_with_last n0 name' [] (n0 :: name')).
    + rewrite Hn0. cbn [negb normalize_segments rev app join]. by rewrite split_no_sep.
    + by apply (endsWith_slash_app [] (n0 :: name')).
    + by rewrite split_no_sep.
    + done.
  - rewrite bool_decide_eq_false_2 by done. cbn [negb].
    change (join [slash] [c0 :: r; name]) with (c0 :: (r ++ slash :: name)).
    rewrite (normalize_with_last c0 (r ++ slash :: name) (split slash (c0 :: r)) name).
    + set (ns := normalize_segments (negb (c0 =? slash)%N) (split slash (c0 :: r)) []).
      assert (Hns' : Forall (fun l => slash ∉ l) (ns ++ [name])).
      { apply Forall_app. split; [|by repeat constructor].
        apply normalize_segments_Forall; [apply split_pieces_no_sep|constructor]. }
      assert (Hsplit : split slash (join [slash] (ns ++ [name])) = ns ++ [name]).
      { apply split_join; [|done]. by destruct ns. }
      destruct (c0 =? slash)%N.
      * change ([slash] ++ join [slash] (ns ++ [name]))
          with ([] ++ slash :: join [slash] (ns ++ [name])).
        rewrite split_app_sep, Hsplit. by rewrite <- app_assoc.
      * cbn [app]. by rewrite Hsplit.
    + change (c0 :: r ++ slash :: name) with ((c0 :: r) ++ slash :: name).
      replace ((c0 :: r) ++ slash :: name) with (((c0 :: r) ++ [slash]) ++ name)
        by (by rewrite <- app_assoc).
      by apply endsWith_slash_app.
    + change (c0 :: r ++ slash :: name) with ((c0 :: r) ++ slash :: name).
      by rewrite split_app_sep, (split_no_sep slash name).
    + done.
Qed.

(** X2 (backup folder).  Whatever the tool type, the backup folder is the
    backup root followed by one more path component, the sanitized tool
    type with the stamp: the components before it depend on the backup root
    alone, and the sanitized tool type consists of letters, digits and
    underscores only. *)
Theorem backup_folder_is_child (userBackupRoot : path) :
  exists parent : list str,
    forall toolType stamp : str,
      slash ∉ stamp ->
      split slash (Server.backupFolderPath userBackupRoot toolType stamp)
        = parent ++ [Server.toolSanitized toolType ++ lit "_" ++ stamp]
      /\ Forall (fun c => Server.isWord c = true) (Server.toolSanitized toolType).
Proof.
  eexists. intros toolType stamp Hstamp. split.
  - apply (join_path_components userBackupRoot (Server.stampedName toolType stamp)).
    + apply stampedName_regular.
    + by apply stampedName_no_slash.
  - unfold Server.toolSanitized. apply Forall_forall. intros c Hc.
    by apply list_elem_of_In, List.filter_In in Hc as [_ Hc].
Qed.

(** A backup root, a tool type with blanks and a dot, and a stamp. *)
Lemma backup_folder_is_child_witness :
  exists parent : list str,
    split slash (Server.backupFolderPath (lit "/backup/") (lit "Apache HTTPD 2.4")
                   (lit "20250102030405"))
    = parent ++ [lit "ApacheHTTPD24_20250102030405"].
Proof.
  destruct (backup_folder_is_child (lit "/backup/")) as [parent H].
  exists parent. apply H. eapply bool_decide_eq_true_1. vm_compute. reflexivity.
Defined.

End FolderNames.

(* ========================================================================= *)
(** * The root folder of the extracted archive *)
(* ========================================================================= *)

Section RootFolder.

Variables extractDir existingPath : path.

Lemma findNested_spec (target : str) (items : list Server.entry) :
  Server.statsOk items ->
  Server.findNested extractDir target items
  = Ok (if decide (target ∈ Server.directoryNames items)
        then Some (join_path [extractDir; target]) else None).
Proof.
  induction 1 as [|[item st] items [b Hst] Hitems IH]; [done|].
  simpl in Hst. subst st. cbn [Server.findNested].
  unfold Server.directoryNames. cbn [omap fst snd]. fold (Server.directoryNames items).
  destruct b; cbn [andb].
  - unfold eqb. destruct (decide (item = target)) as [->|Hne].
    + rewrite bool_decide_eq_true_2 by done.
      rewrite decide_True; [done|by left].
    + rewrite bool_decide_eq_false_2 by done. rewrite IH.
      destruct (decide (target ∈ Server.directoryNames items)) as [Hin|Hnin].
      * rewrite decide_True; [done|by right].
      * rewrite decide_False; [done|]. intros [Heq|Hin]%elem_of_cons; [by subst|done].
  - exact IH.
Qed.

Lemma collectDirectories_spec (items : list Server.entry) :
  Server.statsOk items ->
  Server.collectDirectories extractDir items
  = Ok (List.map (fun name => (name, join_path [extractDir; name]))
          (Server.directoryNames items)).
Proof.
  induction 1 as [|[item st] items [b Hst] Hitems IH]; [done|].
  simpl in Hst. subst st. cbn [Server.collectDirectories]. rewrite IH.
  unfold Server.directoryNames. cbn [omap fst snd]. by destruct b.
Qed.

(** X3 (root folder).  When every entry of the extraction directory can be
    examined: a directory named like the target installation folder is the
    root, even among several directories; without one, the only directory
    of the listing is the root, whatever its name; in every other case, no
    directory or several, the extraction directory itself is the root. *)
Theorem findRootFolder_cases (items : list Server.entry) :
  Server.statsOk items ->
  let dirs := Server.directoryNames items in
  let target := Server.basename existingPath in
  (target ∈ dirs ->
   Server.findRootFolder extractDir existingPath items = Ok (join_path [extractDir; target]))
  /\ (forall d, target ∉ dirs -> dirs = [d] ->
      Server.findRootFolder extractDir existingPath items = Ok (join_path [extractDir; d]))
  /\ (target ∉ dirs -> length dirs <> 1 ->
      Server.findRootFolder extractDir existingPath items = Ok extractDir).
Proof.
  intros Hok dirs target. subst dirs target.
  unfold Server.findRootFolder.
  rewrite findNested_spec, collectDirectories_spec by done.
  split; [|split].
  - intros Hin. by rewrite decide_True.
  - intros d Hnin Hd. rewrite decide_False by done. by rewrite Hd.
  - intros Hnin Hlen. rewrite decide_False by done.
    destruct (Server.directoryNames items) as [|d [|d' ds]]; done.
Qed.

Lemma statsOk_Permutation (items items' : list Server.entry) :
  items ≡ₚ items' -> Server.statsOk items -> Server.statsOk items'.
Proof. unfold Server.statsOk. by intros ->. Qed.

(** X4 (listing order).  The root folder does not depend on the order in
    which [fs.readdir] lists the entries. *)
Theorem findRootFolder_order (items items' : list Server.entry) :
  Server.statsOk items ->
  items ≡ₚ items' ->
  Server.findRootFolder extractDir existingPath items'
  = Server.findRootFolder extractDir existingPath items.
Proof.
  intros Hok Hperm.
  pose proof (statsOk_Permutation _ _ Hperm Hok) as Hok'.
  assert (Hdirs : Server.directoryNames items ≡ₚ Server.directoryNames items').
  { unfold Server.directoryNames. by rewrite Hperm. }
  unfold Server.findRootFolder.
  rewrite !findNested_spec, !collectDirectories_spec by done.
  destruct (decide (Server.basename existingPath ∈ Server.directoryNames items)) as [Hin|Hnin].
  - rewrite decide_True; [done|]. by rewrite <- Hdirs.
  - rewrite decide_False by (by rewrite <- Hdirs).
    destruct (Server.directoryNames items) as [|d [|d' ds]] eqn:Hd.
    + apply Permutation_nil_l in Hdirs. by rewrite <- Hdirs.
    + apply Permutation_singleton_l in Hdirs. by rewrite <- Hdirs.
    + apply Permutation_length in Hdirs.
      destruct (Server.directoryNames items') as [|e [|e' es]]; done.
Qed.

End RootFolder.

(** The listing of the witness above, read in the other order. *)
Lemma findRootFolder_order_witness :
  Server.findRootFolder (lit "tempupgrade/httpd_1") (lit "/opt/Apache24")
    [(lit "httpd-2.4.62", Ok true); (lit "README", Ok false)]
  = Server.findRootFolder (lit "tempupgrade/httpd_1") (lit "/opt/Apache24")
      [(lit "README", Ok false); (lit "httpd-2.4.62", Ok true)].
Proof.
  apply findRootFolder_order.
  - repeat constructor; simpl; eauto.
  - apply Permutation_swap.
Defined.

(** An archive that unpacks to [httpd-2.4.62/] and a [README] file, for an
    installation in [/opt/Apache24]: the single directory is the root. *)
Lemma findRootFolder_cases_witness :
  Server.findRootFolder (lit "tempupgrade/httpd_1") (lit "/opt/Apache24")
    [(lit "README", Ok false); (lit "httpd-2.4.62", Ok true)]
  = Ok (lit "tempupgrade/httpd_1/httpd-2.4.62").
Proof.
  assert (Hok : Server.statsOk [(lit "README", Ok false); (lit "httpd-2.4.62", Ok true)]).
  { repeat constructor; simpl; eauto. }
  destruct (findRootFolder_cases (lit "tempupgrade/httpd_1") (lit "/opt/Apache24") _ Hok)
    as (_ & H & _).
  apply (H (lit "httpd-2.4.62")).
  - by_computation.
  - reflexivity.
Defined.

(* ========================================================================= *)
(** * The rate limiting block *)
(* ========================================================================= *)

Section RateLimiting.

Lemma includes_app_r (needle a b : str) :
  includes needle b = true -> includes needle (a ++ b) = true.
Proof.
  intros Hb. induction a as [|c a IH]; [done|].
  cbn [app includes]. rewrite IH. apply orb_true_r.
Qed.

Lemma mod_evasive_in_config (httpdConf : str) :
  includes (lit "mod_evasive") (httpdConf ++ Server.MOD_EVASIVE_CONFIG) = true.
Proof. apply includes_app_r. vm_compute. reflexivity. Qed.

(** X5 (rate limiting block).  [installModEvasive] is idempotent: run on
    its own result it changes nothing and gives the same outcome, whether
    the first run added the block, found [mod_evasive] mentioned already,
    or failed on a missing [httpd.conf].  It writes no other file. *)
Theorem installModEvasive_idempotent (apachePath : path) (w : world) :
  let once := Server.installModEvasive apachePath w in
  Server.installModEvasive apachePath (snd once) = once
  /\ forall p, p <> join_path [apachePath; lit "conf"; lit "httpd.conf"] ->
               files (snd once) !! p = files w !! p.
Proof.
  unfold Server.installModEvasive, bind, readFile, writeFile, modify, ret.
  set (conf := join_path [apachePath; lit "conf"; lit "httpd.conf"]).
  destruct (files w !! conf) as [httpdConf|] eqn:Hconf; cbn [fst snd].
  - destruct (includes (lit "mod_evasive") httpdConf) eqn:Hinc; cbn [negb fst snd files].
    + split; [|done]. by rewrite Hconf, Hinc.
    + split.
      * rewrite lookup_insert_eq, mod_evasive_in_config. done.
      * intros p Hp. by rewrite lookup_insert_ne.
  - split; [|done]. by rewrite Hconf.
Qed.

End RateLimiting.

(* ========================================================================= *)
(** * The words of a directive line *)
(* ========================================================================= *)

Section DirectiveWords.

(** A word: not empty and free of white space. *)
Local Abbreviation word :=
  (fun t : list N => t <> [] /\ Forall (fun c => is_ws c = false) t).

Lemma last_rev {A} (l : list A) : last (rev l) = head l.
Proof. destruct l as [|x l]; [done|]. simpl. by rewrite last_snoc. Qed.

Lemma head_rev {A} (l : list A) : head (rev l) = last l.
Proof. rewrite <- (rev_involutive l) at 2. by rewrite last_rev. Qed.

Lemma trimStart_suffix (s : str) : exists pre, s = pre ++ trimStart s.
Proof.
  induction s as [|c s [pre IH]]; [by exists []|]. simpl.
  destruct (is_ws c); [|by exists []].
  exists (c :: pre). simpl. by rewrite <- IH.
Qed.

Lemma trimStart_head (s : str) (c : N) (r : str) :
  trimStart s = c :: r -> is_ws c = false.
Proof.
  induction s as [|x s IH]; [done|]. simpl.
  destruct (is_ws x) eqn:Hx; [done|]. by intros [= <- _].
Qed.

Lemma trim_last (s : str) (c : N) : last (trim s) = Some c -> is_ws c = false.
Proof.
  unfold trim, trimEnd. rewrite last_rev.
  destruct (trimStart (rev (trimStart s))) as [|x r] eqn:Ht; [done|].
  intros [= <-]. by apply trimStart_head in Ht.
Qed.

Lemma trim_head (s : str) (c : N) (r : str) : trim s = c :: r -> is_ws c = false.
Proof.
  unfold trim, trimEnd. intros Ht.
  destruct (trimStart s) as [|x t] eqn:Hs; [done|].
  pose proof (trimStart_head _ _ _ Hs) as Hx.
  destruct (trimStart_suffix (rev (x :: t))) as [pre Hpre].
  assert (Hhead : head (rev (trimStart (rev (x :: t)))) = Some c) by (by rewrite Ht).
  rewrite head_rev in Hhead.
  assert (Hne : trimStart (rev (x :: t)) <> []).
  { intros Hnil. by rewrite Hnil in Hhead. }
  assert (Hlast : last (rev (x :: t)) = Some c).
  { rewrite Hpre. rewrite last_app.
    destruct (last (trimStart (rev (x :: t)))) eqn:Hl; [done|].
    apply last_None in Hl. done. }
  rewrite last_rev in Hlast. simpl in Hlast. by injection Hlast as <-.
Qed.

(** The parts of [split(/\s+/)] of a text that neither starts nor ends with
    white space are words. *)
Lemma split_ws_from_words (s : str) (in_sep : bool) (cur : str) :
  Forall (fun c => is_ws c = false) cur ->
  (in_sep = true -> cur = [] /\ s <> []) ->
  (in_sep = false -> cur <> [] \/ exists c s', s = c :: s' /\ is_ws c = false) ->
  (forall c, last s = Some c -> is_ws c = false) ->
  Forall word (split_ws_from in_sep cur s).
Proof.
  revert in_sep cur. induction s as [|c s IH]; intros in_sep cur Hcur Hsep Hnosep Hlast.
  - destruct in_sep; [by destruct Hsep|].
    simpl. constructor; [|constructor]. split.
    + destruct (Hnosep eq_refl) as [Hne|(? & ? & ? & _)]; [|done]. intros Hr.
      apply (f_equal (@rev N)) in Hr. rewrite rev_involutive in Hr. done.
    + by apply Forall_rev.
  - assert (Hlast' : forall c', last s = Some c' -> is_ws c' = false).
    { intros c' Hc'. apply Hlast. destruct s; [done|]. done. }
    simpl. destruct (is_ws c) eqn:Hc.
    + assert (Hs : s <> []).
      { intros ->. specialize (Hlast c eq_refl). congruence. }
      destruct in_sep.
      * apply IH; [constructor|done|done|done].
      * constructor.
        -- split.
           ++ destruct (Hnosep eq_refl) as [Hne|(c' & s' & [= <- <-] & Hc')]; [|congruence].
              intros Hr. apply (f_equal (@rev N)) in Hr. rewrite rev_involutive in Hr. done.
           ++ by apply Forall_rev.
        -- apply IH; [constructor|done|done|done].
    + apply IH; [by constructor|done|by left|done].
Qed.

(** X6 (directive line).  A line that is neither blank nor a comment is
    parsed to a directive: its name is the first word of the line, its
    value the remaining words joined by single blanks, and its full line
    the line as given.  A blank line and a comment line give no directive. *)
Theorem parseApacheDirective_words (line : str) :
  (significant line ->
   exists name rest,
     parseApacheDirective line = Some (name, join [sp] rest, line)
     /\ split_ws (trim line) = name :: rest
     /\ Forall word (name :: rest))
  /\ (~ significant line -> parseApacheDirective line = None).
Proof.
  unfold parseApacheDirective, significant. split.
  - intros [Hne Hc]. rewrite bool_decide_eq_false_2, Hc by done. cbn [orb].
    assert (Hwords : Forall word (split_ws (trim line))).
    { unfold split_ws. apply split_ws_from_words; [constructor|done| |].
      - intros _. right. destruct (trim line) as [|c r] eqn:Ht; [done|].
        exists c, r. split; [done|]. by eapply trim_head.
      - apply trim_last. }
    destruct (split_ws (trim line)) as [|name rest] eqn:Hsplit.
    + unfold split_ws in Hsplit. by apply split_ws_from_nonempty in Hsplit.
    + by exists name, rest.
  - intros Hns.
    destruct (bool_decide (trim line = [])) eqn:Hb; cbn [orb]; [done|].
    destruct (startsWith [hash] (trim line)) eqn:Hc; [done|].
    exfalso. apply Hns. split; [|done]. by apply bool_decide_eq_false in Hb.
Qed.

End DirectiveWords.

(** A line with a tab and several blanks between the words. *)
Lemma parseApacheDirective_words_witness :
  exists name rest,
    parseApacheDirective (lit "  ErrorLog" ++ [9%N] ++ lit "logs/error.log   warn ")
    = Some (name, join [sp] rest, lit "  ErrorLog" ++ [9%N] ++ lit "logs/error.log   warn ")
    /\ name = lit "ErrorLog" /\ join [sp] rest = lit "logs/error.log warn".
Proof.
  destruct (proj1 (parseApacheDirective_words
                     (lit "  ErrorLog" ++ [9%N] ++ lit "logs/error.log   warn ")))
    as (name & rest & Hparse & Hsplit & _).
  - split; [by_computation|reflexivity].
  - exists name, rest. split; [exact Hparse|].
    vm_compute in Hsplit. injection Hsplit as <- <-. split; reflexivity.
Defined.

(* ========================================================================= *)
(** * The extent of a block *)
(* ========================================================================= *)

Section BlockExtent.

Variables startTag endTag : str.

(** Without a closing line the loop takes every remaining line. *)
Lemma extractApacheBlock_loop_unclosed (rest : list str) (i : nat) (depth : Z)
    (acc : list str) :
  (0 < depth)%Z ->
  Forall (fun l => startsWith endTag (trim l) = false) rest ->
  extractApacheBlock_loop startTag endTag rest i depth acc = (acc ++ rest, i + length rest).
Proof.
  intros Hd Hall. revert i depth acc Hd.
  induction Hall as [|l rest Hl Hrest IH]; intros i depth acc Hd; simpl.
  - by rewrite app_nil_r, Nat.add_0_r.
  - rewrite bool_decide_eq_true_2 by done. rewrite Hl.
    destruct (startsWith startTag (trim l)).
    + rewrite bool_decide_eq_false_2 by lia.
      rewrite IH by lia. rewrite <- app_assoc. f_equal. lia.
    + rewrite bool_decide_eq_false_2 by lia.
      rewrite IH by lia. rewrite <- app_assoc. f_equal. lia.
Qed.

(** A loop that stops before the end of the text stops on a closing line. *)
Lemma extractApacheBlock_loop_closed (rest : list str) (i : nat) (depth : Z)
    (acc bl : list str) (e : nat) :
  (0 < depth)%Z ->
  extractApacheBlock_loop startTag endTag rest i depth acc = (bl, e) ->
  e < i + length rest ->
  exists l, last bl = Some l /\ startsWith endTag (trim l) = true.
Proof.
  revert i depth acc. induction rest as [|l rest IH]; intros i depth acc Hd Hrun He; simpl in *.
  - injection Hrun as <- <-. lia.
  - rewrite bool_decide_eq_true_2 in Hrun by done.
    destruct (startsWith endTag (trim l)) eqn:Hend.
    + destruct (bool_decide _) eqn:Hz in Hrun.
      * injection Hrun as <- <-. exists l. by rewrite last_snoc.
      * eapply IH; [|exact Hrun|lia].
        apply bool_decide_eq_false in Hz. destruct (startsWith startTag (trim l)); lia.
    + destruct (bool_decide _) eqn:Hz in Hrun.
      * apply bool_decide_eq_true in Hz. destruct (startsWith startTag (trim l)); lia.
      * eapply IH; [|exact Hrun|lia]. destruct (startsWith startTag (trim l)); lia.
Qed.

(** The start index and the lines of a block. *)
Lemma extractApacheBlock_lines (lines : list str) (start : nat) (raw : str) :
  lines !! start = Some raw ->
  let b := extractApacheBlock lines start startTag endTag in
  b_startIndex b = start
  /\ b_lines b = take (S (b_endIndex b) - start) (drop start lines).
Proof.
  intros Hraw b.
  destruct (extractApacheBlock_spec lines start startTag endTag raw Hraw) as (Htake & _ & Hle).
  fold b in Htake, Hle.
  split.
  - subst b. unfold extractApacheBlock. by destruct (extractApacheBlock_loop _ _ _ _ _ _).
  - replace (S (b_endIndex b)) with (start + (S (b_endIndex b) - start)) in Htake by lia.
    rewrite <- take_take_drop in Htake. by apply app_inv_head in Htake.
Qed.

(** X7 (block extent).  A block is the run of lines from its opening line
    to its end index, and its content is these lines joined by line breaks.
    When the end index lies inside the text, the last line of the block is
    a closing line.  When no later line is a closing line, the block takes
    every line up to the end of the text and its end index is the number of
    lines. *)
Theorem extractApacheBlock_extent (lines : list str) (start : nat) (raw : str) :
  lines !! start = Some raw ->
  let b := extractApacheBlock lines start startTag endTag in
  b_startIndex b = start
  /\ b_content b = join [nl] (b_lines b)
  /\ b_lines b = take (S (b_endIndex b) - start) (drop start lines)
  /\ (b_endIndex b < length lines ->
      exists l, last (b_lines b) = Some l /\ startsWith endTag (trim l) = true)
  /\ (Forall (fun l => startsWith endTag (trim l) = false) (drop (S start) lines) ->
      b_endIndex b = length lines /\ b_lines b = drop start lines).
Proof.
  intros Hraw b.
  destruct (extractApacheBlock_spec lines start startTag endTag raw Hraw) as (Htake & [Hc _] & Hle).
  fold b in Htake, Hc, Hle.
  pose proof (lookup_lt_Some _ _ _ Hraw) as Hlt.
  destruct (extractApacheBlock_lines lines start raw Hraw) as [Hstart Hlines].
  fold b in Hstart, Hlines.
  split; [done|]. split; [done|]. split; [done|]. split.
  - intros He. subst b. unfold extractApacheBlock in *. rewrite Hraw in *. simpl in *.
    destruct (extractApacheBlock_loop startTag endTag (drop (S start) lines) (S start) 1 [raw])
      as [bl e] eqn:Hrun.
    simpl in *. eapply extractApacheBlock_loop_closed; [|exact Hrun|]; [lia|].
    rewrite length_drop. lia.
  - intros Hall. subst b. unfold extractApacheBlock. rewrite Hraw. simpl.
    rewrite extractApacheBlock_loop_unclosed by (done || lia). simpl.
    rewrite length_drop. split; [lia|]. by rewrite (drop_S _ _ _ Hraw).
Qed.

End BlockExtent.

(** A [DirectoryMatch] section is opened as a [Directory] block, which its
    own closing tag does not close: the block runs to the end of the text. *)
Lemma extractApacheBlock_extent_witness :
  let lines := [lit "<DirectoryMatch ^/srv>"; lit "  Require all granted";
                lit "</DirectoryMatch>"; lit "Listen 8080"] in
  let b := extractApacheBlock lines 0 (lit "<Directory") (lit "</Directory>") in
  b_endIndex b = 4 /\ b_lines b = lines.
Proof.
  intros lines b.
  destruct (extractApacheBlock_extent (lit "<Directory") (lit "</Directory>") lines 0
              (lit "<DirectoryMatch ^/srv>") eq_refl) as (_ & _ & _ & _ & H).
  apply H. by_computation.
Defined.

(* ========================================================================= *)
(** * Line numbers of the parsed document *)
(* ========================================================================= *)

Section LineNumbers.

Variable lines : list str.

(** A directive stands on the line its number names, and its name and value
    are those of that line. *)
Local Abbreviation directiveAt :=
  (fun d : Directive =>
     1 <= d_lineNum d
     /\ lines !! (d_lineNum d - 1) = Some (d_fullLine d)
     /\ parseApacheDirective (d_fullLine d) = Some (d_name d, d_value d, d_fullLine d)).

Local Abbreviation moduleAt :=
  (fun m : LoadModule =>
     1 <= m_lineNum m
     /\ lines !! (m_lineNum m - 1) = Some (m_line m)
     /\ startsWith (lit "LoadModule") (trim (m_line m)) = true).

(** A block is the run of lines from its start index to its end index. *)
Local Abbreviation blockAt :=
  (fun b : Block =>
     b_startIndex b <= b_endIndex b
     /\ b_lines b = take (S (b_endIndex b) - b_startIndex b) (drop (b_startIndex b) lines)).

(** Numbers in strictly increasing order. *)
Local Abbreviation increasing :=
  (fun l : list nat =>
     forall i j a b, i < j -> l !! i = Some a -> l !! j = Some b -> a < b).

Local Abbreviation located :=
  (fun (i : nat) (c : Config) =>
     Forall directiveAt (directives c) /\ Forall moduleAt (modules c)
     /\ Forall blockAt (virtualHosts c) /\ Forall blockAt (directories c)
     /\ Forall blockAt (ifModules c)
     /\ increasing (List.map d_lineNum (directives c))
     /\ increasing (List.map m_lineNum (modules c))
     /\ Forall (fun n => n <= i) (List.map d_lineNum (directives c))
     /\ Forall (fun n => n <= i) (List.map m_lineNum (modules c))).

Lemma increasing_snoc (l : list nat) (x : nat) :
  increasing l -> Forall (fun n => n < x) l -> increasing (l ++ [x]).
Proof.
  intros Hinc Hall i j a b Hij Ha Hb.
  destruct (decide (j < length l)) as [Hj|Hj].
  - rewrite lookup_app_l in Ha by lia. rewrite lookup_app_l in Hb by lia.
    exact (Hinc i j a b Hij Ha Hb).
  - assert (i < length l).
    { apply lookup_lt_Some in Hb. rewrite length_app in Hb. simpl in Hb. lia. }
    rewrite lookup_app_l in Ha by lia.
    rewrite lookup_app_r in Hb by lia.
    destruct (j - length l) as [|k] eqn:Hk; [|by destruct k].
    simpl in Hb. injection Hb as <-.
    rewrite Forall_forall in Hall. apply Hall. by eapply list_elem_of_lookup_2.
Qed.

Lemma block_located (start : nat) (startTag endTag raw : str) :
  lines !! start = Some raw ->
  blockAt (extractApacheBlock lines start startTag endTag)
  /\ start <= b_endIndex (extractApacheBlock lines start startTag endTag).
Proof.
  intros Hraw.
  destruct (extractApacheBlock_lines startTag endTag lines start raw Hraw) as [Hs Hl].
  destruct (extractApacheBlock_spec lines start startTag endTag raw Hraw) as (_ & _ & Hle).
  rewrite Hs. done.
Qed.

Lemma Forall_le_mono (l : list nat) (i i' : nat) :
  i <= i' -> Forall (fun n => n <= i) l -> Forall (fun n => n <= i') l.
Proof. intros Hle H. eapply Forall_impl; [exact H|]. simpl. intros n Hn. lia. Qed.

Lemma Forall_lt_succ (l : list nat) (i : nat) :
  Forall (fun n => n <= i) l -> Forall (fun n => n < i + 1) l.
Proof. intros H. eapply Forall_impl; [exact H|]. simpl. intros n Hn. lia. Qed.

Lemma located_step (i : nat) (raw : str) (c : Config) (i' : nat) (c' : Config) :
  lines !! i = Some raw -> parse_step lines i raw c = (i', c') ->
  located i c -> located i' c'.
Proof.
  intros Hraw Hstep (Hd & Hm & Hvh & Hdir & Hif & Hdi & Hmi & Hdle & Hmle).
  unfold parse_step in Hstep.
  destruct (bool_decide (trim raw = []) || startsWith [hash] (trim raw)).
  { injection Hstep as <- <-.
    repeat split; try done; by apply (Forall_le_mono _ i); [lia|]. }
  destruct (startsWith (lit "LoadModule") (trim raw)) eqn:Hlm.
  { injection Hstep as <- <-.
    cbn [push_module directives modules virtualHosts directories ifModules].
    split; [done|]. split.
    { apply Forall_app. split; [done|]. constructor; [|constructor].
      cbn [m_lineNum m_line]. replace (i + 1 - 1) with i by lia. repeat split; [lia|done|done]. }
    do 3 (split; [done|]). split; [done|]. split.
    { rewrite List.map_app. apply increasing_snoc; [done|]. by apply Forall_lt_succ. }
    split; [by apply (Forall_le_mono _ i); [lia|]|].
    rewrite List.map_app. apply Forall_app. split; [by apply (Forall_le_mono _ i); [lia|]|].
    constructor; [simpl; lia|constructor]. }
  destruct (startsWith (lit "<VirtualHost") (trim raw)).
  { injection Hstep as <- <-.
    destruct (block_located i (lit "<VirtualHost") (lit "</VirtualHost>") raw Hraw) as [Hb Hle].
    cbn [push_virtualHost directives modules virtualHosts directories ifModules].
    do 2 (split; [done|]). split.
    { apply Forall_app. split; [done|]. by constructor. }
    do 4 (split; [done|]).
    split; apply (Forall_le_mono _ i); (lia || done). }
  destruct (startsWith (lit "<Directory") (trim raw)).
  { injection Hstep as <- <-.
    destruct (block_located i (lit "<Directory") (lit "</Directory>") raw Hraw) as [Hb Hle].
    cbn [push_directory directives modules virtualHosts directories ifModules].
    do 3 (split; [done|]). split.
    { apply Forall_app. split; [done|]. by constructor. }
    do 3 (split; [done|]).
    split; apply (Forall_le_mono _ i); (lia || done). }
  destruct (startsWith (lit "<IfModule") (trim raw)).
  { injection Hstep as <- <-.
    destruct (block_located i (lit "<IfModule") (lit "</IfModule>") raw Hraw) as [Hb Hle].
    cbn [push_ifModule directives modules virtualHosts directories ifModules].
    do 4 (split; [done|]). split.
    { apply Forall_app. split; [done|]. by constructor. }
    do 2 (split; [done|]).
    split; apply (Forall_le_mono _ i); (lia || done). }
  destruct (parseApacheDirective raw) as [[[n v] full]|] eqn:Hparse.
  - pose proof (parseApacheDirective_Some _ _ _ _ Hparse) as ->.
    injection Hstep as <- <-.
    cbn [push_directive directives modules virtualHosts directories ifModules].
    split.
    { apply Forall_app. split; [done|]. constructor; [|constructor].
      cbn [d_lineNum d_fullLine d_name d_value]. replace (i + 1 - 1) with i by lia.
      repeat split; [lia|done|done]. }
    do 4 (split; [done|]). split.
    { rewrite List.map_app. apply increasing_snoc; [done|]. by apply Forall_lt_succ. }
    split; [done|]. split.
    { rewrite List.map_app. apply Forall_app. split; [by apply (Forall_le_mono _ i); [lia|]|].
      constructor; [simpl; lia|constructor]. }
    by apply (Forall_le_mono _ i); [lia|].
  - injection Hstep as <- <-.
    repeat split; try done; by apply (Forall_le_mono _ i); [lia|].
Qed.

Lemma located_loop (fuel i : nat) (c : Config) :
  located i c -> exists j, located j (parse_loop fuel lines i c).
Proof.
  revert i c. induction fuel as [|fuel IH]; intros i c Hinv; simpl; [by exists i|].
  destruct (lines !! i) as [raw|] eqn:Hraw; [|by exists i].
  destruct (parse_step lines i raw c) as [i' c'] eqn:Hstep.
  apply (IH i' c'). by eapply located_step.
Qed.

End LineNumbers.

(** X8 (line numbers).  In the parsed document every directive and every
    LoadModule entry carries the number of the line it was read from, and
    the name and the value of a directive are those of that line; every
    block is the run of lines from its start index to its end index; and
    directives and LoadModule entries are listed in the order of their
    lines. *)
Theorem parseApacheConfig_line_numbers (T : str) :
  let lines := split nl T in
  let c := parseApacheConfig T in
  Forall (fun d => 1 <= d_lineNum d
                   /\ lines !! (d_lineNum d - 1) = Some (d_fullLine d)
                   /\ parseApacheDirective (d_fullLine d)
                      = Some (d_name d, d_value d, d_fullLine d)) (directives c)
  /\ Forall (fun m => 1 <= m_lineNum m
                      /\ lines !! (m_lineNum m - 1) = Some (m_line m)
                      /\ startsWith (lit "LoadModule") (trim (m_line m)) = true) (modules c)
  /\ Forall (fun b => b_startIndex b <= b_endIndex b
                      /\ b_lines b = take (S (b_endIndex b) - b_startIndex b)
                                       (drop (b_startIndex b) lines))
       (virtualHosts c ++ directories c ++ ifModules c)
  /\ (forall i j a b, i < j ->
        List.map d_lineNum (directives c) !! i = Some a ->
        List.map d_lineNum (directives c) !! j = Some b -> a < b)
  /\ (forall i j a b, i < j ->
        List.map m_lineNum (modules c) !! i = Some a ->
        List.map m_lineNum (modules c) !! j = Some b -> a < b).
Proof.
  intros lines c. subst c. unfold parseApacheConfig. fold lines.
  destruct (located_loop lines (length lines) 0 emptyConfig)
    as (j & Hd & Hm & Hvh & Hdir & Hif & Hdi & Hmi & _).
  { repeat split; try constructor; intros i j a b _ Hi; by destruct i. }
  split; [done|]. split; [done|]. split; [|done].
  rewrite !Forall_app. done.
Qed.

(* ========================================================================= *)
(** * Where the entries of the merged document come from *)
(* ========================================================================= *)

Section Provenance.

Implicit Types (l us : list Directive) (u d : Directive) (K : str).

Lemma merge_directive_elem l u d :
  d ∈ merge_directive l u ->
  d ∈ l \/ (d = u /\ d_name u ∉ APACHE_SECURITY_DIRECTIVES).
Proof.
  destruct (merge_directive_cases l u) as [[_ ->]|[(Hns & i & Hf & ->)|(Hns & _ & ->)]].
  - by left.
  - intros Hin. apply list_elem_of_lookup in Hin as [j Hj].
    destruct (decide (j = i)) as [->|Hne].
    + rewrite list_lookup_insert_eq in Hj by (by eapply findIndex_lt). injection Hj as <-.
      by right.
    + rewrite list_lookup_insert_ne in Hj by done. left. by eapply list_elem_of_lookup_2.
  - intros [Hin|Hin]%elem_of_app; [by left|]. apply list_elem_of_singleton in Hin. by right.
Qed.

Lemma fold_merge_elem us l d :
  d ∈ fold_left merge_directive us l ->
  d ∈ l \/ (d ∈ us /\ d_name d ∉ APACHE_SECURITY_DIRECTIVES).
Proof.
  revert l. induction us as [|u us IH]; intros l Hin; simpl in Hin; [by left|].
  apply IH in Hin as [Hin|[Hin Hns]].
  - apply merge_directive_elem in Hin as [Hin|[-> Hns]]; [by left|]. right. split; [by left|done].
  - right. split; [by right|done].
Qed.

(** The names a fold adds: each one once, none of them a name of the list
    it started from, each the name of a user directive. *)
Lemma fold_merge_names_added us l :
  exists added,
    names (fold_left merge_directive us l) = names l ++ added
    /\ NoDup added
    /\ forall K, K ∈ added -> (K ∉ names l) /\ exists u, u ∈ us /\ d_name u = K.
Proof.
  revert l. induction us as [|u us IH]; intros l; simpl.
  - exists []. rewrite app_nil_r. split; [done|]. split; [constructor|].
    intros K HK. by apply elem_of_nil in HK.
  - destruct (IH (merge_directive l u)) as (added & Hn & Hnd & Hall).
    destruct (merge_directive_names l u) as [Heq|[Hnew Heq]]; rewrite Heq in Hn, Hall.
    + exists added. split; [done|]. split; [done|].
      intros K HK. destruct (Hall K HK) as [Hnot (u' & Hu' & Hname)].
      split; [done|]. exists u'. split; [by right|done].
    + exists (d_name u :: added). split; [by rewrite Hn, <- app_assoc|]. split.
      * constructor; [|done]. intros Hin. destruct (Hall _ Hin) as [Hnot _].
        apply Hnot. apply elem_of_app. right. by left.
      * intros K [->|HK]%elem_of_cons.
        -- split; [done|]. exists u. split; [by left|done].
        -- destruct (Hall K HK) as [Hnot (u' & Hu' & Hname)]. split.
           ++ intros Hin. apply Hnot. apply elem_of_app. by left.
           ++ exists u'. split; [by right|done].
Qed.

(** X9 (provenance).  Every directive of the merged document is a directive
    of the new document, or a directive of the old document whose name is on
    the user list and not on the security list.  The names of the new
    document's directives keep their positions; the names that follow them
    are new to the document, each added once.  The directory blocks and
    LoadModule entries of the old document are added after those of the
    new one, the selected ones only, and the IfModule blocks of the merged
    document are those of the new document: none of the old document is
    carried over. *)
Theorem merge_provenance (oldConfig newConfig : Config) :
  let merged := mergeApacheSettings newConfig (extractApacheUserSettings oldConfig) in
  (forall d, d ∈ directives merged ->
     d ∈ directives newConfig
     \/ (d ∈ directives oldConfig /\ d_name d ∈ APACHE_USER_DIRECTIVES
         /\ d_name d ∉ APACHE_SECURITY_DIRECTIVES))
  /\ (exists added,
        names (directives merged) = names (directives newConfig) ++ added
        /\ NoDup added
        /\ forall K, K ∈ added ->
             (K ∉ names (directives newConfig)) /\ K ∈ APACHE_USER_DIRECTIVES)
  /\ directories merged
     = directories newConfig
       ++ List.filter (fun b => hasUserContent (b_content b)) (directories oldConfig)
  /\ modules merged
     = modules newConfig
       ++ List.filter (fun m => negb (isDefaultModule (m_line m))) (modules oldConfig)
  /\ ifModules merged = ifModules newConfig.
Proof.
  intros merged. subst merged. unfold mergeApacheSettings, json_clone.
  cbn [directives directories modules ifModules].
  split; [|split; [|done]].
  - intros d Hin. apply fold_merge_elem in Hin as [Hin|[Hin Hns]]; [by left|].
    right. apply extract_directives_elem in Hin as [Hin Hu]. done.
  - destruct (fold_merge_names_added (u_directives (extractApacheUserSettings oldConfig))
                (directives newConfig)) as (added & Hn & Hnd & Hall).
    exists added. split; [done|]. split; [done|].
    intros K HK. destruct (Hall K HK) as [Hnot (u & Hu & <-)]. split; [done|].
    by apply extract_directives_elem in Hu as [_ Hu].
Qed.

End Provenance.

(* ========================================================================= *)
(** * Merging the same user settings again *)
(* ========================================================================= *)

Section MergeAgain.

Implicit Types (l us : list Directive) (u d : Directive) (K : str).

(** A step leaves every position alone but the first one of its name. *)
Lemma merge_directive_frame l u j d :
  l !! j = Some d ->
  (d_name u ∉ APACHE_SECURITY_DIRECTIVES -> findIndex (d_name u) l <> Some j) ->
  merge_directive l u !! j = Some d.
Proof.
  intros Hl Hne.
  destruct (merge_directive_cases l u) as [[_ ->]|[(Hns & i & Hf & ->)|(_ & _ & ->)]].
  - done.
  - rewrite list_lookup_insert_ne; [done|]. specialize (Hne Hns). congruence.
  - by apply lookup_app_l_Some.
Qed.

(** A name that appears by a step appears after the end of the list. *)
Lemma merge_directive_findIndex_new K l u i :
  findIndex K l = None -> findIndex K (merge_directive l u) = Some i -> length l <= i.
Proof.
  intros Hnone Hsome.
  destruct (merge_directive_cases l u) as [[_ Heq]|[(_ & j & Hf & Heq)|(_ & _ & Heq)]];
    rewrite Heq in Hsome.
  - congruence.
  - apply findIndex_Some in Hf as [[d [Hl Hn]] _].
    rewrite (findIndex_names K _ l) in Hsome by (by eapply names_insert_same). congruence.
  - by eapply findIndex_app_None.
Qed.

Lemma fold_merge_frame us l j d :
  l !! j = Some d ->
  (forall u, u ∈ us -> d_name u ∉ APACHE_SECURITY_DIRECTIVES ->
             findIndex (d_name u) l <> Some j) ->
  fold_left merge_directive us l !! j = Some d.
Proof.
  revert l. induction us as [|u us IH]; intros l Hl Hall; simpl; [done|].
  apply IH.
  - apply merge_directive_frame; [done|]. apply Hall. by left.
  - intros u' Hu' Hns Hf.
    assert (Hu'' : u' ∈ u :: us) by (by right).
    destruct (findIndex (d_name u') l) as [i|] eqn:Hi.
    + pose proof (merge_directive_findIndex _ _ u _ Hi) as Hi'.
      apply (Hall u' Hu'' Hns). congruence.
    + apply (merge_directive_findIndex_new _ _ _ _ Hi) in Hf.
      apply lookup_lt_Some in Hl. lia.
Qed.

(** The last user directive of an allowed name stands at the first position
    of its name. *)
Lemma fold_merge_last (pre post : list Directive) u l :
  d_name u ∉ APACHE_SECURITY_DIRECTIVES ->
  (forall u', u' ∈ post -> d_name u' <> d_name u) ->
  exists i, findIndex (d_name u) (fold_left merge_directive (pre ++ u :: post) l) = Some i
            /\ fold_left merge_directive (pre ++ u :: post) l !! i = Some u.
Proof.
  intros Hns Hpost. rewrite fold_left_app. simpl.
  destruct (merge_directive_places (fold_left merge_directive pre l) u Hns) as (i & Hf & Hl).
  exists i. split.
  - by apply fold_merge_findIndex.
  - by apply (fold_merge_keeps (d_name u)).
Qed.

(** The last directive of a given name in a list. *)
Lemma last_of_name us K :
  (exists u, u ∈ us /\ d_name u = K) ->
  exists pre u post, us = pre ++ u :: post /\ d_name u = K
                     /\ forall u', u' ∈ post -> d_name u' <> K.
Proof.
  induction us as [|x us IH] using rev_ind; intros (u & Hu & Hn).
  - by apply elem_of_nil in Hu.
  - destruct (decide (d_name x = K)) as [Hx|Hx].
    + exists us, x, []. split; [done|]. split; [done|].
      intros u' Hu'. by apply elem_of_nil in Hu'.
    + apply elem_of_app in Hu as [Hu|Hu].
      * destruct IH as (pre & u0 & post & -> & Hn0 & Hpost); [by exists u|].
        exists pre, u0, (post ++ [x]). split; [by rewrite <- app_assoc|]. split; [done|].
        intros u' [Hu'|Hu']%elem_of_app; [by apply Hpost|].
        apply list_elem_of_singleton in Hu'. by subst.
      * apply list_elem_of_singleton in Hu. by subst.
Qed.

(** No step adds a name when every allowed user name is in the list. *)
Lemma fold_merge_names_stable us l :
  (forall u, u ∈ us -> d_name u ∉ APACHE_SECURITY_DIRECTIVES -> d_name u ∈ names l) ->
  names (fold_left merge_directive us l) = names l.
Proof.
  revert l. induction us as [|u us IH]; intros l Hall; simpl; [done|].
  assert (Hstep : names (merge_directive l u) = names l).
  { destruct (merge_directive_cases l u) as [[_ ->]|[(_ & i & Hf & ->)|(Hns & Hnone & _)]].
    - done.
    - apply findIndex_Some in Hf as [[d [Hl Hn]] _]. by eapply names_insert_same.
    - exfalso. assert (Hin : d_name u ∈ names l) by (apply Hall; [by left|done]).
      apply list_elem_of_fmap in Hin as (d & Hn & Hd).
      rewrite findIndex_None in Hnone. by apply (Hnone d Hd). }
  rewrite IH; [done|]. intros u' Hu' Hns. rewrite Hstep. apply Hall; [by right|done].
Qed.

Lemma findIndex_in_names K l i : findIndex K l = Some i -> K ∈ names l.
Proof.
  intros Hf. apply findIndex_Some in Hf as [[d [Hl <-]] _].
  apply list_elem_of_fmap. exists d. split; [done|]. by eapply list_elem_of_lookup_2.
Qed.

Lemma fold_merge_again us l :
  let r := fold_left merge_directive us l in
  fold_left merge_directive us r = r.
Proof.
  intros r.
  assert (Hlast : forall u, u ∈ us -> d_name u ∉ APACHE_SECURITY_DIRECTIVES ->
            forall l0, exists u0 i,
              findIndex (d_name u) (fold_left merge_directive us l0) = Some i
              /\ fold_left merge_directive us l0 !! i = Some u0
              /\ (forall l1, exists i1,
                    findIndex (d_name u) (fold_left merge_directive us l1) = Some i1
                    /\ fold_left merge_directive us l1 !! i1 = Some u0)).
  { intros u Hu Hns l0.
    destruct (last_of_name us (d_name u)) as (pre & u0 & post & Hus & Hn0 & Hpost); [by exists u|].
    assert (Hns0 : d_name u0 ∉ APACHE_SECURITY_DIRECTIVES) by (by rewrite Hn0).
    assert (Hpost0 : forall u', u' ∈ post -> d_name u' <> d_name u0) by (by rewrite Hn0).
    destruct (fold_merge_last pre post u0 l0 Hns0 Hpost0) as (i & Hf & Hl).
    exists u0, i. rewrite Hus, <- Hn0. split; [done|]. split; [done|].
    intros l1. by apply fold_merge_last. }
  assert (Hnames : names (fold_left merge_directive us r) = names r).
  { apply fold_merge_names_stable. intros u Hu Hns.
    destruct (Hlast u Hu Hns l) as (u0 & i & Hf & _). by eapply findIndex_in_names. }
  apply list_eq. intros j.
  destruct (r !! j) as [d|] eqn:Hj.
  - destruct (decide (Exists (fun u => (d_name u ∉ APACHE_SECURITY_DIRECTIVES)
                                      /\ findIndex (d_name u) r = Some j) us)) as [Hex|Hnex].
    + apply Exists_exists in Hex as (u & Hu & Hns & Hf).
      destruct (Hlast u Hu Hns l) as (u0 & i & Hf0 & Hl0 & Hany).
      fold r in Hf0, Hl0. assert (i = j) by congruence. subst i.
      destruct (Hany r) as (i1 & Hf1 & Hl1).
      rewrite (findIndex_names _ _ r Hnames) in Hf1.
      assert (i1 = j) by congruence. subst i1. congruence.
    + rewrite (fold_merge_frame us r j d); [done|done|]. intros u Hu Hns Hf.
      apply Hnex. apply Exists_exists. by exists u.
  - apply lookup_ge_None. apply lookup_ge_None in Hj.
    rewrite <- (length_map d_name) in *. fold (names r) in Hj.
    fold (names (fold_left merge_directive us r)). by rewrite Hnames.
Qed.

(** X10 (merging again).  Merging the same user settings into the merged
    document once more leaves its directives as they are: every user
    directive finds its name and replaces the entry that the first merge put
    there.  The VirtualHost blocks, directory blocks and LoadModule entries
    of the user settings are added a second time. *)
Theorem merge_again (newConfig : Config) (user : Customizations) :
  let once := mergeApacheSettings newConfig user in
  let twice := mergeApacheSettings once user in
  directives twice = directives once
  /\ ifModules twice = ifModules once
  /\ virtualHosts twice = virtualHosts once ++ u_virtualHosts user
  /\ directories twice = directories once ++ u_directories user
  /\ modules twice = modules once ++ u_modules user.
Proof.
  intros once twice. subst once twice. unfold mergeApacheSettings, json_clone.
  cbn [directives ifModules virtualHosts directories modules].
  split; [|done]. apply fold_merge_again.
Qed.

End MergeAgain.

(* ========================================================================= *)
(** * What the diff report records *)
(* ========================================================================= *)

Section DiffChanges.

Variables oldLines newLines : list str.

(** What the loop body adds to each of the three arrays at index [i]. *)
Local Abbreviation addedAt :=
  (fun i : nat =>
     if negb (eqb (lineAt oldLines i) (lineAt newLines i))
        && (isEmpty (lineAt oldLines i) && negb (isEmpty (lineAt newLines i)))
     then Some (i + 1, lineAt newLines i) else None).

Local Abbreviation removedAt :=
  (fun i : nat =>
     if negb (eqb (lineAt oldLines i) (lineAt newLines i))
        && negb (isEmpty (lineAt oldLines i) && negb (isEmpty (lineAt newLines i)))
        && (negb (isEmpty (lineAt oldLines i)) && isEmpty (lineAt newLines i))
     then Some (i + 1, lineAt oldLines i) else None).

Local Abbreviation modifiedAt :=
  (fun i : nat =>
     if negb (eqb (lineAt oldLines i) (lineAt newLines i))
        && negb (isEmpty (lineAt oldLines i) && negb (isEmpty (lineAt newLines i)))
        && negb (negb (isEmpty (lineAt oldLines i)) && isEmpty (lineAt newLines i))
     then Some (i + 1, lineAt oldLines i, lineAt newLines i) else None).

Lemma omap_cons {A B} (f : A -> option B) (x : A) (l : list A) :
  omap f (x :: l) = match f x with Some y => y :: omap f l | None => omap f l end.
Proof. done. Qed.

Lemma diff_fold (l : list nat) (acc : Changes) :
  fold_left (diff_step oldLines newLines) l acc
  = mkChanges (added acc ++ omap addedAt l) (removed acc ++ omap removedAt l)
      (modified acc ++ omap modifiedAt l).
Proof.
  revert acc. induction l as [|i l IH]; intros acc.
  - simpl. rewrite !app_nil_r. by destruct acc.
  - cbn [fold_left]. rewrite IH. unfold diff_step. rewrite !omap_cons. cbv beta.
    destruct (eqb (lineAt oldLines i) (lineAt newLines i));
      destruct (isEmpty (lineAt oldLines i)); destruct (isEmpty (lineAt newLines i));
      cbn [negb andb added removed modified]; rewrite <- ?app_assoc; done.
Qed.

Lemma computeChanges_closed :
  computeChanges oldLines newLines
  = let idx := seq 0 (Nat.max (length oldLines) (length newLines)) in
    mkChanges (omap addedAt idx) (omap removedAt idx) (omap modifiedAt idx).
Proof. unfold computeChanges. by rewrite diff_fold. Qed.

Lemma isEmpty_true (s : str) : isEmpty s = true <-> s = [].
Proof. unfold isEmpty. by rewrite bool_decide_eq_true. Qed.

Lemma isEmpty_false (s : str) : isEmpty s = false <-> s <> [].
Proof. unfold isEmpty. by rewrite bool_decide_eq_false. Qed.

Lemma eqb_false (a b : str) : eqb a b = false <-> a <> b.
Proof. unfold eqb. by rewrite bool_decide_eq_false. Qed.

(** X11 (positions of the diff).  The diff compares the two texts line by
    line at equal positions.  A position is recorded as added when the old
    line is empty or missing and the new one is not, as removed in the
    opposite case, and as modified when both lines are non-empty and
    differ; positions with equal lines are not recorded.  So the three
    counts add up to the number of positions at which the lines differ. *)
Theorem diff_positions :
  let c := computeChanges oldLines newLines in
  let n := Nat.max (length oldLines) (length newLines) in
  (forall k s, (k, s) ∈ added c <->
     1 <= k <= n /\ lineAt oldLines (k - 1) = [] /\ lineAt newLines (k - 1) = s /\ s <> [])
  /\ (forall k s, (k, s) ∈ removed c <->
        1 <= k <= n /\ lineAt oldLines (k - 1) = s /\ s <> [] /\ lineAt newLines (k - 1) = [])
  /\ (forall k o s, (k, o, s) ∈ modified c <->
        1 <= k <= n /\ lineAt oldLines (k - 1) = o /\ lineAt newLines (k - 1) = s
        /\ o <> [] /\ s <> [] /\ o <> s)
  /\ length (added c) + length (removed c) + length (modified c)
     = length (List.filter (fun i => negb (eqb (lineAt oldLines i) (lineAt newLines i)))
                 (seq 0 n)).
Proof.
  intros c n. subst c. rewrite computeChanges_closed. fold n.
  cbn [added removed modified].
  split; [|split; [|split]].
  - intros k s. rewrite list_elem_of_omap. split.
    + intros (i & Hi & Hat).
      destruct (eqb (lineAt oldLines i) (lineAt newLines i)) eqn:He; [done|].
      destruct (isEmpty (lineAt oldLines i)) eqn:Ho; [|done].
      destruct (isEmpty (lineAt newLines i)) eqn:Hn; [done|].
      cbn in Hat. injection Hat as <- <-.
      apply elem_of_seq in Hi. replace (i + 1 - 1) with i by lia.
      apply isEmpty_true in Ho. apply isEmpty_false in Hn. repeat split; (lia || done).
    + intros (Hk & Ho & Hn & Hs). exists (k - 1). split; [apply elem_of_seq; lia|].
      rewrite Ho, Hn.
      assert (He : eqb [] s = false) by (by apply eqb_false).
      assert (Hs' : isEmpty s = false) by (by apply isEmpty_false).
      rewrite He, Hs'. cbn. do 2 f_equal. lia.
  - intros k s. rewrite list_elem_of_omap. split.
    + intros (i & Hi & Hat).
      destruct (eqb (lineAt oldLines i) (lineAt newLines i)) eqn:He; [done|].
      destruct (isEmpty (lineAt oldLines i)) eqn:Ho;
        destruct (isEmpty (lineAt newLines i)) eqn:Hn; try done.
      cbn in Hat. injection Hat as <- <-.
      apply elem_of_seq in Hi. replace (i + 1 - 1) with i by lia.
      apply isEmpty_false in Ho. apply isEmpty_true in Hn. repeat split; (lia || done).
    + intros (Hk & Ho & Hs & Hn). exists (k - 1). split; [apply elem_of_seq; lia|].
      rewrite Ho, Hn.
      assert (He : eqb s [] = false) by (by apply eqb_false).
      assert (Hs' : isEmpty s = false) by (by apply isEmpty_false).
      rewrite He, Hs'. cbn. do 2 f_equal. lia.
  - intros k o s. rewrite list_elem_of_omap. split.
    + intros (i & Hi & Hat).
      destruct (eqb (lineAt oldLines i) (lineAt newLines i)) eqn:He; [done|].
      destruct (isEmpty (lineAt oldLines i)) eqn:Ho;
        destruct (isEmpty (lineAt newLines i)) eqn:Hn; try done.
      * apply isEmpty_true in Ho. apply isEmpty_true in Hn. apply eqb_false in He. congruence.
      * cbn in Hat. injection Hat as <- <- <-.
        apply elem_of_seq in Hi. replace (i + 1 - 1) with i by lia.
        apply isEmpty_false in Ho. apply isEmpty_false in Hn. apply eqb_false in He.
        repeat split; (lia || done).
    + intros (Hk & Ho & Hn & Hos & Hss & Hne). exists (k - 1).
      split; [apply elem_of_seq; lia|].
      rewrite Ho, Hn.
      assert (He : eqb o s = false) by (by apply eqb_false).
      assert (Ho' : isEmpty o = false) by (by apply isEmpty_false).
      assert (Hs' : isEmpty s = false) by (by apply isEmpty_false).
      rewrite He, Ho', Hs'. cbn. do 3 f_equal. lia.
  - induction (seq 0 n) as [|i l IH]; [done|].
    rewrite !omap_cons. cbn [List.filter]. cbv beta.
    destruct (eqb (lineAt oldLines i) (lineAt newLines i)); cbn [negb andb]; [exact IH|].
    destruct (isEmpty (lineAt oldLines i)), (isEmpty (lineAt newLines i));
      cbn [negb andb length]; lia.
Qed.

End DiffChanges.

Section DiffBlind.

Lemma split_trailing_newlines (A : str) (n : nat) :
  split nl (A ++ repeat nl n) = split nl A ++ repeat [] n.
Proof.
  destruct n as [|n]; [by rewrite !app_nil_r|].
  cbn [repeat]. rewrite split_app_sep. f_equal.
  induction n as [|n IH]; [done|].
  cbn [repeat split]. rewrite N.eqb_refl. by rewrite IH.
Qed.

Lemma lineAt_trailing_empty (l : list str) (n i : nat) :
  lineAt (l ++ repeat [] n) i = lineAt l i.
Proof.
  unfold lineAt. destruct (decide (i < length l)) as [Hlt|Hge].
  - by rewrite lookup_app_l.
  - rewrite lookup_app_r by lia. rewrite (lookup_ge_None_2 l) by lia.
    destruct (repeat [] n !! (i - length l)) as [x|] eqn:Hx; [|done].
    apply list_elem_of_lookup_2, list_elem_of_In, repeat_spec in Hx. by subst.
Qed.

Lemma diff_step_equal (oldLines newLines : list str) (c : Changes) (i : nat) :
  lineAt oldLines i = lineAt newLines i -> diff_step oldLines newLines c i = c.
Proof.
  intros Heq. unfold diff_step. rewrite Heq. unfold eqb.
  by rewrite bool_decide_eq_true_2.
Qed.

Lemma fold_diff_equal (oldLines newLines : list str) (l : list nat) (c : Changes) :
  (forall i, lineAt oldLines i = lineAt newLines i) ->
  fold_left (diff_step oldLines newLines) l c = c.
Proof.
  intros Heq. induction l as [|i l IH]; [done|].
  cbn [fold_left]. by rewrite diff_step_equal.
Qed.

(** X12 (line breaks at the end).  The diff does not see line breaks added
    to or removed from the end of a text: it records no change, although the
    two texts differ and their line counts differ by the number of line
    breaks. *)
Theorem diff_blind_to_trailing_newlines (A : str) (n : nat) :
  computeChanges (split nl A) (split nl (A ++ repeat nl n)) = mkChanges [] [] []
  /\ computeChanges (split nl (A ++ repeat nl n)) (split nl A) = mkChanges [] [] []
  /\ length (split nl (A ++ repeat nl n)) = length (split nl A) + n.
Proof.
  rewrite split_trailing_newlines. unfold computeChanges. split; [|split].
  - apply fold_diff_equal. intros i. by rewrite lineAt_trailing_empty.
  - apply fold_diff_equal. intros i. by rewrite lineAt_trailing_empty.
  - by rewrite length_app, repeat_length.
Qed.

End DiffBlind.

Section DiffCap.

(** X13 (long lists of modified lines).  Of more than fifty modified lines
    the report shows the first fifty, four report lines each, and one line
    with the number of the others: the section is the one of the first
    fifty entries followed by that count and an empty line. *)
Theorem modified_section_capped (l : list (nat * str * str)) :
  50 < length l ->
  modifiedSection l
  = modifiedSection (take 50 l)
    ++ [lit "  ... and " ++ of_nat (length l - 50) ++ lit " more modified lines"; []]
  /\ length (modifiedSection l) = 204.
Proof.
  intros Hlen.
  assert (Htake : length (take 50 l) = 50) by (rewrite length_take; lia).
  assert (Hshape : forall l' : list (nat * str * str), l' <> [] ->
            modifiedSection l'
            = [lit "MODIFIED LINES:"; dashes]
              ++ concat (List.map (fun c =>
                   [lit "  [Line " ++ of_nat (fst (fst c)) ++ lit "]";
                    lit "    OLD: " ++ snd (fst c);
                    lit "    NEW: " ++ snd c;
                    []]) (take 50 l'))
              ++ (if bool_decide (50 < length l')
                  then [lit "  ... and " ++ of_nat (length l' - 50)
                        ++ lit " more modified lines"; []]
                  else [])).
  { intros l' Hne. by destruct l'. }
  assert (Hl : l <> []) by (intros ->; simpl in Hlen; lia).
  assert (Ht : take 50 l <> []) by (intros Heq; rewrite Heq in Htake; done).
  rewrite (Hshape l Hl), (Hshape (take 50 l) Ht).
  rewrite take_take, Nat.min_id, Htake.
  rewrite (bool_decide_eq_true_2 (50 < length l)) by done.
  rewrite (bool_decide_eq_false_2 (50 < 50)) by lia.
  split.
  - by rewrite app_nil_r, <- !app_assoc.
  - rewrite !length_app. cbn [length].
    assert (Hc : forall l' : list (nat * str * str),
              length (concat (List.map (fun c =>
                   [lit "  [Line " ++ of_nat (fst (fst c)) ++ lit "]";
                    lit "    OLD: " ++ snd (fst c);
                    lit "    NEW: " ++ snd c;
                    []]) l')) = 4 * length l').
    { induction l' as [|x l' IH]; [done|]. cbn [List.map concat]. rewrite length_app, IH.
      cbn [length]. lia. }
    rewrite Hc, Htake. lia.
Qed.

End DiffCap.

(** Fifty-one modified lines. *)
Lemma modified_section_capped_witness :
  length (modifiedSection (repeat (1, lit "a", lit "b") 51)) = 204.
Proof.
  apply (modified_section_capped (repeat (1, lit "a", lit "b") 51)).
  rewrite repeat_length. lia.
Defined.

(* ========================================================================= *)
(** * The directive-format merge on files *)
(* ========================================================================= *)

Section MergeOnFiles.

Context {E : Ext}.

(** X14 (merge on files).  [mergeApacheConfig] reads both configuration
    files before it writes anything.  When one of them is missing it throws
    the [ENOENT] error of that file and leaves the file system as it was.
    Otherwise it succeeds, reads the clock twice and writes exactly three
    files: the hardening file, the merged configuration with the [Include]
    line at [outputPath], and the diff report of the old text against the
    merged one; the result reports the numbers of user directives and of
    VirtualHost blocks taken from the old file. *)
Theorem mergeApacheConfig_outcome (oldConfPath newConfPath outputPath : path) (w : world) :
  match files w !! oldConfPath, files w !! newConfPath with
  | Some oldContent, Some newContent =>
      let user := extractApacheUserSettings (parseApacheConfig oldContent) in
      let finalContent :=
        appendInclude (buildApacheConfig (clock (ticks w))
                         (mergeApacheSettings (parseApacheConfig newContent) user)) in
      let vaptPath :=
        join_path [dirname outputPath; lit "conf"; lit "extra";
                   lit "httpd-security-vapt.conf"] in
      exists r w',
        mergeApacheConfig oldConfPath newConfPath outputPath w = (Ok r, w')
        /\ r_merged r = true
        /\ r_userSettings r = Some (length (u_directives user))
        /\ r_virtualHosts r = Some (length (virtualHosts (parseApacheConfig oldContent)))
        /\ r_diffReport r = Some (outputPath ++ lit ".diff.txt")
        /\ r_vaptConfig r = Some vaptPath
        /\ files w'
           = <[outputPath ++ lit ".diff.txt" :=
                 reportText (clock (S (ticks w))) oldContent finalContent]>
               (<[outputPath := finalContent]>
                  (<[vaptPath := APACHE_VAPT_CONFIG]> (files w)))
        /\ ticks w' = S (S (ticks w))
  | None, _ =>
      mergeApacheConfig oldConfPath newConfPath outputPath w = (Throw (enoent oldConfPath), w)
  | Some _, None =>
      mergeApacheConfig oldConfPath newConfPath outputPath w = (Throw (enoent newConfPath), w)
  end.
Proof.
  unfold mergeApacheConfig, generateDiffReport, bind, readFile, writeFile, ensureDir,
    now, modify, ret.
  destruct (files w !! oldConfPath) as [oldContent|] eqn:Hold; [|done].
  destruct (files w !! newConfPath) as [newContent|] eqn:Hnew; [|done].
  cbn [files ticks]. eexists _, _. split; [reflexivity|].
  cbn [r_merged r_userSettings r_virtualHosts r_diffReport r_vaptConfig files ticks].
  repeat split.
Qed.

End MergeOnFiles.

(* ========================================================================= *)
(** * The preservation loop *)
(* ========================================================================= *)

Section Preservation.

Context {E : Ext}.

Variables oldHttpd newHttpd : path.

(** [fs.pathExists] only reads, and never throws. *)
Lemma pathExists_reads (p : path) (w : world) :
  exists b, pathExists p w = (Ok b, w).
Proof. unfold pathExists. eauto. Qed.


(** What a run of the loop body that returns has done to the counters. *)
Lemma preserveItem_counts (counts counts' : Counts) (item : PreserveItem) (w w' : world) :
  preserveItem oldHttpd newHttpd counts item w = (Ok counts', w') ->
  preservedCount counts' + mergedCount counts' + skippedCount counts'
  = S (preservedCount counts + mergedCount counts + skippedCount counts)
  /\ preservedCount counts <= preservedCount counts'
  /\ mergedCount counts <= mergedCount counts'
  /\ skippedCount counts <= skippedCount counts'
  /\ (i_type item <> TMerge -> mergedCount counts' = mergedCount counts).
Proof.
  unfold preserveItem, try_catch, bind.
  destruct (pathExists_reads (join_path [oldHttpd; i_path item]) w) as [present Hp].
  rewrite Hp. destruct present; cbn [negb].
  - destruct (i_type item) eqn:Hty.
    + destruct (smartMergeConfiguration _ _ _ _ w) as [[r|err] w1].
      * destruct (r_merged r); intros [= <- <-]; cbn; repeat split; lia || done.
      * destruct (i_critical item); [done|]. intros [= <- <-]; cbn; repeat split; lia || done.
    + destruct (copyItem _ _ _ w) as [[[]|err] w1].
      * intros [= <- <-]; cbn; repeat split; lia || done.
      * destruct (i_critical item); [done|]. intros [= <- <-]; cbn; repeat split; lia || done.
    + destruct (copyItem _ _ _ w) as [[[]|err] w1].
      * intros [= <- <-]; cbn; repeat split; lia || done.
      * destruct (i_critical item); [done|]. intros [= <- <-]; cbn; repeat split; lia || done.
  - intros [= <- <-]; cbn; repeat split; lia || done.
Qed.

(** X16 (counters).  When the loop over the items returns, every item has
    been counted exactly once, as preserved, as merged or as skipped: the
    three counters have grown by the number of items together, none has
    decreased, and the merged counter by no more than the number of items
    of type merge. *)
Theorem preserveItems_counts (items : list PreserveItem) (counts counts' : Counts)
    (w w' : world) :
  preserveItems_loop oldHttpd newHttpd items counts w = (Ok counts', w') ->
  preservedCount counts' + mergedCount counts' + skippedCount counts'
  = preservedCount counts + mergedCount counts + skippedCount counts + length items
  /\ preservedCount counts <= preservedCount counts'
  /\ mergedCount counts <= mergedCount counts'
  /\ skippedCount counts <= skippedCount counts'
  /\ mergedCount counts'
     <= mergedCount counts
        + length (List.filter (fun item => match i_type item with
                                           | TMerge => true
                                           | _ => false
                                           end) items).
Proof.
  revert counts w. induction items as [|item items IH]; intros counts w; cbn [preserveItems_loop].
  - intros [= <- <-]. cbn. lia.
  - unfold bind.
    destruct (preserveItem oldHttpd newHttpd counts item w) as [[c1|err] w1] eqn:Hitem; [|done].
    intros Hrest. apply IH in Hrest as (Hsum & Hp & Hm & Hs & Hmerge).
    apply preserveItem_counts in Hitem as (Hsum1 & Hp1 & Hm1 & Hs1 & Hty).
    cbn [length List.filter].
    destruct (i_type item); cbn [length]; try lia.
    all: rewrite Hty in * by done; lia.
Qed.

End Preservation.


(** The six items of the Apache list on an installation that has only its
    main configuration file: one is merged, five are skipped. *)
Lemma preserveItems_counts_witness :
  let counts' := mkCounts 0 1 5 in
  preservedCount counts' + mergedCount counts' + skippedCount counts'
  = 0 + length httpdPreserveItems.
Proof.
  intros counts'.
  refine (proj1 (preserveItems_counts (E := simpleExt) (lit "/old") (lit "/new")
                   httpdPreserveItems (mkCounts 0 0 0) counts' scenario1_world
                   (snd (preserveItems_loop (E := simpleExt) (lit "/old") (lit "/new")
                           httpdPreserveItems (mkCounts 0 0 0) scenario1_world)) _)).
  vm_compute. reflexivity.
Defined.

(* ========================================================================= *)
(** * The Tomcat merge never completes *)
(* ========================================================================= *)

Section TomcatMergeFails.

Context {E : Ext}.

Variable parse : str -> M heap val.
Variable build : val -> M heap str.
Variable shutdownSuffix : str.
Variable valveRef : val.

(** The two in-memory steps swallow their errors. *)
Lemma applyTomcatUserSettings_returns (newConfig : val) (userSettings : UserSettings) (h : heap) :
  exists h', applyTomcatUserSettings newConfig userSettings h = (Ok tt, h').
Proof.
  unfold applyTomcatUserSettings, try_catch.
  match goal with |- context [match ?body h with _ => _ end] => destruct (body h) as [[[]|e] h'] end;
    eauto.
Qed.

Lemma applyTomcatVAPT_returns (config : val) (h : heap) :
  exists h', applyTomcatVAPT shutdownSuffix valveRef config h = (Ok tt, h').
Proof.
  unfold applyTomcatVAPT, try_catch.
  match goal with |- context [match ?body h with _ => _ end] => destruct (body h) as [[[]|e] h'] end;
    eauto.
Qed.

(** The first statement of [apply3DSpaceVAPT] throws. *)
Lemma apply3DSpaceVAPT_throws (tomeeConfigPath : path) (w : world) :
  TomcatFile.apply3DSpaceVAPT tomeeConfigPath w
  = (Throw (TomcatFile.referenceError "logStep"), w).
Proof. reflexivity. Qed.

(** Whatever the files hold, [mergeTomcatConfig] throws, and leaves the
    files and the clock as they were. *)
Lemma mergeTomcatConfig_throws (oldXmlPath newXmlPath outputPath : path) (s : world * heap) :
  exists e s',
    TomcatFile.mergeTomcatConfig parse build shutdownSuffix valveRef
      oldXmlPath newXmlPath outputPath s = (Throw e, s')
    /\ fst s' = fst s.
Proof.
  destruct s as [w h].
  unfold TomcatFile.mergeTomcatConfig, bind, TomcatFile.onFiles, TomcatFile.onHeap, readFile.
  cbn [fst snd].
  destruct (files w !! oldXmlPath) as [oldXml|]; [|by eexists _, _].
  cbn [fst snd].
  destruct (files w !! newXmlPath) as [newXml|]; [|by eexists _, _].
  cbn [fst snd].
  destruct (parse oldXml h) as [[oldConfig|e1] h1]; cbn [fst snd]; [|by eexists _, _].
  destruct (parse newXml h1) as [[newConfig|e2] h2]; cbn [fst snd]; [|by eexists _, _].
  destruct (applyTomcatUserSettings_returns newConfig
              (extractTomcatUserSettings h2 oldConfig) h2) as [h3 ->].
  cbn [fst snd].
  destruct (applyTomcatVAPT_returns newConfig h3) as [h4 ->].
  cbn [fst snd]. rewrite apply3DSpaceVAPT_throws. by eexists _, _.
Qed.

(** With both files read and parsed, the error is the one of [logStep]. *)
Lemma mergeTomcatConfig_reaches_logStep (oldXmlPath newXmlPath outputPath : path)
    (w : world) (h h1 h2 : heap) (oldXml newXml : str) (oldConfig newConfig : val) :
  files w !! oldXmlPath = Some oldXml ->
  files w !! newXmlPath = Some newXml ->
  parse oldXml h = (Ok oldConfig, h1) ->
  parse newXml h1 = (Ok newConfig, h2) ->
  fst (TomcatFile.mergeTomcatConfig parse build shutdownSuffix valveRef
         oldXmlPath newXmlPath outputPath (w, h))
  = Throw (TomcatFile.referenceError "logStep").
Proof.
  intros Hold Hnew Hp1 Hp2.
  unfold TomcatFile.mergeTomcatConfig, bind, TomcatFile.onFiles, TomcatFile.onHeap, readFile.
  cbn [fst snd]. rewrite Hold. cbn [fst snd]. rewrite Hnew. cbn [fst snd].
  rewrite Hp1. cbn [fst snd]. rewrite Hp2. cbn [fst snd].
  destruct (applyTomcatUserSettings_returns newConfig
              (extractTomcatUserSettings h2 oldConfig) h2) as [h3 ->].
  cbn [fst snd].
  destruct (applyTomcatVAPT_returns newConfig h3) as [h4 ->].
  cbn [fst snd]. by rewrite apply3DSpaceVAPT_throws.
Qed.

(** X17 (Tomcat merge).  [mergeTomcatConfig] never returns a result: when
    both files are read and parsed, the two in-memory steps run and the
    call of [apply3DSpaceVAPT] then throws [logStep is not defined], before
    the merged file and the diff report are written.  Whatever the error,
    the files and the clock are as they were before the call. *)
Theorem mergeTomcatConfig_always_throws (oldXmlPath newXmlPath outputPath : path)
    (s : world * heap) :
  exists e s',
    TomcatFile.mergeTomcatConfig parse build shutdownSuffix valveRef
      oldXmlPath newXmlPath outputPath s = (Throw e, s')
    /\ fst s' = fst s
    /\ (forall oldXml newXml oldConfig newConfig h1 h2,
          files (fst s) !! oldXmlPath = Some oldXml ->
          files (fst s) !! newXmlPath = Some newXml ->
          parse oldXml (snd s) = (Ok oldConfig, h1) ->
          parse newXml h1 = (Ok newConfig, h2) ->
          e = TomcatFile.referenceError "logStep").
Proof.
  destruct (mergeTomcatConfig_throws oldXmlPath newXmlPath outputPath s)
    as (e & s' & Hrun & Hfiles).
  exists e, s'. split; [done|]. split; [done|].
  intros oldXml newXml oldConfig newConfig h1 h2 Hold Hnew Hp1 Hp2.
  destruct s as [w h]. cbn [fst snd] in *.
  pose proof (mergeTomcatConfig_reaches_logStep oldXmlPath newXmlPath outputPath
                w h h1 h2 oldXml newXml oldConfig newConfig Hold Hnew Hp1 Hp2) as Herr.
  rewrite Hrun in Herr. cbn [fst] in Herr. by injection Herr.
Qed.

End TomcatMergeFails.

Section TomcatNeverMerged.

Variable E : Ext.
Variable parse : str -> M heap val.
Variable build : val -> M heap str.
Variable shutdownSuffix : str.

Local Abbreviation E' := (TomcatFile.withTomcatMerge E parse build shutdownSuffix).

Lemma mergeTomcatOnFiles_throws (oldXmlPath newXmlPath outputPath : path) (w : world) :
  exists e,
    TomcatFile.mergeTomcatOnFiles (E := E) parse build shutdownSuffix
      oldXmlPath newXmlPath outputPath w = (Throw e, w).
Proof.
  unfold TomcatFile.mergeTomcatOnFiles.
  destruct (mergeTomcatConfig_throws parse build shutdownSuffix (VRef 1)
              oldXmlPath newXmlPath outputPath (w, TomcatFile.moduleHeap))
    as (e & s' & -> & Hfst).
  exists e. by rewrite Hfst.
Qed.

(** The [try] block of the engine with the Tomcat merge throws. *)
Lemma smartMerge_try_tomcat_throws (toolType : str)
    (oldConfigPath newConfigPath outputPath : path) (w : world) :
  includes (lit "httpd") (@toLowerCase E toolType) = false ->
  includes (lit "apache") (@toLowerCase E toolType) = false ->
  includes (lit "tomcat") (@toLowerCase E toolType)
  || includes (lit "tomee") (@toLowerCase E toolType) = true ->
  exists e w0,
    smartMerge_try (E := E') toolType oldConfigPath newConfigPath outputPath w = (Throw e, w0).
Proof.
  intros Hhttpd Hapache Htomcat.
  unfold smartMerge_try, bind. unfold TomcatFile.withTomcatMerge.
  cbn [toLowerCase detectAndStopServices mergeTomcatConfig].
  rewrite Hhttpd, Hapache, Htomcat. cbn [orb].
  destruct (detectAndStopServices toolType oldConfigPath w) as [[stopped|e0] w0].
  - destruct (mergeTomcatOnFiles_throws oldConfigPath newConfigPath outputPath w0) as [e ->].
    by eexists _, _.
  - by eexists _, _.
Qed.

End TomcatNeverMerged.

Section FallbackResult.

Context {E : Ext}.

(** A result of the fallback is the fallback result object. *)
Lemma smartMerge_fallback_Ok (oldConfigPath newConfigPath outputPath : path) (err : error)
    (w w' : world) (r : MergeResult) :
  smartMerge_fallback oldConfigPath newConfigPath outputPath err w = (Ok r, w') ->
  r = fallbackResult err outputPath.
Proof.
  unfold smartMerge_fallback, try_catch, bind.
  destruct (copy newConfigPath outputPath w) as [[[]|e1] w1]; [|done].
  destruct (copy oldConfigPath (outputPath ++ lit ".old-backup") w1) as [[[]|e2] w2]; [|done].
  by intros [= <- <-].
Qed.

(** A result of the engine after its [try] block has thrown. *)
Lemma smartMerge_after_throw_Ok (toolType : str) (oldConfigPath newConfigPath outputPath : path)
    (err : error) (w w0 w' : world) (r : MergeResult) :
  smartMerge_try toolType oldConfigPath newConfigPath outputPath w = (Throw err, w0) ->
  smartMergeConfiguration toolType oldConfigPath newConfigPath outputPath w = (Ok r, w') ->
  r = fallbackResult err outputPath.
Proof.
  intros Htry. unfold smartMergeConfiguration, try_catch. rewrite Htry.
  apply smartMerge_fallback_Ok.
Qed.

End FallbackResult.

Section TomcatResult.

Variable E : Ext.
Variable parse : str -> M heap val.
Variable build : val -> M heap str.
Variable shutdownSuffix : str.

(** X18 (Tomcat never merged).  For a tool type that selects the Tomcat
    merge, [smartMergeConfiguration] never returns a merged result: its
    [try] block always ends in the [catch] block, so a result, when there
    is one, is the result of the fallback, with [merged] false and the old
    file kept as [.old-backup]. *)
Theorem smartMerge_tomcat_never_merged (toolType : str)
    (oldConfigPath newConfigPath outputPath : path) (w w' : world) (r : MergeResult) :
  let E' := TomcatFile.withTomcatMerge E parse build shutdownSuffix in
  let toolLower := @toLowerCase E toolType in
  includes (lit "httpd") toolLower = false ->
  includes (lit "apache") toolLower = false ->
  includes (lit "tomcat") toolLower || includes (lit "tomee") toolLower = true ->
  smartMergeConfiguration (E := E') toolType oldConfigPath newConfigPath outputPath w
  = (Ok r, w') ->
  r_merged r = false /\ r_fallback r = true
  /\ r_backupPath r = Some (outputPath ++ lit ".old-backup").
Proof.
  intros E' toolLower Hhttpd Hapache Htomcat Hrun.
  destruct (smartMerge_try_tomcat_throws E parse build shutdownSuffix toolType
              oldConfigPath newConfigPath outputPath w Hhttpd Hapache Htomcat)
    as (e & w0 & Htry).
  rewrite (smartMerge_after_throw_Ok (E := E') _ _ _ _ _ _ _ _ _ Htry Hrun).
  by repeat split.
Qed.

End TomcatResult.

(** The merge of two [server.xml] files that exist, with a parser that
    yields an empty document: the fallback result. *)
Lemma smartMerge_tomcat_never_merged_witness :
  let E' := TomcatFile.withTomcatMerge simpleExt (fun _ => alloc (Obj [])) (fun _ => ret [])
              (lit "k3x9q") in
  let w := mkWorld (<[lit "/old/conf/server.xml" := lit "<Server/>"]>
                      (<[lit "/new/conf/server.xml" := lit "<Server/>"]> ∅)) 0 in
  exists r w',
    smartMergeConfiguration (E := E') (lit "tomcat") (lit "/old/conf/server.xml")
      (lit "/new/conf/server.xml") (lit "/out/server.xml") w = (Ok r, w')
    /\ r_merged r = false.
Proof.
  intros E' w.
  destruct (smartMergeConfiguration (E := E') (lit "tomcat") (lit "/old/conf/server.xml")
              (lit "/new/conf/server.xml") (lit "/out/server.xml") w) as [[r|e] w'] eqn:Hrun.
  - exists r, w'. split; [done|].
    refine (proj1 (smartMerge_tomcat_never_merged simpleExt (fun _ => alloc (Obj []))
                     (fun _ => ret []) (lit "k3x9q") (lit "tomcat") _ _ _ w w' r _ _ _ Hrun));
      reflexivity.
  - exfalso. vm_compute in Hrun. discriminate.
Defined.

(* ========================================================================= *)
(** * The inline hardening of the Tomcat document *)
(* ========================================================================= *)

Section TomcatHardening.

Implicit Types (h : gmap positive obj) (v t x : val) (k : str).

(** The named properties of an object. *)
Local Abbreviation propsOf o :=
  (match o with Obj ps => ps | Arr _ ps => ps end).

Lemma key_eqb_refl (k : str) : eqb k k = true.
Proof. unfold eqb. by apply bool_decide_eq_true. Qed.

Lemma key_eqb_neq (k k' : str) : k <> k' -> eqb k k' = false.
Proof. intros H. unfold eqb. by apply bool_decide_eq_false. Qed.

Lemma assoc_set_same k x (ps : list (str * val)) : assoc k (assoc_set k x ps) = x.
Proof.
  induction ps as [|[k' v'] ps IH]; simpl.
  - by rewrite key_eqb_refl.
  - destruct (eqb k' k) eqn:Hk; simpl; rewrite Hk; [done|exact IH].
Qed.

Lemma assoc_set_other k k0 x (ps : list (str * val)) :
  k0 <> k -> assoc k (assoc_set k0 x ps) = assoc k ps.
Proof.
  intros Hne. induction ps as [|[k' v'] ps IH]; simpl.
  - by rewrite key_eqb_neq.
  - destruct (eqb k' k0) eqn:Hk0; simpl.
    + apply bool_decide_eq_true in Hk0. subst k'. by rewrite !key_eqb_neq.
    + destruct (eqb k' k); [done|exact IH].
Qed.

(** The object at [s] has the value [x] for the property [k]. *)
Local Abbreviation holds :=
  (fun (s : positive) (k : str) (x : val) (h : gmap positive obj) =>
     exists o, h !! s = Some o /\ assoc k (propsOf o) = x).

Lemma reads_isArray v : reads (isArray v).
Proof.
  intros h r h'. unfold isArray.
  destruct v as [| | | |l]; try by intros [= <- <-].
  destruct (h !! l) as [[?|? ?]|]; by intros [= <- <-].
Qed.

Lemma reads_getPropOpt v k : reads (getPropOpt v k).
Proof. destruct v; try apply reads_ret; apply reads_getProp. Qed.

Lemma reads_getIndex v (i : nat) : reads (getIndex v i).
Proof. apply reads_bind; [apply reads_elemsOf|intros; apply reads_ret]. Qed.

Lemma reads_firstService v : reads (firstService v).
Proof.
  unfold firstService. apply reads_bind; [apply reads_getProp|]. intros svc.
  apply reads_bind; [apply reads_isArray|]. intros [|]; [apply reads_getIndex|apply reads_ret].
Qed.

Lemma reads_throw {A} (e : error) : reads (throw (S := gmap positive obj) (A := A) e).
Proof. by intros h r h' [= <- <-]. Qed.

Lemma reads_some_list (p : val -> M (gmap positive obj) bool) (l : list val) :
  (forall x, reads (p x)) -> reads (some_list p l).
Proof.
  intros Hp. induction l as [|x l IH]; simpl; [apply reads_ret|].
  apply reads_bind; [apply Hp|]. intros [|]; [apply reads_ret|apply IH].
Qed.

Lemma reads_some v (p : val -> M (gmap positive obj) bool) :
  (forall x, reads (p x)) -> reads (some v p).
Proof.
  intros Hp. apply reads_bind; [apply reads_elemsOf|]. intros l. by apply reads_some_list.
Qed.

Lemma reads_isErrorReportValve v : reads (isErrorReportValve v).
Proof.
  unfold isErrorReportValve. apply reads_bind; [apply reads_getProp|].
  intros [| | | |l]; try apply reads_ret; try apply reads_throw.
  apply reads_bind; [apply reads_isArray|]. intros [|]; [|apply reads_throw].
  apply reads_bind; [apply reads_elemsOf|]. intros; apply reads_ret.
Qed.

Lemma preserves_seq {A B} (I : gmap positive obj -> Prop)
    (c : M (gmap positive obj) A) (f : A -> M (gmap positive obj) B) :
  preserves I c -> (forall a, preserves I (f a)) -> preserves I (bind c f).
Proof.
  intros Hc Hf. apply (preserves_bind I (fun _ => True)); [|by intros].
  intros h r h' HI Hrun. split; [by eapply Hc|done].
Qed.

Section Frame.

Variables (s : positive) (k : str) (x : val).

Lemma holds_setProp v k0 x0 :
  k0 <> k -> preserves (holds s k x) (setProp v k0 x0).
Proof.
  intros Hne h r h' (o & Ho & Hk). unfold setProp.
  destruct v as [| | | |l]; try (intros [= <- <-]; by exists o).
  destruct (h !! l) as [[ps|es ps]|] eqn:Hl; intros [= <- <-]; try by exists o.
  - destruct (decide (l = s)) as [->|Hls].
    + rewrite Ho in Hl. injection Hl as ->.
      eexists. rewrite lookup_insert_eq. split; [done|]. simpl. by rewrite assoc_set_other.
    + exists o. by rewrite lookup_insert_ne.
  - destruct (decide (l = s)) as [->|Hls].
    + rewrite Ho in Hl. injection Hl as ->.
      eexists. rewrite lookup_insert_eq. split; [done|]. simpl. by rewrite assoc_set_other.
    + exists o. by rewrite lookup_insert_ne.
Qed.

Lemma holds_setProps v (ps : list (str * val)) :
  Forall (fun kv => fst kv <> k) ps -> preserves (holds s k x) (setProps v ps).
Proof.
  induction 1 as [|[k0 x0] ps Hk0 Hps IH]; simpl; [apply preserves_ret|].
  apply (preserves_bind _ (fun _ => True)); [|by intros].
  intros h r h' HI Hrun. split; [|done]. by eapply holds_setProp.
Qed.

Lemma holds_assign v (ps : list (str * val)) :
  Forall (fun kv => fst kv <> k) ps -> preserves (holds s k x) (assign v ps).
Proof.
  intros Hps. destruct v; try apply preserves_ret; try apply preserves_throw.
  by apply holds_setProps.
Qed.

Lemma holds_push v (xs : list val) : preserves (holds s k x) (push v xs).
Proof.
  intros h r h' (o & Ho & Hk). unfold push.
  destruct v as [| | | |l]; try (intros [= <- <-]; by exists o).
  destruct (h !! l) as [[ps|es ps]|] eqn:Hl; intros [= <- <-]; try by exists o.
  destruct (decide (l = s)) as [->|Hls].
  - rewrite Ho in Hl. injection Hl as ->.
    eexists. rewrite lookup_insert_eq. split; [done|]. done.
  - exists o. by rewrite lookup_insert_ne.
Qed.

Lemma holds_alloc (o0 : obj) : preserves (holds s k x) (alloc o0).
Proof.
  intros h r h' (o & Ho & Hk) Hrun.
  apply alloc_spec in Hrun as (l & _ & Hl & ->).
  exists o. rewrite lookup_insert_ne; [done|]. intros ->. congruence.
Qed.

Lemma holds_asArray v : preserves (holds s k x) (asArray v).
Proof.
  unfold asArray. apply preserves_bind_reads; [apply reads_isArray|].
  intros [|]; [apply preserves_ret|apply holds_alloc].
Qed.

Lemma holds_normalizeArray v k0 :
  k0 <> k -> preserves (holds s k x) (normalizeArray v k0).
Proof.
  intros Hne. unfold normalizeArray.
  apply preserves_bind_reads; [apply reads_getProp|]. intros cur.
  destruct (negb (truthy cur)).
  - apply preserves_seq; [apply holds_alloc|]. intros a. by apply holds_setProp.
  - apply preserves_bind_reads; [apply reads_isArray|]. intros [|]; cbn [negb].
    + apply preserves_ret.
    + apply preserves_seq; [apply holds_alloc|]. intros a. by apply holds_setProp.
Qed.

Variable valveRef : val.

Lemma holds_hardenHost host :
  lit "Valve" <> k -> preserves (holds s k x) (hardenHost valveRef host).
Proof.
  intros Hne. unfold hardenHost.
  apply preserves_seq; [by apply holds_normalizeArray|]. intros _.
  apply preserves_bind_reads; [apply reads_getProp|]. intros valves.
  apply preserves_bind_reads; [apply reads_some; apply reads_isErrorReportValve|].
  intros [|]; cbn [negb]; [apply preserves_ret|].
  apply preserves_bind_reads; [apply reads_getProp|]. intros valves'. apply holds_push.
Qed.

(** The steps of the hardening after the one for the [Server] element. *)
Lemma holds_after_server (server : val) :
  lit "Valve" <> k -> Forall (fun kv => fst kv <> k) VAPT_connector ->
  preserves (holds s k x)
    (do service <- firstService server ;;
     if negb (truthy service) then ret tt
     else
       do connector <- getProp service (lit "Connector") ;;
       run (if truthy connector then
              do connectors <- asArray connector ;;
              forEach connectors (fun conn => assign conn VAPT_connector)
            else ret tt) ;;
       do engine <- getProp service (lit "Engine") ;;
       do host <- getPropOpt engine (lit "Host") ;;
       if truthy host then
         do hosts <- asArray host ;;
         forEach hosts (hardenHost valveRef)
       else ret tt).
Proof.
  intros Hvalve Hconn.
  apply preserves_bind_reads; [apply reads_firstService|]. intros service.
  destruct (negb (truthy service)); [apply preserves_ret|].
  apply preserves_bind_reads; [apply reads_getProp|]. intros connector.
  apply preserves_seq.
  { destruct (truthy connector); [|apply preserves_ret].
    apply preserves_seq; [apply holds_asArray|]. intros connectors.
    apply preserves_forEach. intros conn. by apply holds_assign. }
  intros _.
  apply preserves_bind_reads; [apply reads_getProp|]. intros engine.
  apply preserves_bind_reads; [apply reads_getPropOpt|]. intros host.
  destruct (truthy host); [|apply preserves_ret].
  apply preserves_seq; [apply holds_asArray|]. intros hosts.
  apply preserves_forEach. intros host'. by apply holds_hardenHost.
Qed.

End Frame.

Variable shutdownSuffix : str.
Variable valveRef : val.

(** The step for the [Server] element. *)
Lemma assign_server (s : positive) (o : obj) (h : heap) :
  h !! s = Some o ->
  exists h2,
    assign (VRef s) (VAPT_server shutdownSuffix) h = (Ok tt, h2)
    /\ holds s (lit "@_port") (VStr (lit "-1")) h2
    /\ holds s (lit "@_shutdown") (VStr (lit "SHUTDOWN_" ++ shutdownSuffix)) h2.
Proof.
  intros Ho. unfold assign, VAPT_server, attr. cbn [setProps]. unfold bind, setProp, ret.
  rewrite Ho.
  destruct o as [ps|es ps]; rewrite lookup_insert_eq; (eexists; split; [reflexivity|]);
    split; eexists; (split; [apply lookup_insert_eq|]); cbv beta iota.
  - rewrite assoc_set_other; [apply assoc_set_same|]. by_computation.
  - apply assoc_set_same.
  - rewrite assoc_set_other; [apply assoc_set_same|]. by_computation.
  - apply assoc_set_same.
Qed.

(** X19 (shutdown port).  When the document has a [Server] element, the
    hardening sets its [port] attribute to [-1] and its [shutdown]
    attribute to the random command, whatever their values were, and they
    keep these values to the end of the call, also when a later step of
    the hardening fails. *)
Theorem applyTomcatVAPT_server (config : val) (h : heap) (s : positive) (o : obj) :
  getProp config (lit "Server") h = (Ok (VRef s), h) ->
  h !! s = Some o ->
  let result := applyTomcatVAPT shutdownSuffix valveRef config h in
  fst result = Ok tt
  /\ exists o',
       snd result !! s = Some o'
       /\ assoc (lit "@_port") (propsOf o') = VStr (lit "-1")
       /\ assoc (lit "@_shutdown") (propsOf o') = VStr (lit "SHUTDOWN_" ++ shutdownSuffix).
Proof.
  intros Hserver Ho result. subst result.
  destruct (assign_server s o h Ho) as (h2 & Hassign & Hport & Hcmd).
  assert (Hvalve1 : lit "Valve" <> lit "@_port") by by_computation.
  assert (Hvalve2 : lit "Valve" <> lit "@_shutdown") by by_computation.
  assert (Hconn1 : Forall (fun kv => fst kv <> lit "@_port") VAPT_connector) by by_computation.
  assert (Hconn2 : Forall (fun kv => fst kv <> lit "@_shutdown") VAPT_connector)
    by by_computation.
  pose proof (holds_after_server s (lit "@_port") (VStr (lit "-1")) valveRef (VRef s)
                Hvalve1 Hconn1) as Hrest1.
  pose proof (holds_after_server s (lit "@_shutdown")
                (VStr (lit "SHUTDOWN_" ++ shutdownSuffix)) valveRef (VRef s)
                Hvalve2 Hconn2) as Hrest2.
  assert (Hrun : exists h', applyTomcatVAPT shutdownSuffix valveRef config h = (Ok tt, h')
                            /\ holds s (lit "@_port") (VStr (lit "-1")) h'
                            /\ holds s (lit "@_shutdown")
                                 (VStr (lit "SHUTDOWN_" ++ shutdownSuffix)) h').
  { unfold applyTomcatVAPT, try_catch.
    unfold bind at 1. rewrite Hserver. cbn [truthy negb].
    unfold bind at 1. rewrite Hassign.
    match goal with
    | |- context [match ?rest h2 with _ => _ end] =>
        destruct (rest h2) as [r h'] eqn:Hrun
    end.
    pose proof (Hrest1 _ _ _ Hport Hrun) as H1.
    pose proof (Hrest2 _ _ _ Hcmd Hrun) as H2.
    exists h'. by destruct r as [[]|e]. }
  destruct Hrun as (h' & -> & (o1 & Ho1 & Hp1) & (o2 & Ho2 & Hp2)).
  assert (o1 = o2) by congruence. subst o2.
  cbn [fst snd]. split; [done|]. by exists o1.
Qed.

End TomcatHardening.

(** The document of [hostHeap]: its [Server] element is the object 2, with
    the port [8005]. *)
Lemma applyTomcatVAPT_server_witness :
  exists o', hardenedOnce !! 2%positive = Some o'
             /\ assoc (lit "@_port") (match o' with Obj ps | Arr _ ps => ps end)
                = VStr (lit "-1").
Proof.
  destruct (applyTomcatVAPT_server (lit "k3x9q") (VRef 9) (VRef 1) hostHeap 2%positive
              (Obj [attr "@_port" "8005"; (lit "Service", VRef 3)]))
    as [_ (o' & H1 & H2 & _)].
  - vm_compute. reflexivity.
  - vm_compute. reflexivity.
  - exists o'. split; [exact H1|exact H2].
Defined.

(* ========================================================================= *)
(** * The user settings that reach the new Tomcat document *)
(* ========================================================================= *)

Section TomcatSettings.

Lemma reads_try_catch {A} (c : M (gmap positive obj) A) (f : error -> M (gmap positive obj) A) :
  reads c -> (forall e, reads (f e)) -> reads (try_catch c f).
Proof.
  intros Hc Hf h r h'. unfold try_catch.
  destruct (c h) as [[a|e] h1] eqn:Hrun.
  - intros [= <- <-]. by apply (Hc _ _ _ Hrun).
  - intros Hh. rewrite (Hf _ _ _ _ Hh). by apply (Hc _ _ _ Hrun).
Qed.

(** X20 (contexts and resources).  Of the settings taken from the old
    Tomcat document only the connectors and the hosts are applied to the
    new one: the contexts, resources and valves that were collected have no
    effect.  When the old document has no custom connector and no custom
    host the new document is left as it is. *)
Theorem applyTomcatUserSettings_uses (newConfig : val) (userSettings : UserSettings) :
  (forall contexts resources valves,
     applyTomcatUserSettings newConfig userSettings
     = applyTomcatUserSettings newConfig
         (mkUserSettings (s_connectors userSettings) (s_hosts userSettings)
            contexts resources valves))
  /\ (s_connectors userSettings = [] -> s_hosts userSettings = [] ->
      forall h, applyTomcatUserSettings newConfig userSettings h = (Ok tt, h)).
Proof.
  split; [done|].
  intros Hc Hh h.
  assert (Hreads : reads (applyTomcatUserSettings newConfig userSettings)).
  { unfold applyTomcatUserSettings. rewrite Hc, Hh. cbn [length].
    rewrite bool_decide_eq_false_2 by lia.
    apply reads_try_catch; [|intros; apply reads_ret].
    apply reads_bind; [apply reads_getProp|]. intros server.
    apply reads_bind; [apply reads_getPropOpt|]. intros svc.
    destruct (negb (truthy svc)); [apply reads_ret|].
    apply reads_bind; [apply reads_firstService|]. intros service.
    apply reads_bind; [apply reads_ret|]. intros _. apply reads_ret. }
  destruct (applyTomcatUserSettings_returns newConfig userSettings h) as [h' Hrun].
  rewrite Hrun. by rewrite (Hreads _ _ _ Hrun).
Qed.

End TomcatSettings.

(* ========================================================================= *)
(** * The connectors of the hardened Tomcat document *)
(* ========================================================================= *)

Section ConnectorHardening.

Implicit Types (h : gmap positive obj) (v t x : val) (k : str).

Local Abbreviation propsOf o :=
  (match o with Obj ps => ps | Arr _ ps => ps end).

Local Abbreviation holds :=
  (fun (s : positive) (k : str) (x : val) (h : gmap positive obj) =>
     exists o, h !! s = Some o /\ assoc k (propsOf o) = x).

(** The object with other named properties. *)
Local Abbreviation withProps :=
  (fun (o : obj) (ps : list (str * val)) =>
     match o with Obj _ => Obj ps | Arr es _ => Arr es ps end).

(** The properties after the assignments of [ps], in order. *)
Local Abbreviation set_all :=
  (fun (ps init : list (str * val)) =>
     fold_left (fun acc kv => assoc_set (fst kv) (snd kv) acc) ps init).

(** The connector attributes are set on the object at [l]. *)
Local Abbreviation hardened :=
  (fun (l : positive) (h : gmap positive obj) =>
     exists o, h !! l = Some o
               /\ Forall (fun kv => assoc (fst kv) (propsOf o) = snd kv) VAPT_connector).

(** Every value of [conns] is a reference to an object of the heap. *)
Local Abbreviation valid :=
  (fun (conns : list val) (h : gmap positive obj) =>
     Forall (fun conn => exists l, conn = VRef l /\ is_Some (h !! l)) conns).

(** From [h] to [h'] no object was made, no array element changed, and no
    property outside of [K] changed. *)
Local Abbreviation unchanged :=
  (fun (K : list str) (h h' : gmap positive obj) =>
     forall l,
       match h !! l with
       | None => h' !! l = None
       | Some o =>
           exists o', h' !! l = Some o'
                      /\ match o, o' with
                         | Obj _, Obj _ => True
                         | Arr es _, Arr es' _ => es' = es
                         | _, _ => False
                         end
                      /\ forall k, k ∉ K -> assoc k (propsOf o') = assoc k (propsOf o)
       end).

Lemma unchanged_refl (K : list str) h : unchanged K h h.
Proof. intros l. destruct (h !! l) as [o|]; [|done]. exists o. by destruct o. Qed.

Lemma unchanged_trans (K : list str) h1 h2 h3 :
  unchanged K h1 h2 -> unchanged K h2 h3 -> unchanged K h1 h3.
Proof.
  intros H12 H23 l. specialize (H12 l). specialize (H23 l).
  destruct (h1 !! l) as [o1|].
  - destruct H12 as (o2 & Ho2 & Hk12 & Hp12). rewrite Ho2 in H23.
    destruct H23 as (o3 & Ho3 & Hk23 & Hp23). exists o3. split; [done|]. split.
    + destruct o1, o2, o3; try done. congruence.
    + intros k Hk. by rewrite Hp23, Hp12.
  - by rewrite H12 in H23.
Qed.

Lemma unchanged_weaken (K K' : list str) h h' :
  K ⊆ K' -> unchanged K h h' -> unchanged K' h h'.
Proof.
  intros Hsub Hun l. specialize (Hun l). destruct (h !! l) as [o|]; [|done].
  destruct Hun as (o' & Ho' & Hkind & Hp). exists o'. split; [done|]. split; [done|].
  intros k Hk. apply Hp. intros Hin. apply Hk. by apply Hsub.
Qed.

Lemma set_all_other k (ps init : list (str * val)) :
  k ∉ List.map fst ps -> assoc k (set_all ps init) = assoc k init.
Proof.
  revert init. induction ps as [|[k0 x0] ps IH]; intros init Hk; [done|].
  cbn [fold_left fst snd]. rewrite IH.
  - apply assoc_set_other. intros ->. apply Hk. cbn. left.
  - intros Hin. apply Hk. cbn. by right.
Qed.

Lemma set_all_elem k x (ps init : list (str * val)) :
  NoDup (List.map fst ps) -> (k, x) ∈ ps -> assoc k (set_all ps init) = x.
Proof.
  revert init. induction ps as [|[k0 x0] ps IH]; intros init Hnd Hin.
  - by apply elem_of_nil in Hin.
  - cbn [List.map fst] in Hnd. apply NoDup_cons in Hnd as [Hk0 Hnd].
    cbn [fold_left fst snd]. apply elem_of_cons in Hin as [[= -> ->]|Hin].
    + rewrite set_all_other by done. apply assoc_set_same.
    + by apply IH.
Qed.

(** What [Object.assign] does to an object of the heap. *)
Lemma setProps_spec (l : positive) (o : obj) (ps : list (str * val)) h :
  h !! l = Some o ->
  setProps (VRef l) ps h = (Ok tt, <[l := withProps o (set_all ps (propsOf o))]> h).
Proof.
  revert o h. induction ps as [|[k0 x0] ps IH]; intros o h Ho.
  - cbn. unfold ret. f_equal. rewrite insert_id; [done|]. by destruct o.
  - cbn [setProps]. unfold bind, setProp. rewrite Ho.
    destruct o as [qs|es qs].
    + rewrite (IH (Obj (assoc_set k0 x0 qs))) by apply lookup_insert_eq.
      cbn [fold_left fst snd]. by rewrite insert_insert_eq.
    + rewrite (IH (Arr es (assoc_set k0 x0 qs))) by apply lookup_insert_eq.
      cbn [fold_left fst snd]. by rewrite insert_insert_eq.
Qed.

Lemma setProps_unchanged (l : positive) (o : obj) (ps : list (str * val)) h :
  h !! l = Some o ->
  unchanged (List.map fst ps) h (<[l := withProps o (set_all ps (propsOf o))]> h).
Proof.
  intros Ho l'. destruct (decide (l' = l)) as [->|Hne].
  - rewrite Ho, lookup_insert_eq. eexists. split; [done|]. split; [by destruct o|].
    intros k Hk. destruct o; cbv beta iota; by apply set_all_other.
  - rewrite lookup_insert_ne by done. destruct (h !! l') as [o'|]; [|done].
    exists o'. by destruct o'.
Qed.

(** Reading after writes to other properties. *)
Lemma getProp_unchanged (K : list str) v k x h h' :
  unchanged K h h' -> k ∉ K -> getProp v k h = (Ok x, h) -> getProp v k h' = (Ok x, h').
Proof.
  intros Hun Hk. unfold getProp. destruct v as [| | | |l]; try done; try by intros [= <-].
  specialize (Hun l). destruct (h !! l) as [o|]; [|done].
  destruct Hun as (o' & -> & Hkind & Hp). specialize (Hp k Hk).
  destruct o, o'; try done; cbv beta iota in Hp; intros [= <-]; by rewrite Hp.
Qed.

Lemma isArray_unchanged (K : list str) v h h' :
  unchanged K h h' -> fst (isArray v h') = fst (isArray v h).
Proof.
  intros Hun. unfold isArray. destruct v as [| | | |l]; try done.
  specialize (Hun l). destruct (h !! l) as [o|].
  - destruct Hun as (o' & -> & Hkind & _). by destruct o, o'.
  - by rewrite Hun.
Qed.

Lemma elemsOf_unchanged (K : list str) v h h' :
  unchanged K h h' -> fst (elemsOf v h') = fst (elemsOf v h).
Proof.
  intros Hun. unfold elemsOf. destruct v as [| | | |l]; try done.
  specialize (Hun l). destruct (h !! l) as [o|].
  - destruct Hun as (o' & -> & Hkind & _). destruct o, o'; try done. by subst.
  - by rewrite Hun.
Qed.

Lemma reads_run {A} (c : M (gmap positive obj) A) h : reads c -> c h = (fst (c h), h).
Proof. intros Hc. destruct (c h) as [r h'] eqn:Hrun. by rewrite (Hc _ _ _ Hrun). Qed.

Lemma firstService_unchanged (K : list str) v service h h' :
  unchanged K h h' -> lit "Service" ∉ K ->
  firstService v h = (Ok service, h) -> firstService v h' = (Ok service, h').
Proof.
  intros Hun Hk. unfold firstService, getIndex. intros Hrun.
  apply bind_inv in Hrun as [(svc & h1 & Hsvc & Hrun)|(e & _ & [=])].
  pose proof (reads_getProp _ _ _ _ _ Hsvc) as ->.
  unfold bind at 1. rewrite (getProp_unchanged K _ _ _ _ _ Hun Hk Hsvc).
  pose proof (isArray_unchanged K svc h h' Hun) as HisA.
  pose proof (elemsOf_unchanged K svc h h' Hun) as Helems.
  revert Hrun. unfold bind.
  rewrite (reads_run (isArray svc) h (reads_isArray svc)).
  rewrite (reads_run (isArray svc) h' (reads_isArray svc)).
  rewrite HisA.
  destruct (fst (isArray svc h)) as [[|]|e]; try done.
  - rewrite (reads_run (elemsOf svc) h (reads_elemsOf svc)).
    rewrite (reads_run (elemsOf svc) h' (reads_elemsOf svc)).
    rewrite Helems.
    destruct (fst (elemsOf svc h)) as [es|e]; [|done]. by intros [= <-].
  - by intros [= <-].
Qed.

Lemma valid_unchanged (K : list str) (conns : list val) h h' :
  unchanged K h h' -> valid conns h -> valid conns h'.
Proof.
  intros Hun Hv. eapply Forall_impl; [exact Hv|]. cbv beta.
  intros conn (l & -> & [o Ho]). exists l. split; [done|].
  specialize (Hun l). rewrite Ho in Hun. destruct Hun as (o' & Ho' & _). by exists o'.
Qed.

(** A hardened connector stays hardened when the attributes are assigned
    to another object, or to the same one again. *)
Lemma hardened_setProps (l l0 : positive) (o0 : obj) h :
  h !! l0 = Some o0 -> hardened l h ->
  hardened l (<[l0 := withProps o0 (set_all VAPT_connector (propsOf o0))]> h).
Proof.
  intros Ho0 (o & Ho & Hall). destruct (decide (l = l0)) as [->|Hne].
  - eexists. split; [apply lookup_insert_eq|].
    apply Forall_forall. intros [k x] Hin. cbn [fst snd].
    assert (Hset : assoc k (set_all VAPT_connector (propsOf o0)) = x).
    { apply set_all_elem; [by_computation|done]. }
    by destruct o0.
  - exists o. by rewrite lookup_insert_ne.
Qed.

Lemma hardened_fresh (l0 : positive) (o0 : obj) h :
  h !! l0 = Some o0 ->
  hardened l0 (<[l0 := withProps o0 (set_all VAPT_connector (propsOf o0))]> h).
Proof.
  intros Ho0. eexists. split; [apply lookup_insert_eq|].
  apply Forall_forall. intros [k x] Hin. cbn [fst snd].
  assert (Hset : assoc k (set_all VAPT_connector (propsOf o0)) = x).
  { apply set_all_elem; [by_computation|done]. }
  by destruct o0.
Qed.

(** The loop over the connectors, from the index [i] on. *)
Lemma harden_loop (a : positive) (conns : list val) (n i : nat) h :
  (exists ps, h !! a = Some (Arr conns ps)) ->
  valid conns h ->
  (forall j l, j < i -> conns !! j = Some (VRef l) -> hardened l h) ->
  i + n = length conns ->
  exists h',
    forEach_from (VRef a) (fun conn => assign conn VAPT_connector) n i h = (Ok tt, h')
    /\ unchanged (List.map fst VAPT_connector) h h'
    /\ forall j l, conns !! j = Some (VRef l) -> hardened l h'.
Proof.
  revert i h. induction n as [|n IH]; intros i h Harr Hvalid Hdone Hlen.
  - exists h. split; [done|]. split; [apply unchanged_refl|].
    intros j l Hj. apply (Hdone j l); [|done].
    apply lookup_lt_Some in Hj. lia.
  - destruct Harr as [ps Ha].
    cbn [forEach_from]. unfold bind at 1. unfold elemsOf. rewrite Ha.
    destruct (lookup_lt_is_Some_2 conns i ltac:(lia)) as [conn Hconn].
    rewrite Hconn.
    destruct (proj1 (Forall_forall _ _) Hvalid conn
                ltac:(by eapply list_elem_of_lookup_2)) as (l & -> & [o Ho]).
    unfold bind at 1. cbn [assign]. rewrite (setProps_spec l o VAPT_connector h Ho).
    pose proof (setProps_unchanged l o VAPT_connector h Ho) as Hun.
    set (h1 := <[l := withProps o (set_all VAPT_connector (propsOf o))]> h) in *.
    destruct (IH (S i) h1) as (h' & Hrun & Hun' & Hall).
    + subst h1. destruct (decide (a = l)) as [->|Hne].
      * rewrite lookup_insert_eq. rewrite Ha in Ho. injection Ho as <-. by eexists.
      * rewrite lookup_insert_ne by done. by eexists.
    + by apply (valid_unchanged _ _ _ _ Hun).
    + intros j l' Hj Hl'. destruct (decide (j = i)) as [->|Hji].
      * rewrite Hconn in Hl'. injection Hl' as <-. by apply hardened_fresh.
      * apply hardened_setProps; [done|]. apply (Hdone j l'); [lia|done].
    + lia.
    + exists h'. split; [done|]. split; [|done].
      by apply (unchanged_trans _ _ _ _ Hun).
Qed.

Variable valveRef : val.

(** The steps of the hardening after the connectors. *)
Lemma holds_hosts (s : positive) k x (service : val) :
  lit "Valve" <> k ->
  preserves (holds s k x)
    (do engine <- getProp service (lit "Engine") ;;
     do host <- getPropOpt engine (lit "Host") ;;
     if truthy host then
       do hosts <- asArray host ;;
       forEach hosts (hardenHost valveRef)
     else ret tt).
Proof.
  intros Hvalve.
  apply preserves_bind_reads; [apply reads_getProp|]. intros engine.
  apply preserves_bind_reads; [apply reads_getPropOpt|]. intros host.
  destruct (truthy host); [|apply preserves_ret].
  apply preserves_seq; [apply holds_asArray|]. intros hosts.
  apply preserves_forEach. intros host'. by apply holds_hardenHost.
Qed.

Lemma hardened_hosts (l : positive) (service : val) :
  preserves (hardened l)
    (do engine <- getProp service (lit "Engine") ;;
     do host <- getPropOpt engine (lit "Host") ;;
     if truthy host then
       do hosts <- asArray host ;;
       forEach hosts (hardenHost valveRef)
     else ret tt).
Proof.
  intros h r h' (o & Ho & Hall) Hrun.
  assert (Hkeys : Forall (fun kv : str * val => lit "Valve" <> fst kv) VAPT_connector)
    by by_computation.
  assert (Hsome : exists o', h' !! l = Some o').
  { destruct (holds_hosts l (lit "x") (assoc (lit "x") (propsOf o)) service
                ltac:(by_computation) h r h') as (o' & Ho' & _); [by exists o|done|].
    by exists o'. }
  destruct Hsome as [o' Ho']. exists o'. split; [done|].
  apply Forall_forall. intros kv Hin.
  destruct (holds_hosts l (fst kv) (snd kv) service
              (proj1 (Forall_forall _ _) Hkeys kv Hin) h r h') as (o'' & Ho'' & Hk).
  - exists o. split; [done|]. by apply (proj1 (Forall_forall _ _) Hall kv).
  - done.
  - rewrite Ho' in Ho''. injection Ho'' as <-. exact Hk.
Qed.

Variable shutdownSuffix : str.

(** X21 (connectors).  When the first service of the document has
    connectors, one object or an array of objects, the hardening assigns
    every attribute of the connector settings to each of them, whatever the
    document or the user's settings had there, also when the later step for
    the hosts fails. *)
Theorem applyTomcatVAPT_connectors (config service : val) (h : heap) (s c : positive)
    (oc : obj) :
  getProp config (lit "Server") h = (Ok (VRef s), h) ->
  firstService (VRef s) h = (Ok service, h) ->
  getProp service (lit "Connector") h = (Ok (VRef c), h) ->
  h !! c = Some oc ->
  let conns := match oc with Arr elems _ => elems | Obj _ => [VRef c] end in
  Forall (fun conn => exists l, conn = VRef l /\ is_Some (h !! l)) conns ->
  let result := applyTomcatVAPT shutdownSuffix valveRef config h in
  fst result = Ok tt
  /\ Forall (fun conn =>
               exists l o', conn = VRef l
                            /\ snd result !! l = Some o'
                            /\ Forall (fun kv => assoc (fst kv) (propsOf o') = snd kv)
                                 VAPT_connector) conns.
Proof.
  intros Hserver Hservice Hconnector Hc conns Hvalid result. subst result.
  assert (Hs : exists o, h !! s = Some o).
  { revert Hservice. unfold firstService, bind, getProp.
    destruct (h !! s) as [o|]; [by exists o|done]. }
  destruct Hs as [o Ho].
  pose proof (setProps_unchanged s o (VAPT_server shutdownSuffix) h Ho) as Hun.
  set (h2 := <[s := withProps o (set_all (VAPT_server shutdownSuffix) (propsOf o))]> h) in *.
  assert (Hservice2 : firstService (VRef s) h2 = (Ok service, h2)).
  { apply (firstService_unchanged _ _ _ _ _ Hun); [by_computation|done]. }
  assert (Hconnector2 : getProp service (lit "Connector") h2 = (Ok (VRef c), h2)).
  { apply (getProp_unchanged _ _ _ _ _ _ Hun); [by_computation|done]. }
  assert (Htruthy : truthy service = true).
  { revert Hconnector. unfold getProp. destruct service; try done. }
  assert (Hvalid2 : valid conns h2) by by apply (valid_unchanged _ _ _ _ Hun).
  assert (Hloop : exists h3,
             (do connectors <- asArray (VRef c) ;;
              forEach connectors (fun conn => assign conn VAPT_connector)) h2 = (Ok tt, h3)
             /\ forall conn, conn ∈ conns -> exists l, conn = VRef l /\ hardened l h3).
  { pose proof (Hun c) as Hc2. rewrite Hc in Hc2. destruct Hc2 as (oc2 & Hc2 & Hkind & _).
    unfold asArray, bind at 1 2, isArray. rewrite Hc2.
    destruct oc as [pc|es pc], oc2 as [pc2|es2 pc2]; try done.
    - (* a single connector *)
      unfold alloc, ret. cbv beta iota zeta.
      set (a := fresh (dom h2)).
      assert (Ha : h2 !! a = None) by (apply not_elem_of_dom, is_fresh).
      set (h2' := <[a := Arr [VRef c] []]> h2).
      assert (Hac : a <> c) by congruence.
      destruct (harden_loop a [VRef c] 1 0 h2') as (h3 & Hrun & _ & Hall).
      + exists []. apply lookup_insert_eq.
      + constructor; [|done]. exists c. split; [done|].
        subst h2'. rewrite lookup_insert_ne by done. by eexists.
      + intros; lia.
      + done.
      + exists h3. unfold forEach, lengthOf, bind, elemsOf, ret.
        assert (Hlook : h2' !! a = Some (Arr [VRef c] [])) by apply lookup_insert_eq.
        rewrite Hlook. cbv beta iota zeta. cbn [length]. split; [exact Hrun|].
        intros conn Hin. apply list_elem_of_singleton in Hin as ->.
        exists c. split; [done|]. by apply (Hall 0).
    - (* an array of connectors *)
      subst es2. destruct (harden_loop c es (length es) 0 h2) as (h3 & Hrun & _ & Hall).
      + by eexists.
      + done.
      + intros; lia.
      + done.
      + exists h3. unfold forEach, lengthOf, bind, elemsOf, ret. cbv beta iota zeta.
        rewrite Hc2. cbv beta iota zeta.
        split; [exact Hrun|]. intros conn Hin.
        destruct (proj1 (Forall_forall _ _) Hvalid2 conn Hin) as (l & -> & _).
        exists l. split; [done|].
        apply list_elem_of_lookup_1 in Hin as [j Hj]. by apply (Hall j). }
  destruct Hloop as (h3 & Hloop & Hall).
  assert (Hrun : exists h4, applyTomcatVAPT shutdownSuffix valveRef config h = (Ok tt, h4)
                            /\ forall conn, conn ∈ conns ->
                                 exists l, conn = VRef l /\ hardened l h4).
  { unfold applyTomcatVAPT, try_catch.
    unfold bind at 1. rewrite Hserver. cbn [truthy negb].
    unfold bind at 1. cbn [assign]. rewrite (setProps_spec s o _ h Ho). fold h2.
    unfold bind at 1. rewrite Hservice2, Htruthy. cbn [negb].
    unfold bind at 1. rewrite Hconnector2. cbn [truthy].
    unfold bind at 1. rewrite Hloop.
    match goal with
    | |- context [match ?rest h3 with _ => _ end] => destruct (rest h3) as [r h4] eqn:Hrest
    end.
    exists h4. split; [by destruct r as [[]|e]|].
    intros conn Hin. destruct (Hall conn Hin) as (l & -> & Hl).
    exists l. split; [done|]. by eapply (hardened_hosts l service). }
  destruct Hrun as (h4 & -> & Hall4). cbn [fst snd]. split; [done|].
  apply Forall_forall. intros conn Hin.
  destruct (Hall4 conn Hin) as (l & -> & o' & Ho' & Hattrs). by exists l, o'.
Qed.

End ConnectorHardening.

(** The document of [hostHeap]: its connectors are the array 4, with the
    one connector 6. *)
Lemma applyTomcatVAPT_connectors_witness :
  exists o', hardenedOnce !! 6%positive = Some o'
             /\ assoc (lit "@_SSLEnabled") (match o' with Obj ps | Arr _ ps => ps end)
                = VStr (lit "true").
Proof.
  destruct (applyTomcatVAPT_connectors (VRef 9) (lit "k3x9q") (VRef 1) (VRef 3) hostHeap
              2%positive 4%positive (Arr [VRef 6] [])) as [_ Hall].
  - vm_compute. reflexivity.
  - vm_compute. reflexivity.
  - vm_compute. reflexivity.
  - vm_compute. reflexivity.
  - constructor; [|constructor]. exists 6%positive. split; [reflexivity|].
    eexists. vm_compute. reflexivity.
  - apply Forall_cons in Hall as [(l & o' & [= <-] & Ho' & Hattrs) _].
    exists o'. split; [exact Ho'|].
    exact (proj1 (Forall_forall _ _) Hattrs (attr "@_SSLEnabled" "true")
             ltac:(by_computation)).
Defined.

(* ========================================================================= *)
(** * The upgrade route: what is restored, and when *)
(* ========================================================================= *)

Section RouteRollback.

Context {World : Type} (os : Os World).

(** A call that writes to the installation from a backup. *)
Local Abbreviation restores ev :=
  (match ev with
   | EvRestoreFromFolder _ _ | EvRestoreFromZip _ _ => true
   | _ => false
   end).

Ltac route_step :=
  match goal with
  | |- context [testPathAccess os ?a ?w] => destruct (testPathAccess os a w) as [[[] ?] ?] eqn:?
  | |- context [backupWithStructure os ?a ?b ?c ?w] =>
      destruct (backupWithStructure os a b c w) as [[?|?] ?] eqn:?
  | |- context [os_ensureDir os ?a ?w] => destruct (os_ensureDir os a w) as [[[]|?] ?] eqn:?
  | |- context [os_stat os ?a ?w] => destruct (os_stat os a w) as [[[]|?] ?] eqn:?
  | |- context [extractZip os ?a ?b ?w] => destruct (extractZip os a b w) as [[[]|?] ?] eqn:?
  | |- context [extractTar os ?a ?b ?w] => destruct (extractTar os a b w) as [[[]|?] ?] eqn:?
  | |- context [os_readdir os ?a ?w] => destruct (os_readdir os a w) as [[[]|?] ?] eqn:?
  | |- context [laterPhases os ?a ?b ?c ?d ?w] =>
      destruct (laterPhases os a b c d w) as [[[]|?] ?] eqn:?
  | |- context [os_pathExists os ?a ?w] => destruct (os_pathExists os a w) as [[] ?] eqn:?
  | |- context [restoreFromFolder os ?a ?b ?w] =>
      destruct (restoreFromFolder os a b w) as [[[]|?] ?] eqn:?
  | |- context [restoreFromZip os ?a ?b ?w] =>
      destruct (restoreFromZip os a b w) as [[[]|?] ?] eqn:?
  | |- context [os_remove os ?a ?w] => destruct (os_remove os a w) as [[[]|?] ?] eqn:?
  | |- context [bool_decide ?P] => destruct (bool_decide P) eqn:?
  | |- context [endsWith ?a ?b] => destruct (endsWith a b) eqn:?
  end; cbn -[join_path lit accessMessage unsupportedMessage].

Ltac route_open :=
  unfold call_total, call, set_uploadedFilePath, set_backupFolder, set_tempDir,
    bind, try_catch, throw, ret, get, modify;
  cbn -[join_path lit accessMessage unsupportedMessage].

(** Membership in a list given by its elements. *)
Ltac among Hin :=
  repeat (apply elem_of_cons in Hin as [Hin|Hin];
          [first [congruence | subst; rewrite !elem_of_cons; tauto]|]);
  by apply elem_of_nil in Hin.

(** The [try] block restores nothing, and the backup folder it leaves on
    record is the one the backup step returned. *)
Lemma upgrade_try_backup (cfg : UpgradeConfig) (file : option UploadedFile) (w : World) :
  let tried := upgrade_try os cfg file (mkState w [] [] [] []) in
  let test := testPathAccess os (existingPath cfg) w in
  Forall (fun ev => restores ev = false) (trace (snd tried))
  /\ (backupFolder (snd tried) = []
      \/ accessible (fst test) = true
         /\ exists w2, backupWithStructure os (existingPath cfg) (backupPath cfg) (toolType cfg)
                         (snd test)
                       = (Ok (backupFolder (snd tried)), w2)).
Proof.
  unfold upgrade_try, extractArchive. destruct file as [f|]; route_open.
  - repeat route_step;
      (split; [repeat constructor|]);
      first [ by left | right; split; [done|]; by eexists ].
  - split; [constructor|by left].
Qed.

(** The rollback looks for the backup on record and restores the target
    from it; without a backup on record it does nothing. *)
Lemma rollback_events (cfg : UpgradeConfig) (st : state World) :
  let folder := backupFolder st in
  exists evs,
    trace (snd (rollback os cfg st)) = trace st ++ evs
    /\ (folder = [] -> evs = [])
    /\ Forall (fun ev => ev ∈ [EvPathExists folder;
                               EvRestoreFromFolder folder (existingPath cfg);
                               EvPathExists (folder ++ lit ".zip");
                               EvRestoreFromZip (folder ++ lit ".zip") (existingPath cfg)])
         evs.
Proof.
  unfold rollback. route_open.
  destruct (bool_decide (backupFolder st = [])) eqn:Hfolder;
    cbn -[join_path lit accessMessage unsupportedMessage].
  - exists []. rewrite app_nil_r. by repeat split.
  - apply bool_decide_eq_false in Hfolder.
    repeat route_step;
      first [ eexists [_]; (split; [done|])
            | eexists [_; _]; (split; [by rewrite <- ?app_assoc|])
            | eexists [_; _; _]; (split; [by rewrite <- ?app_assoc|]) ];
      (split; [done|]); repeat constructor; set_solver.
Qed.

Lemma remove_if_present_events (p : path) (st : state World) :
  exists evs,
    trace (snd (remove_if_present os p st)) = trace st ++ evs
    /\ tempDir (snd (remove_if_present os p st)) = tempDir st
    /\ uploadedFilePath (snd (remove_if_present os p st)) = uploadedFilePath st
    /\ Forall (fun ev => ev ∈ [EvPathExists p; EvRemove p]) evs.
Proof.
  unfold remove_if_present. route_open.
  repeat route_step;
    first [ exists []; rewrite app_nil_r; by repeat split
          | eexists [_]; (split; [done|]); (split; [done|]); (split; [done|]);
            repeat constructor; set_solver
          | eexists [_; _]; (split; [by rewrite <- ?app_assoc|]); (split; [done|]);
            (split; [done|]); repeat constructor; set_solver ].
Qed.

(** The cleanup looks for the extraction directory and for the uploaded
    archive, and removes them. *)
Lemma cleanup_events (st : state World) :
  exists evs,
    trace (snd (cleanup os st)) = trace st ++ evs
    /\ Forall (fun ev => ev ∈ [EvPathExists (tempDir st); EvRemove (tempDir st);
                               EvPathExists (uploadedFilePath st);
                               EvRemove (uploadedFilePath st)]) evs.
Proof.
  unfold cleanup, try_catch, bind, get.
  destruct (remove_if_present_events (tempDir st) st) as (evs1 & H1 & _ & Hup & Hall1).
  destruct (remove_if_present os (tempDir st) st) as [[[]|e1] st1]; cbn [fst snd] in *.
  - destruct (remove_if_present_events (uploadedFilePath st) st1) as (evs2 & H2 & _ & _ & Hall2).
    exists (evs1 ++ evs2). split.
    + destruct (remove_if_present os (uploadedFilePath st) st1) as [[[]|e2] st2];
        simpl in *; by rewrite H2, H1, app_assoc.
    + apply Forall_app. split; (eapply Forall_impl; [eassumption|]); cbv beta;
        intros ev Hev; among Hev.
  - exists evs1. split; [done|].
    eapply Forall_impl; [eassumption|]. cbv beta. intros ev Hev. among Hev.
Qed.

(** X22 (nothing restored without a backup).  Whatever the outcome of the
    steps, the route restores the installation only after the target has
    passed the access test and the backup step has returned a folder, only
    as part of a failed request, and only from that folder or from its
    zipped form, into the target path of the request. *)
Theorem restore_only_from_backup (cfg : UpgradeConfig) (file : option UploadedFile)
    (w : World) (src target : path) :
  let result := upgrade os (mkRequest (Some cfg) file) w in
  let test := testPathAccess os (existingPath cfg) w in
  EvRestoreFromFolder src target ∈ trace (snd result)
  \/ EvRestoreFromZip src target ∈ trace (snd result) ->
  status (fst result) = 500
  /\ target = existingPath cfg
  /\ accessible (fst test) = true
  /\ exists folder w2,
       backupWithStructure os (existingPath cfg) (backupPath cfg) (toolType cfg) (snd test)
       = (Ok folder, w2)
       /\ folder <> []
       /\ (EvRestoreFromFolder src target ∈ trace (snd result) -> src = folder)
       /\ (EvRestoreFromZip src target ∈ trace (snd result) -> src = folder ++ lit ".zip").
Proof.
  intros result test. subst result.
  destruct (upgrade_try_backup cfg file w) as [Hquiet Hfolder].
  unfold upgrade. cbn [req_config req_file].
  destruct (upgrade_try os cfg file (mkState w [] [] [] [])) as [[resp|e] st];
    cbn [fst snd] in *.
  { (* the [try] block returned: nothing is restored *)
    intros [Hin|Hin]; by apply (proj1 (Forall_forall _ _) Hquiet) in Hin. }
  destruct (rollback_events cfg st) as (evs1 & H1 & Hnone & Hall1).
  destruct (rollback os cfg st) as [r1 st1]. cbn [fst snd] in *.
  destruct (cleanup_events st1) as (evs2 & H2 & Hall2).
  destruct (cleanup os st1) as [r2 st2]. cbn [fst snd status] in *.
  rewrite H2, H1.
  assert (Hwhere : forall ev, restores ev = true -> ev ∈ (trace st ++ evs1) ++ evs2 ->
                              ev ∈ evs1).
  { intros ev Hev Hin. apply elem_of_app in Hin as [Hin|Hin].
    - apply elem_of_app in Hin as [Hin|Hin]; [|done].
      apply (proj1 (Forall_forall _ _) Hquiet) in Hin. congruence.
    - apply (proj1 (Forall_forall _ _) Hall2) in Hin.
      destruct ev; try done; among Hin. }
  intros Hrestored.
  assert (Hsome : exists ev, ev ∈ evs1).
  { destruct Hrestored as [Hin|Hin]; eexists; eapply Hwhere; try exact Hin; done. }
  assert (Hne : backupFolder st <> []).
  { intros Hempty. destruct Hsome as [ev Hev]. rewrite (Hnone Hempty) in Hev.
    by apply elem_of_nil in Hev. }
  destruct Hfolder as [Hempty|[Hacc [w2 Hbackup]]]; [done|].
  assert (Hsrc : forall ev, ev ∈ evs1 ->
                   ev ∈ [EvPathExists (backupFolder st);
                         EvRestoreFromFolder (backupFolder st) (existingPath cfg);
                         EvPathExists (backupFolder st ++ lit ".zip");
                         EvRestoreFromZip (backupFolder st ++ lit ".zip") (existingPath cfg)]).
  { intros ev Hev. by apply (proj1 (Forall_forall _ _) Hall1). }
  split; [done|]. split; [|split; [done|]].
  - destruct Hrestored as [Hin|Hin]; apply Hwhere, Hsrc in Hin; try done; among Hin.
  - exists (backupFolder st), w2. split; [done|]. split; [done|].
    split; intros Hin; apply Hwhere, Hsrc in Hin; try done; among Hin.
Qed.

(** X23 (inaccessible target).  When the access test of the target fails,
    the route answers with the status 500 and the reason of the test, and
    has made no backup, extracted nothing and restored nothing: after the
    test it only looks for the uploaded archive and removes it. *)
Theorem inaccessible_target_untouched (cfg : UpgradeConfig) (f : UploadedFile) (w : World) :
  let test := testPathAccess os (existingPath cfg) w in
  accessible (fst test) = false ->
  let result := upgrade os (mkRequest (Some cfg) (Some f)) w in
  status (fst result) = 500
  /\ resp_error (fst result)
     = Some (accessMessage (existingPath cfg) (access_error (fst test)))
  /\ backupFolder (snd result) = []
  /\ exists evs,
       trace (snd result) = EvAccessTest (existingPath cfg) :: evs
       /\ Forall (fun ev => ev ∈ [EvPathExists (f_path f); EvRemove (f_path f)]) evs.
Proof.
  intros test. subst test. unfold upgrade, upgrade_try, rollback, cleanup, remove_if_present.
  cbn [req_config req_file]. route_open.
  destruct (testPathAccess os (existingPath cfg) w) as [[acc reason] w1].
  cbn -[join_path lit accessMessage unsupportedMessage]. intros ->.
  cbn -[join_path lit accessMessage unsupportedMessage].
  repeat route_step; repeat split; eexists; (split; [reflexivity|]);
    repeat constructor; set_solver.
Qed.

End RouteRollback.

(** The [.rar] upload on a system where every operation succeeds: the
    target is restored from the backup folder. *)
Lemma restore_only_from_backup_witness :
  EvRestoreFromFolder (lit "/backup/httpd_20250101000000") (lit "/opt/httpd")
    ∈ trace (snd (upgrade allGood rarRequest tt))
  /\ status (fst (upgrade allGood rarRequest tt)) = 500.
Proof.
  assert (Hin : EvRestoreFromFolder (lit "/backup/httpd_20250101000000") (lit "/opt/httpd")
                  ∈ trace (snd (upgrade allGood rarRequest tt))) by by_computation.
  split; [exact Hin|].
  exact (proj1 (restore_only_from_backup allGood
                  (mkUpgradeConfig (lit "httpd") (lit "/opt/httpd") (lit "/backup") true true)
                  (Some (mkUploadedFile (lit "uploads/3f2a") (lit "httpd-2.4.62.rar"))) tt
                  (lit "/backup/httpd_20250101000000") (lit "/opt/httpd") (or_introl Hin))).
Defined.

(** A target that another program holds open. *)
Lemma inaccessible_target_untouched_witness :
  status (fst (upgrade Server.lockedTarget rarRequest tt)) = 500
  /\ backupFolder (snd (upgrade Server.lockedTarget rarRequest tt)) = [].
Proof.
  destruct (inaccessible_target_untouched Server.lockedTarget
              (mkUpgradeConfig (lit "httpd") (lit "/opt/httpd") (lit "/backup") true true)
              (mkUploadedFile (lit "uploads/3f2a") (lit "httpd-2.4.62.rar")) tt eq_refl)
    as (Hstatus & _ & Hfolder & _).
  split; [exact Hstatus|exact Hfolder].
Defined.

(* ========================================================================= *)
(** * The preservation of TomEE and of a JDK: what is counted as merged *)
(* ========================================================================= *)

Section TomEEPreservation.

Variable E : Ext.
Variable parse : str -> M heap val.
Variable build : val -> M heap str.
Variable shutdownSuffix : str.
Variable stat : path -> M world bool.
Variable remove : path -> M world unit.
Variable readdir : path -> M world (list str).
Variables oldTomEE newTomEE : path.

Local Abbreviation E' := (TomcatFile.withTomcatMerge E parse build shutdownSuffix).

Hypothesis lower_tomcat : @toLowerCase E (lit "tomcat") = lit "tomcat".



End TomEEPreservation.


Section JdkPreservation.

Variable E : Ext.
Variable extractJavaUserGrants : str -> list str.
Variable importCertificates : path -> path -> M world nat.
Variable stat : path -> M world unit.
Variables oldJdk newJdk : path.

Local Abbreviation E' := (Jdk.withJdkMerge E extractJavaUserGrants importCertificates).

Hypothesis lower_jdk : @toLowerCase E (lit "jdk") = lit "jdk".

(** A result of the engine with the JDK merge has no true [merged]. *)
Lemma smartMerge_jdk_result (oldConfigPath newConfigPath outputPath : path) (w w' : world)
    (r : MergeResult) :
  smartMergeConfiguration (E := E') (lit "jdk") oldConfigPath newConfigPath outputPath w
  = (Ok r, w') ->
  r_merged r = false.
Proof.
  unfold smartMergeConfiguration, try_catch, smartMerge_try, bind.
  unfold Jdk.withJdkMerge.
  cbn [toLowerCase detectAndStopServices mergeJDKConfig copy].
  rewrite lower_jdk.
  change (includes (lit "httpd") (lit "jdk")) with false.
  change (includes (lit "apache") (lit "jdk")) with false.
  change (includes (lit "tomcat") (lit "jdk")) with false.
  change (includes (lit "tomee") (lit "jdk")) with false.
  change (includes (lit "jdk") (lit "jdk")) with true.
  cbn [orb].
  destruct (detectAndStopServices (lit "jdk") oldConfigPath w) as [[stopped|e0] w0].
  - unfold bind, ret.
    destruct (Jdk.mergeJDKConfig extractJavaUserGrants importCertificates
                oldConfigPath newConfigPath None w0) as [[results|e] w1].
    + by intros [= <- <-].
    + intros Hrun. by rewrite (smartMerge_fallback_Ok _ _ _ _ _ _ _ Hrun).
  - intros Hrun. by rewrite (smartMerge_fallback_Ok _ _ _ _ _ _ _ Hrun).
Qed.

Lemma jdk_item_counts (counts counts' : Counts) (item : Jdk.JdkItem) (w w' : world) :
  Jdk.preserveItem (E := E') stat oldJdk newJdk counts item w = (Ok counts', w') ->
  mergedCount counts' = mergedCount counts
  /\ preservedCount counts' + skippedCount counts'
     = S (preservedCount counts + skippedCount counts).
Proof.
  unfold Jdk.preserveItem, try_catch, bind.
  destruct (pathExists_reads (join_path [oldJdk; Jdk.j_path item]) w) as [present Hp].
  rewrite Hp. destruct present; cbn [negb].
  - destruct (Jdk.j_type item).
    + destruct (smartMergeConfiguration (E := E') (lit "jdk") _ _ _ w) as [[r|err] w1] eqn:Hrun.
      * apply smartMerge_jdk_result in Hrun as ->. intros [= <- <-]; cbn; lia.
      * destruct (Jdk.j_critical item); [done|]. intros [= <- <-]; cbn; lia.
    + destruct (stat _ w) as [[[]|err] w1].
      * destruct (copy _ _ w1) as [[[]|err] w2].
        -- intros [= <- <-]; cbn; lia.
        -- destruct (Jdk.j_critical item); [done|]. intros [= <- <-]; cbn; lia.
      * destruct (Jdk.j_critical item); [done|]. intros [= <- <-]; cbn; lia.
    + destruct (copy _ _ w) as [[[]|err] w1].
      * destruct (copy _ _ w1) as [[[]|err] w2].
        -- intros [= <- <-]; cbn; lia.
        -- destruct (Jdk.j_critical item); [done|]. intros [= <- <-]; cbn; lia.
      * destruct (Jdk.j_critical item); [done|]. intros [= <- <-]; cbn; lia.
    + destruct (stat _ w) as [[[]|err] w1].
      * destruct (copy _ _ w1) as [[[]|err] w2].
        -- intros [= <- <-]; cbn; lia.
        -- destruct (Jdk.j_critical item); [done|]. intros [= <- <-]; cbn; lia.
      * destruct (Jdk.j_critical item); [done|]. intros [= <- <-]; cbn; lia.
  - intros [= <- <-]; cbn; lia.
Qed.

(** X25 (JDK: nothing is counted as merged).  The result of
    [mergeJDKConfig] has no [merged] field, so the preservation of a JDK
    counts a policy file whose merge returned as copied: when the loop
    returns, the merged counter is what it was. *)
Theorem jdk_never_counted_merged (items : list Jdk.JdkItem) (counts counts' : Counts)
    (w w' : world) :
  Jdk.preserveItems_loop (E := E') stat oldJdk newJdk items counts w = (Ok counts', w') ->
  mergedCount counts' = mergedCount counts
  /\ preservedCount counts' + skippedCount counts'
     = preservedCount counts + skippedCount counts + length items.
Proof.
  revert counts w. induction items as [|item items IH]; intros counts w;
    cbn [Jdk.preserveItems_loop].
  - intros [= <- <-]. cbn. lia.
  - unfold bind.
    destruct (Jdk.preserveItem (E := E') stat oldJdk newJdk counts item w)
      as [[c1|err] w1] eqn:Hitem; [|done].
    intros Hrest. apply IH in Hrest as [Hm Hsum].
    apply jdk_item_counts in Hitem as [Hm1 Hsum1]. cbn [length]. lia.
Qed.

(** X26 (JDK policy file).  The loop hands the path of the old policy
    file itself to the merge, which takes it for the root of the old JDK
    and looks for [lib/security/java.policy] and [lib/security/cacerts]
    beneath it.  When neither exists there, as for a regular file, the
    merge reads and writes nothing: apart from what stopping the services
    does, the files are as before, the policy of the new version is kept,
    and the item is counted as copied. *)
Theorem jdk_policy_not_carried_over (counts : Counts) (stopped : list str) (w w0 : world) :
  let item := Jdk.mkJdkItem Jdk.JMerge (lit "lib/security/java.policy") false in
  let sourcePath := join_path [oldJdk; lit "lib/security/java.policy"] in
  pathExists sourcePath w = (Ok true, w) ->
  @detectAndStopServices E (lit "jdk") sourcePath w = (Ok stopped, w0) ->
  pathExists (join_path [sourcePath; lit "lib"; lit "security"; lit "java.policy"]) w0
  = (Ok false, w0) ->
  pathExists (join_path [sourcePath; lit "lib"; lit "security"; lit "cacerts"]) w0
  = (Ok false, w0) ->
  Jdk.preserveItem (E := E') stat oldJdk newJdk counts item w
  = (Ok (mkCounts (S (preservedCount counts)) (mergedCount counts) (skippedCount counts)),
     w0).
Proof.
  intros item sourcePath Hpresent Hstop Hpolicy Hcacerts. subst item.
  unfold Jdk.preserveItem, try_catch. cbn [Jdk.j_path Jdk.j_type Jdk.j_critical].
  fold sourcePath. unfold bind at 1. rewrite Hpresent. cbn [negb].
  unfold bind at 1.
  unfold smartMergeConfiguration, try_catch, smartMerge_try.
  unfold bind at 1.
  unfold Jdk.withJdkMerge.
  cbn [toLowerCase detectAndStopServices mergeJDKConfig copy].
  rewrite lower_jdk, Hstop.
  change (includes (lit "httpd") (lit "jdk")) with false.
  change (includes (lit "apache") (lit "jdk")) with false.
  change (includes (lit "tomcat") (lit "jdk")) with false.
  change (includes (lit "tomee") (lit "jdk")) with false.
  change (includes (lit "jdk") (lit "jdk")) with true.
  cbn [orb].
  unfold Jdk.mergeJDKConfig. unfold bind, ret.
  rewrite Hpolicy. rewrite bool_decide_eq_true_2 by done. rewrite Hcacerts.
  reflexivity.
Qed.

End JdkPreservation.

(** An old and a new JDK with a policy file each. *)
Lemma jdk_never_counted_merged_witness :
  let E' := Jdk.withJdkMerge simpleExt (fun _ => []) (fun _ _ => ret 0) in
  let w := mkWorld (<[lit "/old/lib/security/java.policy" := lit "grant { };"]>
                      (<[lit "/new/lib/security/java.policy" := lit "grant { };"]> ∅)) 0 in
  fst (Jdk.comprehensivePreserveJDK_SECURE (E := E') (fun _ => ret tt)
         (lit "/old") (lit "/new") w)
  = Ok (mkCounts 1 0 4).
Proof.
  intros E' w.
  destruct (Jdk.comprehensivePreserveJDK_SECURE (E := E') (fun _ => ret tt)
              (lit "/old") (lit "/new") w) as [[c|e] w'] eqn:Hrun.
  - pose proof (jdk_never_counted_merged simpleExt (fun _ => []) (fun _ _ => ret 0)
                  (fun _ => ret tt) (lit "/old") (lit "/new") eq_refl Jdk.jdkPreserveItems
                  (mkCounts 0 0 0) c w w' Hrun) as [Hm _].
    vm_compute in Hrun. by injection Hrun as <- _.
  - exfalso. vm_compute in Hrun. discriminate.
Defined.

Lemma jdk_policy_not_carried_over_witness :
  let E' := Jdk.withJdkMerge simpleExt (fun _ => []) (fun _ _ => ret 0) in
  let w := mkWorld (<[lit "/old/lib/security/java.policy" := lit "grant { };"]>
                      (<[lit "/new/lib/security/java.policy" := lit "// new"]> ∅)) 0 in
  files (snd (Jdk.preserveItem (E := E') (fun _ => ret tt) (lit "/old") (lit "/new")
                (mkCounts 0 0 0)
                (Jdk.mkJdkItem Jdk.JMerge (lit "lib/security/java.policy") false) w))
    !! lit "/new/lib/security/java.policy"
  = Some (lit "// new").
Proof.
  intros E' w. subst E'.
  rewrite (jdk_policy_not_carried_over simpleExt (fun _ => []) (fun _ _ => ret 0)
             (fun _ => ret tt) (lit "/old") (lit "/new") eq_refl (mkCounts 0 0 0) [] w w).
  - reflexivity.
  - vm_compute. reflexivity.
  - reflexivity.
  - vm_compute. reflexivity.
  - vm_compute. reflexivity.
Defined.
